(** * AI-Study-Buddy: the model-call and response-validation pipeline

    A shallow embedding of the JavaScript that talks to the text-generation
    endpoint and validates what comes back:

    - the retrying client [callGeminiAPI] of the serverless handlers
      (api/ask, api/flashcards: [maxRetries = 3], 429 handling, backoff);
    - the express server's [extractJsonArray], [isNumberedMarkdownList],
      [callGeminiWithRetry], its Ajv schemas and its three route handlers.

    JavaScript strings are sequences of UTF-16 code units, so they are
    modelled as [list N].  The built-ins the code relies on (regular
    expressions, [String.prototype.split]/[trim], [parseInt], [JSON.parse],
    Ajv's schema keywords) are modelled after ECMA-262 / ECMA-404 / JSON
    Schema for the fragment the source uses.  The remote endpoint is an
    oracle: a function from the call index and the prompt to what [fetch]
    produces. *)

From Stdlib Require Import List String Ascii Bool Arith NArith ZArith Lia.
Import ListNotations.

Set Warnings "-register-all".

(* ===================================================================== *)
(** ** JavaScript strings *)
(* ===================================================================== *)

Module JS.
Local Open Scope N_scope.

(** A UTF-16 code unit. *)
Abbreviation cu := N (only parsing).

(** A JavaScript string. *)
Abbreviation str := (list N) (only parsing).

(** An ASCII literal as a JavaScript string. *)
Definition lit (s : string) : str := map N_of_ascii (list_ascii_of_string s).

(** The double quote and the line feed, which a literal cannot hold. *)
Definition dquote : str := [34].
Definition LF : str := [10].

(** [dquote ++ s ++ dquote]: a quoted ASCII literal. *)
Definition quoted (s : string) : str := dquote ++ lit s ++ dquote.

Definition cu_in (lo hi c : cu) : bool := (N.leb lo c && N.leb c hi)%bool.

(** [\d] *)
Definition is_digit (c : cu) : bool := cu_in 48 57 c.

(** [\s], which is also what [trim] strips: WhiteSpace and LineTerminator
    of ECMA-262 (TAB, LF, VT, FF, CR, SP, NBSP, U+1680, U+2000..U+200A,
    U+2028, U+2029, U+202F, U+205F, U+3000, U+FEFF). *)
Definition is_space (c : cu) : bool :=
  (cu_in 9 13 c || N.eqb c 32 || N.eqb c 160 || N.eqb c 5760
   || cu_in 8192 8202 c || N.eqb c 8232 || N.eqb c 8233 || N.eqb c 8239
   || N.eqb c 8287 || N.eqb c 12288 || N.eqb c 65279)%bool.

Fixpoint dropWhile (p : cu -> bool) (s : str) : str :=
  match s with
  | c :: t => if p c then dropWhile p t else s
  | [] => []
  end.

(** [String.prototype.trim] *)
Definition trim (s : str) : str :=
  rev (dropWhile is_space (rev (dropWhile is_space s))).

(** [s.substring(0, n)] *)
Definition substring0 (n : nat) (s : str) : str := firstn n s.

Fixpoint str_eqb (a b : str) : bool :=
  match a, b with
  | [], [] => true
  | x :: a', y :: b' => (N.eqb x y && str_eqb a' b')%bool
  | _, _ => false
  end.

(** The value of a run of decimal digits, most significant first. *)
Fixpoint digits_value (acc : N) (ds : str) : N :=
  match ds with
  | [] => acc
  | d :: t => digits_value (10 * acc + (d - 48)) t
  end.

Fixpoint takeWhile (p : cu -> bool) (s : str) : str :=
  match s with
  | c :: t => if p c then c :: takeWhile p t else []
  | [] => []
  end.

(** [parseInt(s, 10)]: leading white space is skipped, a sign is read,
    then the longest run of decimal digits; [None] is NaN.  The result is
    the mathematical integer: it is the JavaScript number exactly while it
    stays below 2^53. *)
Definition parseInt (s : str) : option Z :=
  let s1 := dropWhile is_space s in
  let '(neg, s2) :=
    match s1 with
    | c :: t => if N.eqb c 45 then (true, t)
                else if N.eqb c 43 then (false, t) else (false, s1)
    | [] => (false, s1)
    end in
  match takeWhile is_digit s2 with
  | [] => None
  | ds => let n := Z.of_N (digits_value 0 ds) in
          Some (if neg then (- n)%Z else n)
  end.

End JS.

(* ===================================================================== *)
(** ** Regular expressions *)
(* ===================================================================== *)

(** The fragment of ECMAScript regular expressions the source uses:
    character classes, greedy [*] and [+] over a class, concatenation and
    alternation, matched by backtracking as ECMA-262 prescribes (leftmost
    start, alternatives left to right, greedy repetition giving back one
    unit at a time). *)
Module Regex.
Import JS.
Local Open Scope N_scope.

Inductive regex : Type :=
| Eps
| Chr (p : cu -> bool)
| Star (p : cu -> bool)
| Plus (p : cu -> bool)
| Cat (r1 r2 : regex)
| Alt (r1 r2 : regex).

Section Matcher.
Variable A : Type.

(** Greedy [p*] followed by continuation [k]. *)
Fixpoint star (p : cu -> bool) (s : str) (k : str -> option A) : option A :=
  match s with
  | c :: t =>
      if p c then
        match star p t k with
        | Some r => Some r
        | None => k s
        end
      else k s
  | [] => k s
  end.

(** [m r s k]: match [r] at the start of [s], then [k] on what is left. *)
Fixpoint m (r : regex) (s : str) (k : str -> option A) : option A :=
  match r with
  | Eps => k s
  | Chr p => match s with
             | c :: t => if p c then k t else None
             | [] => None
             end
  | Star p => star p s k
  | Plus p => match s with
              | c :: t => if p c then star p t k else None
              | [] => None
              end
  | Cat r1 r2 => m r1 s (fun s' => m r2 s' k)
  | Alt r1 r2 => match m r1 s k with
                 | Some x => Some x
                 | None => m r2 s k
                 end
  end.

End Matcher.
Arguments star {A} p s k.
Arguments m {A} r s k.

(** The text [r] matches at the start of [s], if it matches there. *)
Definition match_at (r : regex) (s : str) : option str :=
  match m r s (fun rest => Some rest) with
  | Some rest => Some (firstn (List.length s - List.length rest)%nat s)
  | None => None
  end.

(** [s.match(r)] for a pattern without flags: the leftmost match. *)
Fixpoint exec (r : regex) (s : str) : option str :=
  match match_at r s with
  | Some x => Some x
  | None => match s with
            | _ :: t => exec r t
            | [] => None
            end
  end.

(** [r.test(s)] for an unanchored pattern. *)
Definition test (r : regex) (s : str) : bool :=
  match exec r s with Some _ => true | None => false end.

(** [r.test(s)] for a pattern that starts with [^] (no [m] flag). *)
Definition test_anchored (r : regex) (s : str) : bool :=
  match match_at r s with Some _ => true | None => false end.

(** [s.split(r)], ECMA-262 22.1.3.23 with a regular expression separator
    and no limit: [cur] holds, reversed, the units since the last split
    point; [skip] counts units that belong to the separator just matched. *)
Fixpoint split_aux (r : regex) (s : str) (cur : str) (skip : nat) : list str :=
  match s with
  | [] => [rev cur]
  | c :: t =>
      match skip with
      | S n => split_aux r t cur n
      | O =>
          match match_at r s with
          | Some [] =>
              match cur with
              | [] => split_aux r t [c] 0%nat
              | _ => rev cur :: split_aux r t [c] 0%nat
              end
          | Some (_ :: sep) => rev cur :: split_aux r t [] (List.length sep)
          | None => split_aux r t (c :: cur) 0%nat
          end
      end
  end.

Definition split (r : regex) (s : str) : list str :=
  match s with
  | [] => match match_at r [] with Some _ => [] | None => [[]] end
  | _ => split_aux r s [] 0%nat
  end.

Definition exactly (c : cu) : cu -> bool := N.eqb c.

(** A letter under the [i] flag: code units below 128 fold only among
    themselves, so a lower-case ASCII letter matches itself and its
    upper-case form. *)
Definition ci (lower : cu) : cu -> bool :=
  fun c => (N.eqb c lower || N.eqb c (lower - 32))%bool.

(** A literal word, case-insensitively. *)
Fixpoint word_ci (w : str) : regex :=
  match w with
  | [] => Eps
  | c :: t => Cat (Chr (if cu_in 97 122 c then ci c else exactly c)) (word_ci t)
  end.

(** What is left after the last [c] of [s]. *)
Fixpoint after_last (c : cu) (s : str) : option str :=
  match s with
  | [] => None
  | x :: t =>
      match after_last c t with
      | Some r => Some r
      | None => if N.eqb c x then Some t else None
      end
  end.

End Regex.

(* ===================================================================== *)
(** ** JavaScript values, errors and [JSON.parse] *)
(* ===================================================================== *)

Module Value.
Import JS.
Local Open Scope N_scope.

(** A number as [JSON.parse] reads it: [(-1)^neg * mant * 10^exp10]. *)
Record number : Type := { neg : bool; mant : N; exp10 : Z }.

(** The data fragment of JavaScript values. *)
Inductive value : Type :=
| VUndefined
| VNull
| VBool (b : bool)
| VNum (n : number)
| VStr (s : str)
| VArr (l : list value)
| VObj (members : list (str * value)).

(** What the code throws, or what a rejected promise carries. *)
Inductive error : Type :=
| NetworkError (msg : str)
    (* fetch, response.text() or response.json() rejected on the network *)
| GeminiApiErrorText (status : N) (text : str)
    (* new Error(`Gemini API error: ${status} ${text}`) *)
| GeminiApiError (status : N)
    (* new Error(`Gemini API error: ${status}`) *)
| InvalidResponseFormat
    (* new Error('Invalid response format from Gemini API') *)
| UnknownGeminiError
    (* new Error('Unknown Gemini API error') *)
| SyntaxError
    (* JSON.parse / response.json() on text that is not JSON *)
| TypeError.
    (* a property read on undefined or null, a call of a non-function *)

(** A computation that returns or throws. *)
Inductive result (A : Type) : Type :=
| Returned (a : A)
| Thrown (e : error).
Arguments Returned {A} a.
Arguments Thrown {A} e.

(** The double nearest to [mant * 10^exp10] is zero: the value is at most
    2^-1075, half the least subnormal (the tie goes to the even zero). *)
Definition rounds_to_zero (n : number) : bool :=
  (N.eqb (mant n) 0
   || (Z.ltb (exp10 n) 0
       && Z.leb (Z.of_N (mant n) * 2 ^ 1075) (10 ^ (- exp10 n))))%bool.

(** ToBoolean *)
Definition truthy (v : value) : bool :=
  match v with
  | VUndefined | VNull => false
  | VBool b => b
  | VNum n => negb (rounds_to_zero n)
  | VStr s => match s with [] => false | _ => true end
  | VArr _ | VObj _ => true
  end.

(** [typeof v === 'string'] *)
Definition is_string (v : value) : bool :=
  match v with VStr _ => true | _ => false end.

(** An own property of an object built by [JSON.parse]: of two members
    with one key the later one stands. *)
Fixpoint lookup (k : str) (members : list (str * value)) : option value :=
  match members with
  | [] => None
  | (k', v) :: t =>
      match lookup k t with
      | Some x => Some x
      | None => if str_eqb k k' then Some v else None
      end
  end.

(** [v.name] for a name that no prototype defines (the source reads
    [candidates], [content], [parts] and [text]). *)
Definition get_prop (name : str) (v : value) : result value :=
  match v with
  | VUndefined | VNull => Thrown TypeError
  | VObj members =>
      Returned (match lookup name members with Some x => x | None => VUndefined end)
  | _ => Returned VUndefined
  end.

(** [v[0]] *)
Definition get_0 (v : value) : result value :=
  match v with
  | VUndefined | VNull => Thrown TypeError
  | VObj members =>
      Returned (match lookup (lit "0") members with Some x => x | None => VUndefined end)
  | VArr l => Returned (match l with x :: _ => x | [] => VUndefined end)
  | VStr s => Returned (match s with c :: _ => VStr [c] | [] => VUndefined end)
  | _ => Returned VUndefined
  end.

End Value.

(** [JSON.parse] after ECMA-404: a recursive-descent reader.  The three
    mutually recursive readers take fuel; [JSON_parse] supplies enough of it
    ([parse_fuel_enough] below). *)
Module JSON.
Import JS Value.
Local Open Scope N_scope.

Inductive parsed (A : Type) : Type :=
| POk (a : A) (rest : str)
| PSyntaxError
| POutOfFuel.
Arguments POk {A} a rest.
Arguments PSyntaxError {A}.
Arguments POutOfFuel {A}.

(** JSON white space: TAB, LF, CR, SP. *)
Definition is_ws (c : cu) : bool :=
  (N.eqb c 9 || N.eqb c 10 || N.eqb c 13 || N.eqb c 32)%bool.

Definition skip_ws (s : str) : str := dropWhile is_ws s.

Definition hex_value (c : cu) : option N :=
  if cu_in 48 57 c then Some (c - 48)
  else if cu_in 97 102 c then Some (c - 87)
  else if cu_in 65 70 c then Some (c - 55)
  else None.

Definition hex4 (a b c d : cu) : option cu :=
  match hex_value a, hex_value b, hex_value c, hex_value d with
  | Some x, Some y, Some z, Some w => Some (((x * 16 + y) * 16 + z) * 16 + w)
  | _, _, _, _ => None
  end.

Definition unescape (c : cu) : option cu :=
  if N.eqb c 34 then Some 34          (* an escaped quote *)
  else if N.eqb c 92 then Some 92     (* \\ *)
  else if N.eqb c 47 then Some 47     (* \/ *)
  else if N.eqb c 98 then Some 8      (* \b *)
  else if N.eqb c 102 then Some 12    (* \f *)
  else if N.eqb c 110 then Some 10    (* \n *)
  else if N.eqb c 114 then Some 13    (* \r *)
  else if N.eqb c 116 then Some 9     (* \t *)
  else None.

(** The rest of a string after its opening quote: the decoded units (in
    [acc], reversed) and what follows the closing quote. *)
Fixpoint string_chars (s : str) (acc : str) : option (str * str) :=
  match s with
  | [] => None
  | c :: t =>
      if N.eqb c 34 then Some (rev acc, t)
      else if N.ltb c 32 then None
      else if N.eqb c 92 then
        match t with
        | [] => None
        | e :: t1 =>
            if N.eqb e 117 then
              match t1 with
              | h1 :: h2 :: h3 :: h4 :: t2 =>
                  match hex4 h1 h2 h3 h4 with
                  | Some u => string_chars t2 (u :: acc)
                  | None => None
                  end
              | _ => None
              end
            else
              match unescape e with
              | Some u => string_chars t1 (u :: acc)
              | None => None
              end
        end
      else string_chars t (c :: acc)
  end.

(** An optional sign and a non-empty run of digits: an exponent. *)
Definition exponent (s : str) : option (Z * str) :=
  let '(minus, s1) :=
    match s with
    | c :: t => if N.eqb c 45 then (true, t)
                else if N.eqb c 43 then (false, t) else (false, s)
    | [] => (false, s)
    end in
  match takeWhile is_digit s1 with
  | [] => None
  | ds => let e := Z.of_N (digits_value 0 ds) in
          Some (if minus then (- e)%Z else e, dropWhile is_digit s1)
  end.

(** A JSON number: an optional minus; a single 0 or a run of digits that
    does not start with 0; optionally a point and digits; optionally e or
    E, a sign and digits. *)
Definition parse_number (s : str) : option (number * str) :=
  let '(minus, s1) :=
    match s with
    | c :: t => if N.eqb c 45 then (true, t) else (false, s)
    | [] => (false, s)
    end in
  let int_part :=
    match s1 with
    | c :: t => if N.eqb c 48 then Some ([c], t)
                else if cu_in 49 57 c
                then Some (takeWhile is_digit s1, dropWhile is_digit s1)
                else None
    | [] => None
    end in
  match int_part with
  | None => None
  | Some (ids, s2) =>
      let frac_part :=
        match s2 with
        | c :: t =>
            if N.eqb c 46 then
              match takeWhile is_digit t with
              | [] => None
              | fds => Some (fds, dropWhile is_digit t)
              end
            else Some ([], s2)
        | [] => Some ([], s2)
        end in
      match frac_part with
      | None => None
      | Some (fds, s3) =>
          let exp_part :=
            match s3 with
            | c :: t =>
                if (N.eqb c 101 || N.eqb c 69)%bool then exponent t
                else Some (0%Z, s3)
            | [] => Some (0%Z, s3)
            end in
          match exp_part with
          | None => None
          | Some (e, s4) =>
              Some ({| neg := minus;
                       mant := digits_value 0 (ids ++ fds);
                       exp10 := (e - Z.of_nat (List.length fds))%Z |}, s4)
          end
      end
  end.

Fixpoint strip_prefix (p s : str) : option str :=
  match p, s with
  | [], _ => Some s
  | a :: p', b :: s' => if N.eqb a b then strip_prefix p' s' else None
  | _ :: _, [] => None
  end.

Definition literal (word : str) (v : value) (s : str) : parsed value :=
  match strip_prefix word s with
  | Some rest => POk v rest
  | None => PSyntaxError
  end.

Fixpoint parse_value (fuel : nat) (s : str) : parsed value :=
  match fuel with
  | O => POutOfFuel
  | S f =>
      match skip_ws s with
      | [] => PSyntaxError
      | c :: t =>
          if N.eqb c 91 then                      (* [ *)
            match skip_ws t with
            | d :: t' => if N.eqb d 93 then POk (VArr []) t'
                         else parse_elements f t []
            | [] => PSyntaxError
            end
          else if N.eqb c 123 then                (* { *)
            match skip_ws t with
            | d :: t' => if N.eqb d 125 then POk (VObj []) t'
                         else parse_members f t []
            | [] => PSyntaxError
            end
          else if N.eqb c 34 then                 (* a string *)
            match string_chars t [] with
            | Some (x, rest) => POk (VStr x) rest
            | None => PSyntaxError
            end
          else if (N.eqb c 45 || is_digit c)%bool then
            match parse_number (c :: t) with
            | Some (n, rest) => POk (VNum n) rest
            | None => PSyntaxError
            end
          else if N.eqb c 110 then literal (lit "null") VNull (c :: t)
          else if N.eqb c 116 then literal (lit "true") (VBool true) (c :: t)
          else if N.eqb c 102 then literal (lit "false") (VBool false) (c :: t)
          else PSyntaxError
      end
  end

(** The elements of an array after [[] or [,]; [acc] holds those read. *)
with parse_elements (fuel : nat) (s : str) (acc : list value) : parsed value :=
  match fuel with
  | O => POutOfFuel
  | S f =>
      match parse_value f s with
      | POk v rest =>
          match skip_ws rest with
          | c :: t =>
              if N.eqb c 44 then parse_elements f t (v :: acc)
              else if N.eqb c 93 then POk (VArr (rev (v :: acc))) t
              else PSyntaxError
          | [] => PSyntaxError
          end
      | PSyntaxError => PSyntaxError
      | POutOfFuel => POutOfFuel
      end
  end

(** The members of an object after [{] or [,]. *)
with parse_members (fuel : nat) (s : str) (acc : list (str * value)) : parsed value :=
  match fuel with
  | O => POutOfFuel
  | S f =>
      match skip_ws s with
      | q :: t =>
          if N.eqb q 34 then
            match string_chars t [] with
            | Some (key, rest) =>
                match skip_ws rest with
                | colon :: rest1 =>
                    if N.eqb colon 58 then
                      match parse_value f rest1 with
                      | POk v rest2 =>
                          match skip_ws rest2 with
                          | c :: t2 =>
                              if N.eqb c 44 then parse_members f t2 ((key, v) :: acc)
                              else if N.eqb c 125
                              then POk (VObj (rev ((key, v) :: acc))) t2
                              else PSyntaxError
                          | [] => PSyntaxError
                          end
                      | PSyntaxError => PSyntaxError
                      | POutOfFuel => POutOfFuel
                      end
                    else PSyntaxError
                | [] => PSyntaxError
                end
            | None => PSyntaxError
            end
          else PSyntaxError
      | [] => PSyntaxError
      end
  end.

Definition parse_fuel (text : str) : nat := 2 * List.length text + 1.

(** [JSON.parse(text)]; [None] is the SyntaxError it throws. *)
Definition JSON_parse (text : str) : option value :=
  match parse_value (parse_fuel text) text with
  | POk v rest => match skip_ws rest with
                  | [] => Some v
                  | _ :: _ => None
                  end
  | PSyntaxError => None
  | POutOfFuel => None
  end.

(** With fuel above twice the length of the text (plus [need]), a reader
    does not run out, and what it leaves is shorter than what it was
    given. *)
Definition fuelled (need fuel : nat) (s : str) (out : parsed value) : Prop :=
  (2 * List.length s + need < fuel)%nat ->
  out <> POutOfFuel
  /\ forall v r, out = POk v r -> (List.length r < List.length s)%nat.

End JSON.

(* ===================================================================== *)
(** ** Ajv: the schema keywords the server compiles *)
(* ===================================================================== *)

(** [type], [items], [minItems], [maxItems], [properties] and [required]
    as JSON Schema defines them and Ajv checks them: [properties]
    constrains a member only when it is there, [required] asks that it
    be there. *)
Module Ajv.
Import JS Value.

Inductive schema : Type :=
| SString
    (* { type: 'string' } *)
| SArray (items : schema) (minItems maxItems : option nat)
    (* { type: 'array', items, minItems, maxItems } *)
| SObject (properties : list (str * schema)) (required : list str).
    (* { type: 'object', properties, required } *)

Definition at_least (bound : option nat) (n : nat) : bool :=
  match bound with Some b => Nat.leb b n | None => true end.

Definition at_most (bound : option nat) (n : nat) : bool :=
  match bound with Some b => Nat.leb n b | None => true end.

Definition has_member (members : list (str * value)) (k : str) : bool :=
  match lookup k members with
  | Some VUndefined | None => false
  | Some _ => true
  end.

Fixpoint validate (sch : schema) (v : value) : bool :=
  match sch with
  | SString => is_string v
  | SArray items lo hi =>
      match v with
      | VArr l =>
          (at_least lo (List.length l) && at_most hi (List.length l)
           && forallb (validate items) l)%bool
      | _ => false
      end
  | SObject properties required =>
      match v with
      | VObj members =>
          (forallb (has_member members) required
           && (fix props (ps : list (str * schema)) : bool :=
                 match ps with
                 | [] => true
                 | (k, s) :: ps' =>
                     ((match lookup k members with
                       | Some VUndefined | None => true
                       | Some x => validate s x
                       end) && props ps')%bool
                 end) properties)%bool
      | _ => false
      end
  end.

End Ajv.

(* ===================================================================== *)
(** ** The remote endpoint *)
(* ===================================================================== *)

Module Gemini.
Import JS Value JSON.
Local Open Scope N_scope.

(** What [fetch] resolved with: the status, [headers.get('retry-after')]
    ([None] is null) and the body ([None]: reading it fails). *)
Record response : Type :=
  { status : N; retry_after : option str; body : option str }.

Inductive fetched : Type :=
| Rejected (msg : str)      (* the promise of fetch rejects *)
| Resolved (r : response).

(** The endpoint: what the [n]-th call (from 0), carrying [prompt],
    produces. *)
Definition endpoint : Type := nat -> str -> fetched.

(** [response.ok] *)
Definition ok (r : response) : bool := cu_in 200 299 (status r).

Definition bind {A B : Type} (c : result A) (k : A -> result B) : result B :=
  match c with
  | Returned a => k a
  | Thrown e => Thrown e
  end.

Notation "x <- c ;; k" := (bind c (fun x => k))
  (at level 61, c at next level, right associativity).

(** [data.candidates && data.candidates[0] && data.candidates[0].content]
    as a condition. *)
Definition has_content (data : value) : result bool :=
  candidates <- get_prop (lit "candidates") data ;;
  if truthy candidates then
    first <- get_0 candidates ;;
    if truthy first then
      content <- get_prop (lit "content") first ;;
      Returned (truthy content)
    else Returned false
  else Returned false.

(** [data.candidates[0].content.parts[0].text] *)
Definition first_text (data : value) : result value :=
  candidates <- get_prop (lit "candidates") data ;;
  first <- get_0 candidates ;;
  content <- get_prop (lit "content") first ;;
  parts <- get_prop (lit "parts") content ;;
  part <- get_0 parts ;;
  get_prop (lit "text") part.

(** [[
      if (data.candidates && data.candidates[0] && data.candidates[0].content) {
        return data.candidates[0].content.parts[0].text;
      }
      throw new Error('Invalid response format from Gemini API');
    ]] *)
Definition extract_text (data : value) : result value :=
  found <- has_content data ;;
  if found then first_text data else Thrown InvalidResponseFormat.

(** [const data = await response.json();] and the check above. *)
Definition read_reply (r : response) : result value :=
  match body r with
  | None => Thrown (NetworkError (lit "body"))
  | Some text =>
      match JSON_parse text with
      | None => Thrown SyntaxError
      | Some data => extract_text data
      end
  end.

(** What a handler sends back. *)
Inductive http : Type :=
| Json200 (response : value) (warning : option str)
    (* res.json({ response }) or res.json({ response, warning }) *)
| Json400 (message : str)
    (* res.status(400).json({ error: message }) *)
| Json500 (label : option str) (cause : error).
    (* res.status(500).json({ error: cause.message }), or
       res.status(500).json({ error: label, details: cause.message }) *)

End Gemini.

(* ===================================================================== *)
(** ** The retrying client of the serverless handlers *)
(* ===================================================================== *)

(** [callGeminiAPI] with [maxRetries = 3]: the [while] loop, its [try]
    block and its [catch] block.  [console.warn] is left out; [sleep] is
    recorded, not waited for. *)
Module RetryClient.
Import JS Value JSON Gemini.

Definition maxRetries : nat := 3.

(** What the client has done so far: the number of [fetch] calls and the
    arguments of [sleep], oldest first ([None] is NaN). *)
Record state : Type := { calls : nat; sleeps : list (option Z) }.

Definition init : state := {| calls := 0; sleeps := [] |}.

Definition fetch_done (s : state) : state :=
  {| calls := S (calls s); sleeps := sleeps s |}.

Definition sleep (waitMs : option Z) (s : state) : state :=
  {| calls := calls s; sleeps := sleeps s ++ [waitMs] |}.

(** [Math.pow(2, attempt) * 1000] *)
Definition backoff (attempt : nat) : option Z :=
  Some (2 ^ Z.of_nat attempt * 1000)%Z.

(** [retryAfter ? parseInt(retryAfter, 10) * 1000 : Math.pow(2, attempt) * 1000] *)
Definition rate_limit_wait (retryAfter : option str) (attempt : nat) : option Z :=
  match retryAfter with
  | Some h =>
      if truthy (VStr h)
      then option_map (fun n => (n * 1000)%Z) (parseInt h)
      else backoff attempt
  | None => backoff attempt
  end.

(** How the [try] block of one iteration ends. *)
Inductive tried : Type :=
| TReturn (v : value)
    (* return data.candidates[0].content.parts[0].text *)
| TContinue (waitMs : option Z)
    (* the 429 branch: await sleep(waitMs); attempt++; continue *)
| TThrow (e : error).
    (* control passes to the catch block *)

Definition try_block (attempt : nat) (f : fetched) : tried :=
  match f with
  | Rejected msg => TThrow (NetworkError msg)
  | Resolved r =>
      if negb (ok r) then
        match body r with
        | None => TThrow (NetworkError (lit "body"))
        | Some text =>
            if (N.eqb (status r) 429 && Nat.ltb attempt maxRetries)%bool
            then TContinue (rate_limit_wait (retry_after r) attempt)
            else TThrow (GeminiApiErrorText (status r) text)
        end
      else
        match read_reply r with
        | Returned v => TReturn v
        | Thrown e => TThrow e
        end
  end.

(** The [while (attempt <= maxRetries)] loop and the [throw] after it;
    [None] when [fuel] iterations did not end it. *)
Fixpoint loop (fuel : nat) (env : endpoint) (prompt : str)
    (attempt : nat) (lastError : option error) (s : state)
    : option (result value * state) :=
  match fuel with
  | O => None
  | S fuel' =>
      if Nat.leb attempt maxRetries then
        let s1 := fetch_done s in
        match try_block attempt (env (calls s) prompt) with
        | TReturn v => Some (Returned v, s1)
        | TContinue waitMs =>
            loop fuel' env prompt (S attempt) lastError (sleep waitMs s1)
        | TThrow err =>
            if Nat.ltb attempt maxRetries
            then loop fuel' env prompt (S attempt) (Some err)
                      (sleep (backoff attempt) s1)
            else Some (Thrown err, s1)
        end
      else
        Some (Thrown (match lastError with
                      | Some e => e
                      | None => UnknownGeminiError
                      end), s)
  end.

Definition callGeminiAPI (env : endpoint) (prompt : str)
    : option (result value * state) :=
  loop (maxRetries + 2) env prompt 0 None init.

(** The runs of the loop from attempt [k] on, as a relation: the waits
    it sleeps, the number of the last call plus one, and how it ends. *)
Inductive run (env : endpoint) (prompt : str)
  : nat -> list (option Z) -> nat -> result value -> Prop :=
| run_return : forall k v,
    k <= maxRetries ->
    try_block k (env k prompt) = TReturn v ->
    run env prompt k [] (S k) (Returned v)
| run_give_up : forall e,
    try_block maxRetries (env maxRetries prompt) = TThrow e ->
    run env prompt maxRetries [] (S maxRetries) (Thrown e)
| run_rate_limited : forall k waitMs ws n r,
    k < maxRetries ->
    try_block k (env k prompt) = TContinue waitMs ->
    run env prompt (S k) ws n r ->
    run env prompt k (waitMs :: ws) n r
| run_retry : forall k e ws n r,
    k < maxRetries ->
    try_block k (env k prompt) = TThrow e ->
    run env prompt (S k) ws n r ->
    run env prompt k (backoff k :: ws) n r.

(** The POST branch of the [/api/ask] handler built on this client. *)
Definition ask (env : endpoint) (prompt : str) : option (http * state) :=
  match prompt with
  | [] => Some (Json400 (lit "Prompt is required"), init)
  | _ =>
      match callGeminiAPI env prompt with
      | Some (Returned response, s) => Some (Json200 response None, s)
      | Some (Thrown e, s) => Some (Json500 None e, s)
      | None => None
      end
  end.

(** How the loop treats a call that ends in its [catch] block with [e]:
    while retries remain it sleeps [2^k] seconds and calls again; on the
    last attempt it throws [e]. *)
Definition handled_as_transient (r : result value) (s : state) (k : nat) (e : error)
    : Prop :=
  (k < maxRetries ->
     S k < calls s /\ nth_error (sleeps s) k = Some (backoff k))
  /\ (k = maxRetries -> r = Thrown e /\ calls s = maxRetries + 1).

End RetryClient.

(* ===================================================================== *)
(** ** The express server: validation and repair *)
(* ===================================================================== *)

Module Server.
Import JS Value JSON Gemini Regex Ajv.
Local Open Scope N_scope.

(** What a request has done so far: the number of model calls, the
    prompts sent (oldest first) and the lines appended to
    [logs/bad_responses.log]. *)
Record entry : Type :=
  { endpoint_name : str; logged_prompt : str; logged_response : str }.

Record world : Type :=
  { calls : nat; prompts : list str; bad_responses : list entry }.

Definition start : world := {| calls := 0; prompts := []; bad_responses := [] |}.

Definition sent (prompt : str) (w : world) : world :=
  {| calls := S (calls w);
     prompts := prompts w ++ [prompt];
     bad_responses := bad_responses w |}.

(** [callGeminiAPI]: one [fetch], no retry; the [catch] logs and rethrows. *)
Definition callGeminiAPI (f : fetched) : result value :=
  match f with
  | Rejected msg => Thrown (NetworkError msg)
  | Resolved r =>
      if negb (ok r) then
        match body r with
        | None => Thrown (NetworkError (lit "body"))
        | Some _ => Thrown (GeminiApiError (status r))
        end
      else read_reply r
  end.

(** [/\[[\s\S]*\]/] *)
Definition json_array_re : regex :=
  Cat (Chr (exactly 91))
      (Cat (Star (fun c => (is_space c || negb (is_space c))%bool))
           (Chr (exactly 93))).

(** [extractJsonArray]; [VNull] is the [null] it returns. *)
Definition extractJsonArray (text : value) : value :=
  match text with
  | VStr s =>
      if negb (truthy text) then VNull
      else
        match exec json_array_re s with
        | None => VNull
        | Some matched =>
            match JSON_parse matched with
            | Some parsed => parsed
            | None => VNull
            end
        end
  | _ => VNull
  end.

(** [/\r?\n/] *)
Definition newline_re : regex :=
  Cat (Alt (Chr (exactly 13)) Eps) (Chr (exactly 10)).

(** [/^\d+\.[\s\-]/] (the [^] is in [test_anchored]) *)
Definition numbered_re : regex :=
  Cat (Plus is_digit)
      (Cat (Chr (exactly 46)) (Chr (fun c => (is_space c || N.eqb c 45)%bool))).

(** [/^\d+\.\s+/] *)
Definition numbered_spaces_re : regex :=
  Cat (Plus is_digit) (Cat (Chr (exactly 46)) (Plus is_space)).

(** [text.split(/\r?\n/).map(l => l.trim()).filter(Boolean)] *)
Definition nonempty (l : str) : bool := truthy (VStr l).

Definition trimmed_lines (s : str) : list str :=
  filter nonempty (map trim (split newline_re s)).

Definition is_numbered (l : str) : bool :=
  (test_anchored numbered_re l || test_anchored numbered_spaces_re l)%bool.

(** [isNumberedMarkdownList] *)
Definition isNumberedMarkdownList (text : value) : bool :=
  match text with
  | VStr s =>
      if negb (truthy text) then false
      else
        let lines := trimmed_lines s in
        if Nat.eqb (List.length lines) 0 then false
        else
          let numbered := filter is_numbered lines in
          Nat.leb (Nat.max 1 (List.length lines / 2)) (List.length numbered)
  | _ => false
  end.

(** [options.expect] *)
Inductive expect : Type :=
| ExpectAny
| ExpectJson
| ExpectMarkdownList
| ExpectOther.

Definition strengthen_json : str :=
  LF ++ LF ++
  lit "IMPORTANT: Return ONLY the raw JSON array exactly as shown in " ++
  lit "the example. Do not include any surrounding backticks, commentary, " ++
  lit "or numbered lists. If you cannot, reply with an empty array " ++
  lit "[].".

Definition strengthen_markdownList : str :=
  LF ++ LF ++
  lit "IMPORTANT: When providing step-by-step instructions, return " ++
  lit "a numbered Markdown list (example:" ++ LF ++ lit "1. Step one" ++
  LF ++
  lit "2. Step two). Do not add extra commentary or code fences. Return " ++
  lit "only the list.".

Definition strengthen_generic : str :=
  LF ++ LF ++ lit "Please respond concisely and avoid extra commentary.".

(** The corrective instruction appended before the second try. *)
Definition strengthening (opt : expect) : str :=
  match opt with
  | ExpectJson => strengthen_json
  | ExpectMarkdownList => strengthen_markdownList
  | _ => strengthen_generic
  end.

Definition maxTries : nat := 2.

(** Whether the [try] block returns [text] for this expectation. *)
Definition accepted (opt : expect) (text : value) : bool :=
  match opt with
  | ExpectAny => true
  | ExpectJson => truthy (extractJsonArray text)
  | ExpectMarkdownList => isNumberedMarkdownList text
  | ExpectOther => false
  end.

(** The [for (let attempt = 1; attempt <= maxTries; attempt++)] loop of
    [callGeminiWithRetry] and the [return lastText] after it; [None] when
    [fuel] iterations did not end it. *)
Fixpoint tries (fuel : nat) (env : endpoint) (opt : expect)
    (attempt : nat) (prompt : str) (lastText : value) (w : world)
    : option (value * world) :=
  match fuel with
  | O => None
  | S fuel' =>
      if Nat.leb attempt maxTries then
        let w1 := sent prompt w in
        match callGeminiAPI (env (calls w) prompt) with
        | Returned text =>
            if accepted opt text then Some (text, w1)
            else
              let prompt' :=
                if Nat.ltb attempt maxTries
                then prompt ++ strengthening opt
                else prompt in
              tries fuel' env opt (S attempt) prompt' text w1
        | Thrown _ =>
            if Nat.leb maxTries attempt then Some (VNull, w1)
            else tries fuel' env opt (S attempt) prompt VNull w1
        end
      else Some (lastText, w)
  end.

Definition callGeminiWithRetry (env : endpoint) (prompt : str) (opt : expect)
    (w : world) : option (value * world) :=
  tries (maxTries + 1) env opt 1 prompt VNull w.

(** The two iterations of [callGeminiWithRetry] written out
    ([callGeminiWithRetry_eq] below). *)
Definition two_tries (env : endpoint) (prompt : str) (opt : expect) (w : world) : value * world :=
  let w1 := sent prompt w in
  match callGeminiAPI (env (calls w) prompt) with
  | Returned t1 =>
      if accepted opt t1 then (t1, w1)
      else
        let prompt2 := prompt ++ strengthening opt in
        let w2 := sent prompt2 w1 in
        match callGeminiAPI (env (S (calls w)) prompt2) with
        | Returned t2 => (t2, w2)
        | Thrown _ => (VNull, w2)
        end
  | Thrown _ =>
      let w2 := sent prompt w1 in
      match callGeminiAPI (env (S (calls w)) prompt) with
      | Returned t2 => (t2, w2)
      | Thrown _ => (VNull, w2)
      end
  end.

(** The schemas compiled by [ajv.compile]. *)
Definition flashcardSchema : schema :=
  SArray (SObject [(lit "question", SString); (lit "answer", SString)]
                  [lit "question"; lit "answer"])
         None None.

Definition quizSchema : schema :=
  SArray (SObject [(lit "question", SString);
                   (lit "options", SArray SString (Some 4%nat) (Some 4%nat));
                   (lit "correctAnswer", SString);
                   (lit "explanation", SString)]
                  [lit "question"; lit "options"; lit "correctAnswer";
                   lit "explanation"])
         None None.

Definition companySchema : schema := flashcardSchema.

Definition validateFlashcards : value -> bool := validate flashcardSchema.
Definition validateQuiz : value -> bool := validate quizSchema.
Definition validateCompany : value -> bool := validate companySchema.

(** [x || ''] *)
Definition or_empty (x : value) : value := if truthy x then x else VStr [].

(** [logBadResponse]: [(response || '').substring] is not a function
    when [response] is truthy and not a string; the append to the log
    file is taken to succeed. *)
Definition logBadResponse (endpoint prompt : str) (response : value) (w : world)
    : result world :=
  match or_empty response with
  | VStr r =>
      Returned {| calls := calls w;
                  prompts := prompts w;
                  bad_responses :=
                    bad_responses w ++
                    [{| endpoint_name := endpoint;
                        logged_prompt := substring0 500 prompt;
                        logged_response := substring0 2000 r |}] |}
  | _ => Thrown TypeError
  end.

Definition flashcards_prompt (topic : str) : str :=
  lit "Generate 6 educational flashcards for the topic: " ++ dquote ++
  topic ++ dquote ++ lit ". " ++ LF ++ LF ++
  lit "Format your response as a valid JSON array of objects, where " ++
  lit "each object has " ++ dquote ++ lit "question" ++ dquote ++
  lit " and " ++ dquote ++ lit "answer" ++ dquote ++
  lit " properties. Make sure the questions are clear and the answers " ++
  lit "are informative but concise." ++ LF ++ LF ++
  lit "IMPORTANT: Return ONLY the JSON array, with no surrounding backticks, " ++
  lit "commentary, or numbered lists " ++ [226; 8364; 8221] ++
  lit " just the raw JSON array." ++ LF ++ LF ++ lit "Example format:" ++
  LF ++ lit "[" ++ LF ++ lit "  {" ++ LF ++ lit "    " ++ dquote ++
  lit "question" ++ dquote ++ lit ": " ++ dquote ++
  lit "What is the main concept?" ++ dquote ++ lit "," ++ LF ++
  lit "    " ++ dquote ++ lit "answer" ++ dquote ++ lit ": " ++ dquote ++
  lit "The main concept is..." ++ dquote ++ LF ++ lit "  }" ++ LF ++
  lit "]" ++ LF ++ LF ++ lit "Topic: " ++ topic.

Definition quiz_prompt (topic : str) : str :=
  lit "Generate 5 multiple choice quiz questions for the topic: " ++
  dquote ++ topic ++ dquote ++ lit ". " ++ LF ++ LF ++
  lit "Format your response as a valid JSON array of objects, where " ++
  lit "each object has:" ++ LF ++ lit "- " ++ dquote ++ lit "question" ++
  dquote ++ lit ": the quiz question" ++ LF ++ lit "- " ++ dquote ++
  lit "options" ++ dquote ++ lit ": array of 4 possible answers" ++ LF ++
  lit "- " ++ dquote ++ lit "correctAnswer" ++ dquote ++
  lit ": the correct answer (must match one of the options exactly)" ++
  LF ++ lit "- " ++ dquote ++ lit "explanation" ++ dquote ++
  lit ": brief explanation of why the answer is correct" ++ LF ++ LF ++
  lit "Return ONLY the JSON array, no additional text or formatting." ++
  LF ++ LF ++ lit "Example format:" ++ LF ++ lit "[" ++ LF ++ lit "  {" ++
  LF ++ lit "    " ++ dquote ++ lit "question" ++ dquote ++ lit ": " ++
  dquote ++ lit "What is...?" ++ dquote ++ lit "," ++ LF ++ lit "    " ++
  dquote ++ lit "options" ++ dquote ++ lit ": [" ++ dquote ++
  lit "Option A" ++ dquote ++ lit ", " ++ dquote ++ lit "Option B" ++
  dquote ++ lit ", " ++ dquote ++ lit "Option C" ++ dquote ++ lit ", " ++
  dquote ++ lit "Option D" ++ dquote ++ lit "]," ++ LF ++ lit "    " ++
  dquote ++ lit "correctAnswer" ++ dquote ++ lit ": " ++ dquote ++
  lit "Option B" ++ dquote ++ lit "," ++ LF ++ lit "    " ++ dquote ++
  lit "explanation" ++ dquote ++ lit ": " ++ dquote ++
  lit "Option B is correct because..." ++ dquote ++ LF ++ lit "  }" ++
  LF ++ lit "]" ++ LF ++ LF ++ lit "Topic: " ++ topic.

Definition quiz_suffix : str :=
  LF ++ LF ++
  lit "IMPORTANT: Return ONLY the JSON array, with no extra text, numbered " ++
  lit "lists, or markdown. Use the exact keys shown in the example.".

Definition stricter : str :=
  LF ++ LF ++
  lit "IMPORTANT: Return ONLY the raw JSON array exactly as shown. " ++
  lit "No commentary.".

Definition markdown_suffix : str :=
  LF ++ LF ++
  lit "When you provide step-by-step instructions, return them as a " ++
  lit "numbered Markdown list (" ++ LF ++ lit "1. Step one" ++ LF ++
  lit "2. Step two" ++ LF ++
  lit ") with a blank line between items. Do not include extra commentary.".

Definition warning_text : str :=
  lit "AI output could not be validated; returned raw text.".

(** [/step|steps|step-by-step|stepwise|procedure/i] *)
Definition steps_re : regex :=
  Alt (word_ci (lit "step"))
      (Alt (word_ci (lit "steps"))
           (Alt (word_ci (lit "step-by-step"))
                (Alt (word_ci (lit "stepwise")) (word_ci (lit "procedure"))))).

(** [app.post('/api/ask', ...)] *)
Definition ask (env : endpoint) (prompt : str) (w : world) : option (http * world) :=
  match prompt with
  | [] => Some (Json400 (lit "Prompt is required"), w)
  | _ =>
      let expectMarkdownList := test steps_re prompt in
      let finalPrompt :=
        if expectMarkdownList then prompt ++ markdown_suffix else prompt in
      match callGeminiWithRetry env finalPrompt
              (if expectMarkdownList then ExpectMarkdownList else ExpectAny) w with
      | Some (response, w1) => Some (Json200 response None, w1)
      | None => None
      end
  end.

(** What the flashcards and the quiz routes do alike once the prompt is
    built: [name] is the route, [failure] the [error] of its 500 reply,
    [valid] its compiled validator. *)
Definition json_route (name failure : str) (valid : value -> bool)
    (env : endpoint) (prompt : str) (w : world) : option (http * world) :=
  match callGeminiWithRetry env prompt ExpectJson w with
  | None => None
  | Some (response, w1) =>
      let parsed := extractJsonArray (or_empty response) in
      if (negb (truthy parsed) || negb (valid parsed))%bool then
        match logBadResponse name prompt response w1 with
        | Thrown e => Some (Json500 (Some failure) e, w1)
        | Returned w2 =>
            match callGeminiWithRetry env (prompt ++ stricter) ExpectJson w2 with
            | None => None
            | Some (retry, w3) =>
                let parsed2 := extractJsonArray (or_empty retry) in
                if (truthy parsed2 && valid parsed2)%bool
                then Some (Json200 retry None, w3)
                else Some (Json200 response (Some warning_text), w3)
            end
        end
      else Some (Json200 response None, w1)
  end.

(** What a JSON route asks of a text before it sends it unflagged:
    [parsed && validate(parsed)] for [parsed = extractJsonArray(text || '')]. *)
Definition checked (valid : value -> bool) (text : value) : bool :=
  (truthy (extractJsonArray (or_empty text))
   && valid (extractJsonArray (or_empty text)))%bool.

(** [app.post('/api/flashcards', ...)] *)
Definition flashcards (env : endpoint) (topic : str) (w : world)
    : option (http * world) :=
  match topic with
  | [] => Some (Json400 (lit "Topic is required"), w)
  | _ =>
      json_route (lit "/api/flashcards") (lit "Failed to generate flashcards")
        validateFlashcards env (flashcards_prompt topic) w
  end.

(** [app.post('/api/quiz', ...)] *)
Definition quiz (env : endpoint) (topic : str) (w : world)
    : option (http * world) :=
  match topic with
  | [] => Some (Json400 (lit "Topic is required"), w)
  | _ =>
      json_route (lit "/api/quiz") (lit "Failed to generate quiz")
        validateQuiz env (quiz_prompt topic ++ quiz_suffix) w
  end.

End Server.


(* ===================================================================== *)
(** ** The shapes in the words of the specification *)
(* ===================================================================== *)

Module Contract.
Import JS Value Ajv.
Local Open Scope N_scope.

(** The reply contract in the words of the specification: the object
    holds a candidate whose content holds a text part. *)
Definition is_text_part (part : value) : bool :=
  match part with
  | VObj members =>
      match lookup (lit "text") members with
      | Some (VStr _) => true
      | _ => false
      end
  | _ => false
  end.

Definition holds_text_part (candidate : value) : bool :=
  match candidate with
  | VObj members =>
      match lookup (lit "content") members with
      | Some (VObj content) =>
          match lookup (lit "parts") content with
          | Some (VArr parts) => existsb is_text_part parts
          | _ => false
          end
      | _ => false
      end
  | _ => false
  end.

Definition meets_contract (data : value) : bool :=
  match data with
  | VObj members =>
      match lookup (lit "candidates") members with
      | Some (VArr candidates) => existsb holds_text_part candidates
      | _ => false
      end
  | _ => false
  end.

(** A line starts with an integer immediately followed by a dot and a
    unit of class [cls]. *)
Definition starts_with_number (cls : cu -> bool) (l : str) : Prop :=
  exists ds c rest,
    ds <> [] /\ Forall (fun d => is_digit d = true) ds
    /\ cls c = true /\ l = ds ++ 46 :: c :: rest.

(** White space or a dash. *)
Definition space_or_dash (c : cu) : bool := (is_space c || N.eqb c 45)%bool.

(** The invariant of a quiz item in the words of the specification, part
    by part: the four fields are there; [options] has exactly four
    entries; [correctAnswer] equals one of them. *)
Definition carries_fields (item : value) : bool :=
  match item with
  | VObj members =>
      forallb (has_member members)
        [lit "question"; lit "options"; lit "correctAnswer"; lit "explanation"]
  | _ => false
  end.

Definition four_options (item : value) : bool :=
  match item with
  | VObj members =>
      match lookup (lit "options") members with
      | Some (VArr opts) => Nat.eqb (List.length opts) 4
      | _ => false
      end
  | _ => false
  end.

Definition same_string (a b : value) : bool :=
  match a, b with
  | VStr x, VStr y => str_eqb x y
  | _, _ => false
  end.

Definition answer_among_options (item : value) : bool :=
  match item with
  | VObj members =>
      match lookup (lit "options") members, lookup (lit "correctAnswer") members with
      | Some (VArr opts), Some answer => existsb (same_string answer) opts
      | _, _ => false
      end
  | _ => false
  end.

(** What the schema adds: the types of the fields. *)
Definition string_fields (item : value) : bool :=
  match item with
  | VObj members =>
      match lookup (lit "question") members,
            lookup (lit "options") members,
            lookup (lit "correctAnswer") members,
            lookup (lit "explanation") members with
      | Some (VStr _), Some (VArr opts), Some (VStr _), Some (VStr _) =>
          forallb is_string opts
      | _, _, _, _ => false
      end
  | _ => false
  end.

(** The [retry-after] header as [parseInt] reads it: white space, a
    sign, digits, and a rest that is not looked at. *)
Definition is_sign (sign : str) : Prop := sign = [] \/ sign = [43] \/ sign = [45].

Definition signed (sign : str) (n : Z) : Z :=
  match sign with
  | c :: _ => if N.eqb c 45 then (- n)%Z else n
  | [] => n
  end.

(** The text does not start with a digit. *)
Definition no_digit_first (rest : str) : Prop :=
  match rest with c :: _ => is_digit c = false | [] => True end.

(** The text starts with nothing a number starts with: no white space,
    no sign, no digit. *)
Definition no_number_first (rest : str) : Prop :=
  match rest with
  | c :: _ => is_space c = false /\ is_digit c = false /\ c <> 43 /\ c <> 45
  | [] => True
  end.

(** The lines of a text in the words of the specification.  [ls] are the
    lines of [s]: the pieces between its line feeds. *)
Fixpoint join_lines (ls : list str) : str :=
  match ls with
  | [] => []
  | l :: rest =>
      match rest with
      | [] => l
      | _ :: _ => l ++ 10 :: join_lines rest
      end
  end.

Definition lines_of (s : str) (ls : list str) : Prop :=
  ls <> [] /\ join_lines ls = s /\ Forall (fun l => ~ In 10 l) ls.

(** The text has no white space at either end. *)
Definition no_space_at_ends (t : str) : Prop :=
  match t with c :: _ => is_space c = false | [] => True end
  /\ match rev t with c :: _ => is_space c = false | [] => True end.

(** [t] is [l] trimmed: [l] without the white space at its ends. *)
Definition stripped (l t : str) : Prop :=
  exists a b,
    l = a ++ t ++ b
    /\ Forall (fun c => is_space c = true) a
    /\ Forall (fun c => is_space c = true) b
    /\ no_space_at_ends t.

Definition not_empty (t : str) : bool :=
  match t with [] => false | _ :: _ => true end.

(** [ts] are the non-empty trimmed lines of [s]. *)
Definition counted_lines (s : str) (ts : list str) : Prop :=
  exists ls trimmed,
    lines_of s ls /\ Forall2 stripped ls trimmed /\ ts = filter not_empty trimmed.

End Contract.

(* ===================================================================== *)
(** ** Scripted endpoints and sample replies *)
(* ===================================================================== *)

Module Fixture.
Import JS Value JSON Gemini.
Local Open Scope N_scope.

(** A JSON string literal for [s]: quotes, backslashes and control
    characters escaped. *)
Fixpoint json_escape (s : str) : str :=
  match s with
  | [] => []
  | c :: t =>
      (if N.eqb c 34 then [92; 34]
       else if N.eqb c 92 then [92; 92]
       else if N.eqb c 10 then [92; 110]
       else if N.eqb c 13 then [92; 114]
       else if N.eqb c 9 then [92; 116]
       else [c]) ++ json_escape t
  end.

(** The body of a 200 reply whose first candidate says [text]. *)
Definition body_with_text (text : str) : str :=
  lit "{" ++ quoted "candidates" ++ lit ":[{" ++ quoted "content" ++ lit ":{"
  ++ quoted "parts" ++ lit ":[{" ++ quoted "text" ++ lit ":"
  ++ dquote ++ json_escape text ++ dquote ++ lit "}]}}]}".

Definition says (text : str) : fetched :=
  Resolved {| status := 200; retry_after := None; body := Some (body_with_text text) |}.

Definition fails_with (code : N) (retryAfter : option str) : fetched :=
  Resolved {| status := code; retry_after := retryAfter; body := Some (lit "error") |}.

(** The endpoint that answers the [n]-th call with the [n]-th element of
    [script], whatever the prompt, and rejects once the script is over. *)
Definition scripted (script : list fetched) : endpoint :=
  fun n _ => nth n script (Rejected (lit "fetch failed")).

(** Four replies with status 500: four calls, then the fourth error. *)
Definition always_500 : endpoint :=
  scripted [fails_with 500 None; fails_with 500 None;
            fails_with 500 None; fails_with 500 None].

(** A 429 that asks for seven seconds, then an answer. *)
Definition limited_once : endpoint :=
  scripted [fails_with 429 (Some (lit "7")); says (lit "hello")].

(** A 2xx reply whose first part is an empty object. *)
Definition part_without_text : str :=
  lit "{" ++ quoted "candidates" ++ lit ":[{" ++ quoted "content" ++ lit ":{"
  ++ quoted "parts" ++ lit ":[{}]}}]}".

Definition no_text_reply : response :=
  {| status := 200; retry_after := None; body := Some part_without_text |}.

(** A reply without candidates, then a network failure, then an answer. *)
Definition empty_object_reply : response :=
  {| status := 200; retry_after := None; body := Some (lit "{}") |}.

Definition malformed_then_ok : endpoint :=
  scripted [Resolved empty_object_reply; Rejected (lit "reset"); says (lit "hello")].

(** Four replies of prose, none holding a JSON array. *)
Definition four_prose : list fetched :=
  [says (lit "a"); says (lit "b"); says (lit "c"); says (lit "d")].

(** A question about steps, answered twice without a numbered line. *)
Definition steps_question : str := lit "Steps to install git".

Definition two_prose : list fetched := [says (lit "a"); says (lit "b")].

(** The reply of C5: a flashcard array between two pieces of prose. *)
Definition one_card : str :=
  lit "[{" ++ quoted "question" ++ lit ":" ++ quoted "Q" ++ lit ","
  ++ quoted "answer" ++ lit ":" ++ quoted "A" ++ lit "}]".

Definition chatty_reply : str := lit "Sure! " ++ one_card ++ lit " thanks".

Definition one_card_parsed : value :=
  VArr [VObj [(lit "question", VStr (lit "Q")); (lit "answer", VStr (lit "A"))]].

(** A quiz whose answer is none of its options. *)
Definition mismatched_quiz_text : str :=
  lit "[{" ++ quoted "question" ++ lit ":" ++ quoted "Q" ++ lit ","
  ++ quoted "options" ++ lit ":[" ++ quoted "A" ++ lit "," ++ quoted "B"
  ++ lit "," ++ quoted "C" ++ lit "," ++ quoted "D" ++ lit "],"
  ++ quoted "correctAnswer" ++ lit ":" ++ quoted "E" ++ lit ","
  ++ quoted "explanation" ++ lit ":" ++ quoted "X" ++ lit "}]".

Definition mismatched_quiz : list value :=
  [VObj [(lit "question", VStr (lit "Q"));
         (lit "options",
          VArr [VStr (lit "A"); VStr (lit "B"); VStr (lit "C"); VStr (lit "D")]);
         (lit "correctAnswer", VStr (lit "E"));
         (lit "explanation", VStr (lit "X"))]].

Definition matched_quiz : list value :=
  [VObj [(lit "question", VStr (lit "Q"));
         (lit "options",
          VArr [VStr (lit "A"); VStr (lit "B"); VStr (lit "C"); VStr (lit "D")]);
         (lit "correctAnswer", VStr (lit "B"));
         (lit "explanation", VStr (lit "X"))]].

(** The reply of C7. *)
Definition three_steps : str :=
  lit "1. Do X" ++ LF ++ lit "2. Do Y" ++ LF ++ lit "3. Do Z".

End Fixture.

(* ===================================================================== *)
(** ** The serverless handlers built on the retrying client *)
(* ===================================================================== *)

(** The two [export default async (req, res)] handlers that sit beside
    the retrying [callGeminiAPI]: the chat handler, and the flashcards
    handler with its own copy of [extractJsonArray] (the same text as the
    server's, so [Server.extractJsonArray] stands for it).  The field read
    from [req.body] is taken to be a string; the CORS headers are left
    out. *)
Module Serverless.
Import JS Value JSON Gemini RetryClient.

(** [req.method] *)
Inductive method : Type :=
| OPTIONS
| POST
| OtherMethod.

(** What a handler does with [res]. *)
Inductive served : Type :=
| Ended200
    (* res.status(200).end() *)
| Json (h : http)
| KeyNotConfigured
    (* res.status(500).json({ error: 'GEMINI_API_KEY is not configured on the server' }) *)
| MethodNotAllowed.
    (* res.status(405).json({ error: 'Method Not Allowed' }) *)

(** The chat handler. *)
Definition ask_handler (env : endpoint) (meth : method) (prompt : str)
    : option (served * state) :=
  match meth with
  | OPTIONS => Some (Ended200, init)
  | POST =>
      match ask env prompt with
      | Some (h, s) => Some (Json h, s)
      | None => None
      end
  | OtherMethod => Some (MethodNotAllowed, init)
  end.

Definition flashcards_prompt (topic : str) : str :=
  lit "Generate 6 educational flashcards for the topic: " ++ dquote ++
  topic ++ dquote ++ lit "." ++ LF ++ LF ++
  lit "Format your response as a valid JSON array of objects, where " ++
  lit "each object has " ++ dquote ++ lit "question" ++ dquote ++
  lit " and " ++ dquote ++ lit "answer" ++ dquote ++
  lit " properties. Make sure the questions are clear and the answers " ++
  lit "are informative but concise." ++ LF ++ LF ++
  lit "IMPORTANT: Return ONLY the JSON array, with no surrounding backticks, " ++
  lit "commentary, or numbered lists " ++ [226%N; 8364%N; 8221%N] ++
  lit " just the raw JSON array.".

(** The flashcards handler; [key] is [!!GEMINI_API_KEY]. *)
Definition flashcards_handler (key : bool) (env : endpoint) (meth : method)
    (topic : str) : option (served * state) :=
  match meth with
  | OPTIONS => Some (Ended200, init)
  | _ =>
      if negb key then Some (KeyNotConfigured, init)
      else
        match meth with
        | POST =>
            match topic with
            | [] => Some (Json (Json400 (lit "Topic is required")), init)
            | _ =>
                match callGeminiAPI env (flashcards_prompt topic) with
                | None => None
                | Some (Thrown e, s) => Some (Json (Json500 None e), s)
                | Some (Returned response, s) =>
                    let parsed :=
                      Server.extractJsonArray (Server.or_empty response) in
                    if negb (truthy parsed)
                    then Some (Json (Json200 response (Some Server.warning_text)), s)
                    else Some (Json (Json200 response None), s)
                end
            end
        | _ => Some (MethodNotAllowed, init)
        end
  end.

End Serverless.

(* ===================================================================== *)
(** ** The browser client *)
(* ===================================================================== *)

From Stdlib Require Import DecimalNat.

(** [services/api.ts]: [callGemini], which posts the prompt to the proxy
    route [/api/ask], [cleanNumberedSteps], [askAI] and
    [generateFlashcards].  [console.error] is left out. *)
Module Client.
Import JS Value JSON Gemini Regex.
Local Open Scope N_scope.

(** What [fetch] of the proxy gives: a rejection, or a reply with its
    status and what [response.json()] reads from its body ([None]: the
    body is not JSON). *)
Inductive proxied : Type :=
| Unreached
| Reply (status : N) (data : option value).

(** What reaches the client when the proxy sends [h]: for a 200 reply
    the object the handler passed to [res.json]; for an error reply only
    the status matters to the client. *)
Inductive delivers : http -> proxied -> Prop :=
| delivers_200 : forall response warning,
    delivers (Json200 response warning)
      (Reply 200
         (Some (VObj ((lit "response", response)
                      :: match warning with
                         | Some w => [(lit "warning", VStr w)]
                         | None => []
                         end))))
| delivers_400 : forall message data,
    delivers (Json400 message) (Reply 400 data)
| delivers_500 : forall label cause data,
    delivers (Json500 label cause) (Reply 500 data).

Definition sorry : str := lit "Sorry, I could not generate a response.".

(** [callGemini]; [None] is the one error it throws,
    [new Error('Failed to get AI response')]. *)
Definition callGemini (p : proxied) : option value :=
  match p with
  | Unreached => None
  | Reply status data =>
      if negb (cu_in 200 299 status) then None
      else
        match data with
        | None => None
        | Some d =>
            match get_prop (lit "response") d with
            | Returned r => Some (if truthy r then r else VStr sorry)
            | Thrown _ => None
            end
        end
  end.

(** [s.replace(r, replacement)] for a pattern [r] with the [g] flag,
    ECMA-262 22.2.6.11: matches are looked for from left to right, each
    search starting where the last match ended; after an empty match the
    search moves on by one unit.  [find s] is the match of [r] at the
    start of [s]: the text that replaces it, and what is left of [s]
    after it.  [skip] counts the units that belong to the match just
    replaced. *)
Fixpoint replace_aux (find : str -> option (str * str)) (s : str) (skip : nat)
    : str :=
  match s with
  | [] =>
      match skip with
      | O => match find [] with Some (replacement, _) => replacement | None => [] end
      | S _ => []
      end
  | c :: t =>
      match skip with
      | S n => replace_aux find t n
      | O =>
          match find s with
          | Some (replacement, rest) =>
              match (List.length s - List.length rest)%nat with
              | O => replacement ++ c :: replace_aux find t 0
              | S n => replacement ++ replace_aux find t n
              end
          | None => c :: replace_aux find t 0
          end
      end
  end.

Definition replace (find : str -> option (str * str)) (s : str) : str :=
  replace_aux find s 0.

(** The text between the start of [s] and its suffix [rest]. *)
Definition matched (s rest : str) : str :=
  firstn (List.length s - List.length rest) s.

(** [/(\d+)([\.\)])(?=\S)/] replaced by ['$1$2 ']: the look-ahead is the
    test made on what is left. *)
Definition marker_re : regex :=
  Cat (Plus is_digit) (Chr (fun c => (N.eqb c 46 || N.eqb c 41)%bool)).

Definition space_after_marker (s : str) : option (str * str) :=
  match m marker_re s
          (fun rest => match rest with
                       | c :: _ => if is_space c then None else Some rest
                       | [] => None
                       end) with
  | Some rest => Some (matched s rest ++ [32], rest)
  | None => None
  end.

(** [/(\d+\.)/] *)
Definition numbered_token_re : regex := Cat (Plus is_digit) (Chr (exactly 46)).

(** The second pattern: a group of one unit that is not a line feed,
    then white space, greedy and not captured, then the group of
    [numbered_token_re]; the match is replaced by the first group, a
    line feed and the second group. *)
Definition newline_before_step (s : str) : option (str * str) :=
  m (Chr (fun c => negb (N.eqb c 10))) s (fun s1 =>
  m (Star is_space) s1 (fun s2 =>
  m numbered_token_re s2 (fun s3 =>
  Some (firstn 1 s ++ LF ++ matched s2 s3, s3)))).

(** [/(\d+\.)/] replaced by ['\n$1'] *)
Definition newline_before_token (s : str) : option (str * str) :=
  match m numbered_token_re s (fun rest => Some rest) with
  | Some rest => Some (LF ++ matched s rest, rest)
  | None => None
  end.

(** [/\n{2,}/] replaced by ['\n\n']: one line feed, then one or more. *)
Definition blank_lines_re : regex := Cat (Chr (exactly 10)) (Plus (exactly 10)).

Definition one_blank_line (s : str) : option (str * str) :=
  match m blank_lines_re s (fun rest => Some rest) with
  | Some rest => Some (LF ++ LF, rest)
  | None => None
  end.

(** [cleanNumberedSteps] *)
Definition cleanNumberedSteps (text : value) : value :=
  match text with
  | VStr s =>
      if negb (truthy text) then text
      else
        let s1 := replace space_after_marker s in
        let s2 := replace newline_before_step s1 in
        let s3 := replace newline_before_token s2 in
        let s4 := replace one_blank_line s3 in
        VStr (trim s4)
  | _ => text
  end.

Definition askAI_prompt (question : str) : str :=
  lit "You are a helpful study buddy AI. Answer the following question " ++
  lit "in a clear, educational way:" ++ LF ++ LF ++ lit "Question: " ++
  question ++ LF ++ LF ++
  lit "Please provide a comprehensive but concise answer that helps " ++
  lit "the user learn.".

(** [askAI], given what the proxy answers to [askAI_prompt question];
    [None] is the error of [callGemini]. *)
Definition askAI (p : proxied) : option value :=
  match callGemini p with
  | Some raw => Some (cleanNumberedSteps raw)
  | None => None
  end.

Definition generateFlashcards_prompt (topic : str) : str :=
  lit "Generate 6 educational flashcards for the topic: " ++ dquote ++
  topic ++ dquote ++ lit ". " ++ LF ++ LF ++
  lit "Format your response as a valid JSON array of objects, where " ++
  lit "each object has " ++ dquote ++ lit "question" ++ dquote ++
  lit " and " ++ dquote ++ lit "answer" ++ dquote ++
  lit " properties. Make sure the questions are clear and the answers " ++
  lit "are informative but concise." ++ LF ++ LF ++
  lit "Example format:" ++ LF ++ lit "[" ++ LF ++ lit "  {" ++ LF ++
  lit "    " ++ dquote ++ lit "question" ++ dquote ++ lit ": " ++ dquote ++
  lit "What is the main concept?" ++ dquote ++ lit "," ++ LF ++
  lit "    " ++ dquote ++ lit "answer" ++ dquote ++ lit ": " ++ dquote ++
  lit "The main concept is..." ++ dquote ++ LF ++ lit "  }" ++ LF ++
  lit "]" ++ LF ++ LF ++ lit "Topic: " ++ topic.

(** A number in a template literal: its decimal digits. *)
Fixpoint digits_of (d : Decimal.uint) : str :=
  match d with
  | Decimal.Nil => []
  | Decimal.D0 d' => 48 :: digits_of d'
  | Decimal.D1 d' => 49 :: digits_of d'
  | Decimal.D2 d' => 50 :: digits_of d'
  | Decimal.D3 d' => 51 :: digits_of d'
  | Decimal.D4 d' => 52 :: digits_of d'
  | Decimal.D5 d' => 53 :: digits_of d'
  | Decimal.D6 d' => 54 :: digits_of d'
  | Decimal.D7 d' => 55 :: digits_of d'
  | Decimal.D8 d' => 56 :: digits_of d'
  | Decimal.D9 d' => 57 :: digits_of d'
  end.

Definition decimal (n : nat) : str := digits_of (Nat.to_uint n).

(** The own enumerable properties [{...v}] copies: the members of an
    object, the elements of an array and the units of a string under
    their indices, nothing for the other values. *)
Fixpoint indexed {A : Type} (f : A -> value) (i : nat) (l : list A)
    : list (str * value) :=
  match l with
  | [] => []
  | x :: t => (decimal i, f x) :: indexed f (S i) t
  end.

Definition spread (v : value) : list (str * value) :=
  match v with
  | VObj members => members
  | VArr l => indexed (fun x => x) 0 l
  | VStr s => indexed (fun c => VStr [c]) 0 s
  | _ => []
  end.

(** [flashcards.map((card, index) => ({ ...card, id: ... }))]; [now i]
    is the text of [Date.now()] when element [i] is mapped.  The [id]
    comes last, so it stands whatever [card] held under that key. *)
Fixpoint with_ids (now : nat -> str) (i : nat) (cards : list value) : list value :=
  match cards with
  | [] => []
  | card :: t =>
      VObj (spread card ++
            [(lit "id", VStr (lit "flashcard-" ++ decimal i ++ lit "-" ++ now i))])
      :: with_ids now (S i) t
  end.

Definition fallback_card (now : nat -> str) (topic response : str) : value :=
  VObj [(lit "id", VStr (lit "fallback-" ++ now 0%nat));
        (lit "question", VStr (lit "What is " ++ topic ++ lit "?"));
        (lit "answer", VStr (substring0 200 response ++ lit "..."))].

Definition error_card (now : nat -> str) (topic : str) : value :=
  VObj [(lit "id", VStr (lit "error-" ++ now 0%nat));
        (lit "question", VStr (lit "Tell me about " ++ topic));
        (lit "answer",
         VStr (lit "Sorry, I could not generate flashcards at this time. " ++
               lit "Please try again."))].

(** [generateFlashcards], given what the proxy answers to
    [generateFlashcards_prompt topic].  Whatever is thrown inside the
    [try] block ([callGemini] failing, [match] called on a text that is
    not a string, [JSON.parse] failing) ends in the [catch] block. *)
Definition generateFlashcards (now : nat -> str) (topic : str) (p : proxied)
    : list value :=
  match callGemini p with
  | None => [error_card now topic]
  | Some response =>
      match cleanNumberedSteps response, response with
      | VStr cleaned, VStr raw =>
          match exec Server.json_array_re cleaned with
          | Some jsonMatch =>
              match JSON_parse jsonMatch with
              | Some (VArr flashcards) => with_ids now 0 flashcards
              | Some _ => [error_card now topic]
              | None => [error_card now topic]
              end
          | None => [fallback_card now topic raw]
          end
      | _, _ => [error_card now topic]
      end
  end.

End Client.

(* ===================================================================== *)
(** ** Readings of the endpoint and of texts *)
(* ===================================================================== *)

Module Reading.
Import JS Value JSON Gemini.
Local Open Scope N_scope.

(** The reply is a 2xx reply from which the text [v] is read. *)
Definition answers (f : fetched) (v : value) : Prop :=
  exists resp, f = Resolved resp /\ ok resp = true /\ read_reply resp = Returned v.

(** No reply of the endpoint to this prompt carries a [retry-after]
    header: [headers.get] gives null, or the empty string. *)
Definition no_retry_after (env : endpoint) (prompt : str) : Prop :=
  forall n resp, env n prompt = Resolved resp ->
    retry_after resp = None \/ retry_after resp = Some [].

(** Every call of the endpoint fails: the network rejects it, or the
    status is not 2xx. *)
Definition down (env : endpoint) : Prop :=
  forall n p, match env n p with
              | Rejected _ => True
              | Resolved resp => ok resp = false
              end.

(** [b] is [a] up to the case of an ASCII letter. *)
Definition same_letter (a b : cu) : Prop :=
  b = a \/ (cu_in 97 122 a = true /\ b = a - 32).

(** [s] holds [word] (written in lower case), whatever the case of its
    letters. *)
Definition contains_word (word s : str) : Prop :=
  exists pre w post, s = pre ++ w ++ post /\ Forall2 same_letter word w.

(** A flashcard as the schema wants it: an object whose [question] and
    [answer] are strings. *)
Definition is_flashcard (item : value) : Prop :=
  exists members q a,
    item = VObj members
    /\ lookup (lit "question") members = Some (VStr q)
    /\ lookup (lit "answer") members = Some (VStr a).

(** The text starts with a line feed. *)
Definition starts_with_lf (s : str) : bool :=
  match s with c :: _ => N.eqb c 10 | [] => false end.

(** No digit of the text is directly followed by a dot or a closing
    parenthesis. *)
Fixpoint no_marker (s : str) : bool :=
  match s with
  | d :: t =>
      (match t with
       | c :: _ => negb (is_digit d && (N.eqb c 46 || N.eqb c 41))
       | [] => true
       end && no_marker t)%bool
  | [] => true
  end.

(** No line feed of the text is directly followed by another. *)
Fixpoint no_blank_line (s : str) : bool :=
  match s with
  | c :: t => (negb (N.eqb c 10 && starts_with_lf t) && no_blank_line t)%bool
  | [] => true
  end.

(** The digits at the start of [t], if there are any, are followed by a
    dot. *)
Definition after_digits_dot (t : str) : bool :=
  match dropWhile is_digit t with
  | d :: _ => N.eqb d 46
  | [] => false
  end.

(** Every numbered token of [s] (digits and a dot) that starts after a
    unit that is no digit starts after a line feed; [prev] is the unit
    before [s]. *)
Fixpoint tokens_start_lines (prev : cu) (s : str) : bool :=
  match s with
  | [] => true
  | c :: t =>
      ((if (negb (is_digit prev) && is_digit c && after_digits_dot t)%bool
        then N.eqb prev 10 else true)
       && tokens_start_lines c t)%bool
  end.

(** [card] is an object whose [id] is the string [id]. *)
Definition has_id (card : value) (id : str) : Prop :=
  exists members, card = VObj members /\ lookup (lit "id") members = Some (VStr id).

(** What a JSON route leaves in the log of bad responses, started from
    an empty log: nothing, the stricter prompt not having been sent; or
    one entry, with the name of the route, the first 500 units of the
    prompt and at most 2000 units of the response, the stricter prompt
    having been sent. *)
Definition logs_at_most_once (name prompt : str) (w : Server.world) : Prop :=
  (Server.bad_responses w = []
   /\ ~ In (prompt ++ Server.stricter) (Server.prompts w))
  \/ (exists e,
        Server.bad_responses w = [e]
        /\ Server.endpoint_name e = name
        /\ Server.logged_prompt e = firstn 500 prompt
        /\ (List.length (Server.logged_prompt e) <= 500)%nat
        /\ (List.length (Server.logged_response e) <= 2000)%nat
        /\ In (prompt ++ Server.stricter) (Server.prompts w)).

End Reading.

(* ===================================================================== *)
(** ** More scripted endpoints *)
(* ===================================================================== *)

Module Sample.
Import JS Value JSON Gemini Fixture.
Local Open Scope N_scope.

(** Two failures of different kinds, then an answer. *)
Definition third_time_lucky : endpoint :=
  scripted [fails_with 503 None; Rejected (lit "reset"); says (lit "hello")].

(** A 429 whose [retry-after] is an HTTP date, then an answer. *)
Definition dated_limit : endpoint :=
  scripted [fails_with 429 (Some (lit "Wed, 21 Oct 2015 07:28:00 GMT"));
            says (lit "hello")].

(** The endpoint that rejects every call. *)
Definition unreachable : endpoint := fun _ _ => Rejected (lit "fetch failed").

(** A 2xx reply whose text is the number 5, sent twice. *)
Definition numeric_text : str :=
  lit "{" ++ quoted "candidates" ++ lit ":[{" ++ quoted "content" ++ lit ":{"
  ++ quoted "parts" ++ lit ":[{" ++ quoted "text" ++ lit ":5}]}}]}".

Definition says_five : fetched :=
  Resolved {| status := 200; retry_after := None; body := Some numeric_text |}.

Definition five_twice : endpoint := scripted [says_five; says_five].

(** A 429 that asks for seven seconds and whose body cannot be read,
    then an answer. *)
Definition unreadable_limit : endpoint :=
  scripted [Resolved {| status := 429; retry_after := Some (lit "7");
                        body := None |};
            says (lit "hello")].

(** A 429 that asks for a second and a half, then an answer. *)
Definition fractional_limit : endpoint :=
  scripted [fails_with 429 (Some (lit "1.5")); says (lit "hello")].

End Sample.

(* ===================================================================== *)
(** * Properties *)
(* ===================================================================== *)

(** ** [JSON.parse] has fuel enough *)

Section ParserFuel.
Import JS Value JSON.
Local Open Scope nat_scope.

Lemma dropWhile_length (p : N -> bool) (s : list N) :
  List.length (dropWhile p s) <= List.length s.
Proof.
  induction s as [| c t IH]; simpl; [lia |].
  destruct (p c); simpl; lia.
Qed.

Lemma skip_ws_length (s : list N) : List.length (skip_ws s) <= List.length s.
Proof. apply dropWhile_length. Qed.

Lemma skip_ws_cons (s : list N) (c : N) (t : list N) :
  skip_ws s = c :: t -> List.length t < List.length s.
Proof.
  intros H. pose proof (skip_ws_length s) as Hle. rewrite H in Hle.
  simpl in Hle. lia.
Qed.

(** A string literal is shorter than the text it was read from. *)
Lemma string_chars_length (n : nat) :
  forall s acc x r,
    List.length s <= n ->
    string_chars s acc = Some (x, r) -> List.length r < List.length s.
Proof.
  induction n as [| n IH]; intros s acc x r Hn.
  - destruct s; [discriminate | simpl in Hn; lia].
  - destruct s as [| c t]; [discriminate |].
    simpl in Hn. cbn [string_chars].
    destruct (N.eqb c 34); [intros [= _ <-]; simpl; lia |].
    destruct (N.ltb c 32); [discriminate |].
    destruct (N.eqb c 92).
    + destruct t as [| e t1]; [discriminate |].
      destruct (N.eqb e 117).
      * destruct t1 as [| h1 [| h2 [| h3 [| h4 t2]]]]; try discriminate.
        destruct (hex4 h1 h2 h3 h4); [| discriminate].
        intros H. apply IH in H; simpl in *; lia.
      * destruct (unescape e); [| discriminate].
        intros H. apply IH in H; simpl in *; lia.
    + intros H. apply IH in H; simpl in *; lia.
Qed.

Lemma exponent_length (s : list N) (e : Z) (r : list N) :
  exponent s = Some (e, r) -> List.length r <= List.length s.
Proof.
  unfold exponent.
  set (sign := match s with
               | c :: t => if N.eqb c 45 then (true, t)
                           else if N.eqb c 43 then (false, t) else (false, s)
               | [] => (false, s)
               end).
  assert (Hsign : List.length (snd sign) <= List.length s).
  { unfold sign. destruct s as [| c t]; [simpl; lia |].
    destruct (N.eqb c 45); [simpl; lia |].
    destruct (N.eqb c 43); simpl; lia. }
  destruct sign as [minus s1]. cbn [snd] in Hsign.
  pose proof (dropWhile_length is_digit s1) as Hdrop.
  destruct (takeWhile is_digit s1); [discriminate |].
  intros [= _ <-]. lia.
Qed.

(** A number is shorter than the text it was read from. *)
Lemma parse_number_length (s : list N) (n : number) (r : list N) :
  parse_number s = Some (n, r) -> List.length r < List.length s.
Proof.
  unfold parse_number.
  assert (Hint : forall s1 ids s2,
    match s1 with
    | c :: t => if N.eqb c 48 then Some ([c], t)
                else if cu_in 49 57 c
                then Some (takeWhile is_digit s1, dropWhile is_digit s1)
                else None
    | [] => None
    end = Some (ids, s2) -> List.length s2 < List.length s1).
  { intros s1 ids s2. destruct s1 as [| c t]; [discriminate |].
    destruct (N.eqb c 48); [intros [= _ <-]; simpl; lia |].
    destruct (cu_in 49 57 c) eqn:Hc; [| discriminate].
    intros [= _ <-]. cbn [dropWhile].
    assert (is_digit c = true) as ->.
    { unfold is_digit, cu_in in *. apply andb_prop in Hc as [H1 H2].
      apply N.leb_le in H1, H2. apply andb_true_intro.
      split; apply N.leb_le; lia. }
    pose proof (dropWhile_length is_digit t). simpl. lia. }
  assert (Hfrac : forall s2 fds s3,
    match s2 with
    | c :: t =>
        if N.eqb c 46 then
          match takeWhile is_digit t with
          | [] => None
          | fds => Some (fds, dropWhile is_digit t)
          end
        else Some ([], s2)
    | [] => Some ([], s2)
    end = Some (fds, s3) -> List.length s3 <= List.length s2).
  { intros s2 fds s3. destruct s2 as [| c t]; [intros [= _ <-]; lia |].
    destruct (N.eqb c 46); [| intros [= _ <-]; lia].
    destruct (takeWhile is_digit t); [discriminate |].
    intros [= _ <-]. pose proof (dropWhile_length is_digit t). simpl. lia. }
  assert (Hexp : forall s3 e s4,
    match s3 with
    | c :: t =>
        if (N.eqb c 101 || N.eqb c 69)%bool then exponent t
        else Some (0%Z, s3)
    | [] => Some (0%Z, s3)
    end = Some (e, s4) -> List.length s4 <= List.length s3).
  { intros s3 e s4. destruct s3 as [| c t]; [intros [= _ <-]; lia |].
    destruct (N.eqb c 101 || N.eqb c 69)%bool; [| intros [= _ <-]; lia].
    intros H. apply exponent_length in H. simpl. lia. }
  set (sign := match s with
               | c :: t => if N.eqb c 45 then (true, t) else (false, s)
               | [] => (false, s)
               end).
  assert (Hsign : List.length (snd sign) <= List.length s).
  { unfold sign. destruct s as [| c t]; [simpl; lia |].
    destruct (N.eqb c 45); simpl; lia. }
  destruct sign as [minus s1]. simpl in Hsign.
  match goal with |- context [match ?ip with Some _ => _ | None => None end] =>
    destruct ip as [[ids s2] |] eqn:Hi end; [| discriminate].
  apply Hint in Hi.
  match goal with |- context [match ?fp with Some _ => _ | None => None end] =>
    destruct fp as [[fds s3] |] eqn:Hf end; [| discriminate].
  apply Hfrac in Hf.
  match goal with |- context [match ?ep with Some _ => _ | None => None end] =>
    destruct ep as [[e s4] |] eqn:He end; [| discriminate].
  apply Hexp in He.
  intros [= _ <-]. lia.
Qed.

Lemma strip_prefix_length (p s r : list N) :
  strip_prefix p s = Some r -> List.length r + List.length p = List.length s.
Proof.
  revert s. induction p as [| a p IH]; intros s; simpl.
  - intros [= <-]. lia.
  - destruct s as [| b s']; [discriminate |].
    destruct (N.eqb a b); [| discriminate].
    intros H. apply IH in H. simpl. lia.
Qed.

Lemma literal_length (word : list N) (v : value) (s : list N) (x : value) (r : list N) :
  word <> [] -> literal word v s = POk x r -> List.length r < List.length s.
Proof.
  unfold literal. intros Hw. destruct (strip_prefix word s) eqn:H; [| discriminate].
  intros [= _ <-]. apply strip_prefix_length in H.
  destruct word; [congruence | simpl in H; lia].
Qed.

Lemma literal_fuel (word : list N) (v : value) (s : list N) :
  literal word v s <> POutOfFuel.
Proof. unfold literal. destruct (strip_prefix word s); discriminate. Qed.

Lemma readers_fuelled (fuel : nat) :
  (forall s, fuelled 0 fuel s (parse_value fuel s))
  /\ (forall s acc, fuelled 1 fuel s (parse_elements fuel s acc))
  /\ (forall s acc, fuelled 1 fuel s (parse_members fuel s acc)).
Proof.
  induction fuel as [| f (IHv & IHe & IHm)].
  - repeat split; intros; unfold fuelled; intros; lia.
  - split; [| split].
    + intros s Hf. cbn [parse_value].
      destruct (skip_ws s) as [| c t] eqn:Hs; [split; discriminate |].
      pose proof (skip_ws_cons s c t Hs) as Ht.
      destruct (N.eqb c 91).
      { destruct (skip_ws t) as [| d t'] eqn:Ht'; [split; discriminate |].
        pose proof (skip_ws_cons t d t' Ht') as Hd.
        destruct (N.eqb d 93).
        - split; [discriminate |]. intros v r [= _ <-]. lia.
        - destruct (IHe t [] ltac:(lia)) as [Hne Hlen].
          split; [exact Hne |]. intros v r H. apply Hlen in H. lia. }
      destruct (N.eqb c 123).
      { destruct (skip_ws t) as [| d t'] eqn:Ht'; [split; discriminate |].
        pose proof (skip_ws_cons t d t' Ht') as Hd.
        destruct (N.eqb d 125).
        - split; [discriminate |]. intros v r [= _ <-]. lia.
        - destruct (IHm t [] ltac:(lia)) as [Hne Hlen].
          split; [exact Hne |]. intros v r H. apply Hlen in H. lia. }
      destruct (N.eqb c 34).
      { destruct (string_chars t []) as [[x rest] |] eqn:Hstr; [| split; discriminate].
        apply (string_chars_length (List.length t)) in Hstr; [| lia].
        split; [discriminate |]. intros v r [= _ <-]. lia. }
      destruct (N.eqb c 45 || is_digit c)%bool.
      { destruct (parse_number (c :: t)) as [[n rest] |] eqn:Hnum; [| split; discriminate].
        apply parse_number_length in Hnum. simpl in Hnum.
        split; [discriminate |]. intros v r [= _ <-]. lia. }
      destruct (N.eqb c 110).
      { split; [apply literal_fuel |]. intros v r H.
        apply literal_length in H; [simpl in H; lia | discriminate]. }
      destruct (N.eqb c 116).
      { split; [apply literal_fuel |]. intros v r H.
        apply literal_length in H; [simpl in H; lia | discriminate]. }
      destruct (N.eqb c 102).
      { split; [apply literal_fuel |]. intros v r H.
        apply literal_length in H; [simpl in H; lia | discriminate]. }
      split; discriminate.
    + intros s acc Hf. cbn [parse_elements].
      destruct (IHv s ltac:(lia)) as [Hne Hlen].
      destruct (parse_value f s) as [v rest | |] eqn:Hv;
        [| split; discriminate | congruence].
      specialize (Hlen v rest eq_refl).
      destruct (skip_ws rest) as [| c t] eqn:Hs; [split; discriminate |].
      pose proof (skip_ws_cons rest c t Hs) as Ht.
      destruct (N.eqb c 44).
      * destruct (IHe t (v :: acc) ltac:(lia)) as [Hne' Hlen'].
        split; [exact Hne' |]. intros x r H. apply Hlen' in H. lia.
      * destruct (N.eqb c 93); [| split; discriminate].
        split; [discriminate |]. intros x r [= _ <-]. lia.
    + intros s acc Hf. cbn [parse_members].
      destruct (skip_ws s) as [| q t] eqn:Hs; [split; discriminate |].
      pose proof (skip_ws_cons s q t Hs) as Ht.
      destruct (N.eqb q 34); [| split; discriminate].
      destruct (string_chars t []) as [[key rest] |] eqn:Hstr; [| split; discriminate].
      apply (string_chars_length (List.length t)) in Hstr; [| lia].
      destruct (skip_ws rest) as [| colon rest1] eqn:Hc; [split; discriminate |].
      pose proof (skip_ws_cons rest colon rest1 Hc) as Hr1.
      destruct (N.eqb colon 58); [| split; discriminate].
      destruct (IHv rest1 ltac:(lia)) as [Hne Hlen].
      destruct (parse_value f rest1) as [v rest2 | |] eqn:Hv;
        [| split; discriminate | congruence].
      specialize (Hlen v rest2 eq_refl).
      destruct (skip_ws rest2) as [| c t2] eqn:Hs2; [split; discriminate |].
      pose proof (skip_ws_cons rest2 c t2 Hs2) as Ht2.
      destruct (N.eqb c 44).
      * destruct (IHm t2 ((key, v) :: acc) ltac:(lia)) as [Hne' Hlen'].
        split; [exact Hne' |]. intros x r H. apply Hlen' in H. lia.
      * destruct (N.eqb c 125); [| split; discriminate].
        split; [discriminate |]. intros x r [= _ <-]. lia.
Qed.

(** [JSON_parse] never fails for want of fuel: [None] is a syntax error. *)
Lemma parse_fuel_enough (text : list N) :
  parse_value (parse_fuel text) text <> POutOfFuel.
Proof.
  destruct (readers_fuelled (parse_fuel text)) as [Hv _].
  apply (Hv text). unfold parse_fuel. lia.
Qed.

End ParserFuel.

(** ** The retrying client *)

Section RetryClientFacts.
Import JS Value JSON Gemini RetryClient.

Variable env : endpoint.
Variable prompt : str.

Lemma try_block_continue (k : nat) (f : fetched) (waitMs : option Z) :
  try_block k f = TContinue waitMs -> k < maxRetries.
Proof.
  unfold try_block. destruct f as [msg | r]; [discriminate |].
  destruct (negb (ok r)).
  - destruct (body r); [| discriminate].
    destruct (N.eqb (status r) 429); simpl; [| discriminate].
    destruct (Nat.ltb k maxRetries) eqn:Hk; [| discriminate].
    intros _. now apply Nat.ltb_lt.
  - destruct (read_reply r); discriminate.
Qed.

(** The loop refines [run]: started at attempt [k] with [k] calls behind
    it and enough fuel, it ends, and its calls and waits are those of a
    run. *)
Lemma loop_run (fuel : nat) :
  forall (k : nat) (lastError : option error) (s : state),
    k <= maxRetries -> maxRetries < k + fuel -> calls s = k ->
    exists r ws n,
      loop fuel env prompt k lastError s
        = Some (r, {| calls := n; sleeps := sleeps s ++ ws |})
      /\ run env prompt k ws n r.
Proof.
  induction fuel as [| fuel IH]; intros k lastError s Hk Hfuel Hcalls.
  - lia.
  - cbn [loop]. apply Nat.leb_le in Hk as Hk'. rewrite Hk'. rewrite Hcalls.
    destruct (try_block k (env k prompt)) as [v | waitMs | e] eqn:Htry.
    + exists (Returned v), [], (S k). split.
      * unfold fetch_done. rewrite Hcalls, app_nil_r. reflexivity.
      * now constructor.
    + pose proof (try_block_continue _ _ _ Htry) as Hlt.
      destruct (IH (S k) lastError (sleep waitMs (fetch_done s)))
        as (r & ws & n & Hloop & Hrun); [lia | lia | simpl; now rewrite Hcalls |].
      exists r, (waitMs :: ws), n. split.
      * rewrite Hloop. cbn [sleep sleeps fetch_done]. now rewrite <- app_assoc.
      * now apply run_rate_limited.
    + destruct (Nat.ltb k maxRetries) eqn:Hlt.
      * apply Nat.ltb_lt in Hlt.
        destruct (IH (S k) (Some e) (sleep (backoff k) (fetch_done s)))
          as (r & ws & n & Hloop & Hrun); [lia | lia | simpl; now rewrite Hcalls |].
        exists r, (backoff k :: ws), n. split.
        -- rewrite Hloop. cbn [sleep sleeps fetch_done]. now rewrite <- app_assoc.
        -- now apply run_retry with e.
      * apply Nat.ltb_ge in Hlt. assert (k = maxRetries) as -> by lia.
        exists (Thrown e), [], (S maxRetries). split.
        -- unfold fetch_done. rewrite Hcalls, app_nil_r. reflexivity.
        -- now constructor.
Qed.

(** [callGeminiAPI] always ends, as a run from attempt 0. *)
Lemma callGeminiAPI_run :
  exists r s, callGeminiAPI env prompt = Some (r, s)
              /\ run env prompt 0 (sleeps s) (calls s) r.
Proof.
  destruct (loop_run (maxRetries + 2) 0 None init) as (r & ws & n & H & Hrun);
    [unfold maxRetries; lia | unfold maxRetries; lia | reflexivity |].
  exists r, {| calls := n; sleeps := ws |}. split; [exact H | exact Hrun].
Qed.

(** A run makes at least one call and never more than [maxRetries + 1]. *)
Lemma run_calls k ws n r :
  run env prompt k ws n r -> k < n <= maxRetries + 1.
Proof. induction 1; unfold maxRetries in *; lia. Qed.

(** A run sleeps once between two calls. *)
Lemma run_sleeps k ws n r :
  run env prompt k ws n r -> k + List.length ws + 1 = n.
Proof. induction 1; cbn [List.length]; lia. Qed.

(** A run that throws has spent the whole budget, and throws what the
    last call failed with. *)
Lemma run_thrown k ws n e :
  run env prompt k ws n (Thrown e) ->
  n = maxRetries + 1
  /\ try_block maxRetries (env maxRetries prompt) = TThrow e.
Proof.
  remember (Thrown e) as r eqn:Hr. induction 1; try discriminate; auto.
  injection Hr as ->. split; [unfold maxRetries; lia | assumption].
Qed.

(** A run that returns hands back the text of its last call. *)
Lemma run_returned k ws n v :
  run env prompt k ws n (Returned v) ->
  exists j, n = S j /\ try_block j (env j prompt) = TReturn v.
Proof.
  remember (Returned v) as r eqn:Hr. induction 1; try discriminate; auto.
  injection Hr as ->. eauto.
Qed.

(** What call [j] of a run did decides what follows it. *)
Lemma run_at k ws n r :
  run env prompt k ws n r ->
  forall j, k <= j < n ->
    match try_block j (env j prompt) with
    | TReturn v => r = Returned v /\ n = S j
    | TContinue waitMs =>
        S j < n /\ nth_error ws (j - k) = Some waitMs
    | TThrow e =>
        if Nat.ltb j maxRetries
        then S j < n /\ nth_error ws (j - k) = Some (backoff j)
        else r = Thrown e /\ n = S j
    end.
Proof.
  induction 1 as [k v Hk Htry | e Htry | k waitMs ws n r Hk Htry Hrun IH
                  | k e ws n r Hk Htry Hrun IH]; intros j Hj.
  - assert (j = k) as -> by lia. now rewrite Htry.
  - assert (j = maxRetries) as -> by lia. rewrite Htry.
    now rewrite Nat.ltb_irrefl.
  - destruct (Nat.eq_dec j k) as [-> | Hne].
    + rewrite Htry, Nat.sub_diag. pose proof (run_calls _ _ _ _ Hrun). split; [lia | reflexivity].
    + specialize (IH j ltac:(lia)).
      replace (j - k) with (S (j - S k)) by lia. exact IH.
  - destruct (Nat.eq_dec j k) as [-> | Hne].
    + rewrite Htry, Nat.sub_diag. apply Nat.ltb_lt in Hk as ->.
      pose proof (run_calls _ _ _ _ Hrun). split; [lia | reflexivity].
    + specialize (IH j ltac:(lia)).
      replace (j - k) with (S (j - S k)) by lia. exact IH.
Qed.

End RetryClientFacts.

Section RetryClientClaims.
Import JS Value JSON Gemini RetryClient.

Lemma try_block_return (k : nat) (f : fetched) (v : value) :
  try_block k f = TReturn v ->
  exists resp, f = Resolved resp /\ ok resp = true /\ read_reply resp = Returned v.
Proof.
  unfold try_block. destruct f as [msg | resp]; [discriminate |].
  destruct (ok resp) eqn:Hok; simpl.
  - destruct (read_reply resp) eqn:Hread; [| discriminate].
    intros [= ->]. eauto.
  - destruct (body resp); [| discriminate].
    destruct (N.eqb (status resp) 429 && Nat.ltb k maxRetries)%bool; discriminate.
Qed.

Lemma try_block_rejected (k : nat) (msg : str) :
  try_block k (Rejected msg) = TThrow (NetworkError msg).
Proof. reflexivity. Qed.

Lemma try_block_429 (k : nat) (resp : response) (text : str) :
  status resp = 429%N -> body resp = Some text -> k < maxRetries ->
  try_block k (Resolved resp) = TContinue (rate_limit_wait (retry_after resp) k).
Proof.
  intros Hs Hb Hk. unfold try_block, ok. rewrite Hs, Hb. simpl.
  apply Nat.ltb_lt in Hk. now rewrite Hk.
Qed.

Lemma try_block_no_content (k : nat) (resp : response) (text : str) (data : value) :
  ok resp = true -> body resp = Some text -> JSON_parse text = Some data ->
  has_content data = Returned false ->
  try_block k (Resolved resp) = TThrow InvalidResponseFormat.
Proof.
  intros Hok Hb Hp Hc. unfold try_block, read_reply, extract_text.
  now rewrite Hok, Hb, Hp, Hc.
Qed.

Lemma digit_not_space (c : cu) : is_digit c = true -> is_space c = false.
Proof.
  unfold is_digit, is_space, cu_in. intros H.
  apply andb_prop in H as [H1 H2]. apply N.leb_le in H1, H2.
  repeat (apply orb_false_intro);
    try (apply andb_false_iff; (left; apply N.leb_gt; lia) || (right; apply N.leb_gt; lia));
    apply N.eqb_neq; lia.
Qed.

Lemma takeWhile_all (p : cu -> bool) (s : str) :
  Forall (fun c => p c = true) s -> takeWhile p s = s.
Proof. induction 1 as [| c t Hc _ IH]; simpl; [| rewrite Hc, IH]; reflexivity. Qed.

(** [parseInt] of a run of digits is the number they write. *)
Lemma parseInt_digits (h : str) :
  h <> [] -> Forall (fun c => is_digit c = true) h ->
  parseInt h = Some (Z.of_N (digits_value 0 h)).
Proof.
  intros Hne Hall. destruct h as [| c t]; [congruence |].
  inversion Hall as [| ? ? Hc Ht]; subst.
  unfold parseInt. cbn [dropWhile]. rewrite (digit_not_space _ Hc).
  assert (N.eqb c 45 = false /\ N.eqb c 43 = false) as [-> ->].
  { unfold is_digit, cu_in in Hc. apply andb_prop in Hc as [H1 H2].
    apply N.leb_le in H1, H2. split; apply N.eqb_neq; lia. }
  now rewrite (takeWhile_all _ _ Hall).
Qed.

End RetryClientClaims.

Section RetryClientTheorems.
Import JS Value JSON Gemini RetryClient Fixture.

(** C1.  For every prompt [callGeminiAPI] ends after at most
    [maxRetries + 1] = 4 calls of the endpoint.  When it throws, all four
    calls were made and the error is the one the fourth call failed
    with; the [/api/ask] handler turns it into a 500 reply.  When it
    returns, the value is the text read from a 2xx reply of its last
    call.  So if none of the four replies yields a text, the caller gets
    the last error, never a value made up by the client. *)
Theorem C1_retry_budget (env : endpoint) (prompt : str) :
  exists r s,
    callGeminiAPI env prompt = Some (r, s)
    /\ calls s <= maxRetries + 1
    /\ maxRetries + 1 = 4
    /\ (forall e, r = Thrown e ->
          calls s = maxRetries + 1
          /\ try_block maxRetries (env maxRetries prompt) = TThrow e
          /\ (prompt <> [] -> ask env prompt = Some (Json500 None e, s)))
    /\ (forall v, r = Returned v ->
          exists k resp,
            calls s = S k /\ env k prompt = Resolved resp
            /\ ok resp = true /\ read_reply resp = Returned v)
    /\ ((forall k v, k <= maxRetries ->
           try_block k (env k prompt) <> TReturn v) ->
        exists e, r = Thrown e).
Proof.
  destruct (callGeminiAPI_run env prompt) as (r & s & Hcall & Hrun).
  exists r, s. split; [exact Hcall |].
  pose proof (run_calls _ _ _ _ _ _ Hrun) as Hn.
  split; [lia |]. split; [reflexivity |]. split; [| split].
  - intros e ->. destruct (run_thrown _ _ _ _ _ _ Hrun) as [Hcalls Hlast].
    split; [exact Hcalls |]. split; [exact Hlast |].
    intros Hp. unfold ask. destruct prompt; [congruence |]. now rewrite Hcall.
  - intros v ->. destruct (run_returned _ _ _ _ _ _ Hrun) as (k & Hk & Htry).
    destruct (try_block_return _ _ _ Htry) as (resp & Hf & Hok & Hread).
    exists k, resp. auto.
  - intros Hnone. destruct r as [v | e]; [| eauto].
    destruct (run_returned _ _ _ _ _ _ Hrun) as (k & Hk & Htry).
    exfalso. apply (Hnone k v); [lia | exact Htry].
Qed.

Lemma C1_retry_budget_witness :
  exists e s,
    callGeminiAPI always_500 (lit "hi") = Some (Thrown e, s)
    /\ calls s <= maxRetries + 1.
Proof.
  destruct (C1_retry_budget always_500 (lit "hi"))
    as (r & s & Hcall & Hcalls & _ & _ & _ & Hnone).
  destruct Hnone as [e ->].
  - intros k v Hk. unfold maxRetries in Hk.
    destruct k as [| [| [| [| k]]]]; try lia; vm_compute; discriminate.
  - exists e, s. split; [exact Hcall | exact Hcalls].
Defined.

End RetryClientTheorems.

Section MalformedReply.
Import JS Value JSON Gemini RetryClient Contract Fixture.

Lemma caught_is_transient (env : endpoint) (prompt : str)
    (r : result value) (s : state) (k : nat) (e : error) :
  callGeminiAPI env prompt = Some (r, s) ->
  k < calls s ->
  try_block k (env k prompt) = TThrow e ->
  handled_as_transient r s k e.
Proof.
  intros Hcall Hk Htry.
  destruct (callGeminiAPI_run env prompt) as (r' & s' & Hcall' & Hrun).
  rewrite Hcall in Hcall'. injection Hcall' as <- <-.
  pose proof (run_at _ _ _ _ _ _ Hrun k ltac:(lia)) as Hat.
  rewrite Htry, Nat.sub_0_r in Hat. split.
  - intros Hlt. apply Nat.ltb_lt in Hlt. now rewrite Hlt in Hat.
  - intros ->. rewrite Nat.ltb_irrefl in Hat. destruct Hat as [-> ->].
    split; [reflexivity | lia].
Qed.

(** C9, as stated, fails: this 2xx body holds no text part, and the
    client takes it as a success on the first call, returning
    [undefined] without a retry. *)
Lemma C9_counterexample :
  ok no_text_reply = true
  /\ option_map meets_contract (JSON_parse part_without_text) = Some false
  /\ callGeminiAPI (scripted [Resolved no_text_reply]) (lit "hi")
     = Some (Returned VUndefined, {| calls := 1; sleeps := [] |}).
Proof. vm_compute. auto. Qed.

(** C9, amended.  A 2xx reply whose JSON body fails the client's check
    (no truthy [candidates], [candidates[0]] or [candidates[0].content])
    raises the invalid-response-format error inside the [try] block, and
    one that passes the check but has no [parts[0]] to read raises a
    TypeError there.  Either is from there on handled as a rejected
    [fetch] is: while retries remain the client sleeps [2^k] seconds and
    calls again, and on the last attempt it throws the error to the
    caller. *)
Theorem C9_malformed_reply_is_transient (env : endpoint) (prompt : str)
    (r : result value) (s : state) (k : nat)
    (resp : response) (text : str) (data : value) :
  callGeminiAPI env prompt = Some (r, s) ->
  k < calls s ->
  env k prompt = Resolved resp ->
  ok resp = true -> body resp = Some text -> JSON_parse text = Some data ->
  (has_content data = Returned false ->
     handled_as_transient r s k InvalidResponseFormat)
  /\ (forall e, extract_text data = Thrown e -> handled_as_transient r s k e)
  /\ (forall j msg, j < calls s -> env j prompt = Rejected msg ->
        handled_as_transient r s j (NetworkError msg)).
Proof.
  intros Hcall Hk Hresp Hok Hbody Hparse. split; [| split].
  - intros Hcheck.
    apply (caught_is_transient env prompt _ _ _ _ Hcall Hk).
    rewrite Hresp. eapply try_block_no_content; eassumption.
  - intros e Hthrown.
    apply (caught_is_transient env prompt _ _ _ _ Hcall Hk).
    rewrite Hresp. unfold try_block, read_reply.
    now rewrite Hok, Hbody, Hparse, Hthrown.
  - intros j msg Hj Hrej.
    apply (caught_is_transient env prompt _ _ _ _ Hcall Hj).
    now rewrite Hrej.
Qed.

Lemma C9_malformed_reply_is_transient_witness :
  exists r s,
    callGeminiAPI malformed_then_ok (lit "p") = Some (r, s)
    /\ handled_as_transient r s 0 InvalidResponseFormat
    /\ handled_as_transient r s 1 (NetworkError (lit "reset"))
    /\ sleeps s = [Some 1000%Z; Some 2000%Z].
Proof.
  exists (Returned (VStr (lit "hello"))),
         {| calls := 3; sleeps := [Some 1000%Z; Some 2000%Z] |}.
  split; [reflexivity |].
  destruct (C9_malformed_reply_is_transient malformed_then_ok (lit "p")
              (Returned (VStr (lit "hello")))
              {| calls := 3; sleeps := [Some 1000%Z; Some 2000%Z] |} 0
              empty_object_reply (lit "{}") (VObj []))
    as (Hfirst & _ & Hrejected); try reflexivity.
  - simpl; lia.
  - split; [apply Hfirst; reflexivity |].
    split; [| reflexivity].
    apply (Hrejected 1 (lit "reset")); [simpl; lia | reflexivity].
Defined.

End MalformedReply.

(** ** The validator *)

Section ServerFacts.
Import JS Value JSON Gemini Regex Ajv Server.

Variable env : endpoint.

Lemma callGeminiWithRetry_eq (prompt : str) (opt : expect) (w : world) :
  callGeminiWithRetry env prompt opt w = Some (two_tries env prompt opt w).
Proof.
  unfold callGeminiWithRetry, two_tries. cbn [Nat.add maxTries tries Nat.leb Nat.ltb].
  destruct (callGeminiAPI (env (calls w) prompt)) as [t1 | e1].
  - destruct (accepted opt t1); [reflexivity |].
    cbn [sent calls].
    destruct (callGeminiAPI (env (S (calls w)) (prompt ++ strengthening opt)))
      as [t2 | e2]; [| reflexivity].
    destruct (accepted opt t2); reflexivity.
  - cbn [sent calls].
    destruct (callGeminiAPI (env (S (calls w)) prompt)) as [t2 | e2]; [| reflexivity].
    destruct (accepted opt t2); reflexivity.
Qed.

(** One invocation makes one or two model calls. *)
Lemma two_tries_calls (prompt : str) (opt : expect) (w : world) :
  calls w < calls (snd (two_tries env prompt opt w)) <= calls w + 2.
Proof.
  unfold two_tries.
  destruct (callGeminiAPI (env (calls w) prompt)) as [t1 | e1].
  - destruct (accepted opt t1); [simpl; lia |].
    destruct (callGeminiAPI (env (S (calls w)) (prompt ++ strengthening opt)));
      simpl; lia.
  - destruct (callGeminiAPI (env (S (calls w)) prompt)); simpl; lia.
Qed.

(** Logging a bad response makes no model call. *)
Lemma logBadResponse_calls (name prompt : str) (response : value) (w w' : world) :
  logBadResponse name prompt response w = Returned w' -> calls w' = calls w.
Proof.
  unfold logBadResponse. destruct (or_empty response); try discriminate.
  now intros [= <-].
Qed.

End ServerFacts.

Section RepairRoundTrip.
Import JS Value JSON Gemini Regex Ajv Server Contract Fixture.

(** A JSON route ends, after at most two invocations of the validator. *)
Lemma json_route_calls (env : endpoint) (name failure : str) (valid : value -> bool)
    (prompt : str) (w : world) :
  exists out w',
    json_route name failure valid env prompt w = Some (out, w')
    /\ calls w < calls w' <= calls w + 4.
Proof.
  unfold json_route. rewrite callGeminiWithRetry_eq.
  pose proof (two_tries_calls env prompt ExpectJson w) as H1.
  destruct (two_tries env prompt ExpectJson w) as [response w1]. simpl in H1.
  destruct (negb (truthy (extractJsonArray (or_empty response)))
            || negb (valid (extractJsonArray (or_empty response))))%bool.
  - destruct (logBadResponse name prompt response w1) as [w2 | e] eqn:Hlog.
    + apply logBadResponse_calls in Hlog.
      rewrite callGeminiWithRetry_eq.
      pose proof (two_tries_calls env (prompt ++ stricter) ExpectJson w2) as H2.
      destruct (two_tries env (prompt ++ stricter) ExpectJson w2) as [retry w3].
      simpl in H2.
      destruct (truthy (extractJsonArray (or_empty retry))
                && valid (extractJsonArray (or_empty retry)))%bool;
        eexists; eexists; (split; [reflexivity | lia]).
    + eexists; eexists; (split; [reflexivity | lia]).
  - eexists; eexists; (split; [reflexivity | lia]).
Qed.

(** C3, as stated, fails: every call is answered with text, so nothing
    but shape validation fails, and the flashcards route still makes four
    model calls. *)
Lemma C3_counterexample :
  map callGeminiAPI four_prose
  = [Returned (VStr (lit "a")); Returned (VStr (lit "b"));
     Returned (VStr (lit "c")); Returned (VStr (lit "d"))]
  /\ option_map (fun x => calls (snd x))
       (flashcards (scripted four_prose) (lit "git") start) = Some 4.
Proof. vm_compute. auto. Qed.

(** C3, amended.  One invocation of [callGeminiWithRetry] makes at most
    two model calls.  When its first reply comes back and fails
    validation, it makes exactly one more call, with the prompt followed
    by the corrective instruction of the expected shape, and then gives
    up; when the first reply passes, that reply is returned after one
    call.  The chat route invokes the validator once, so it makes at most
    2 calls; the flashcards and quiz routes invoke it a second time when
    the first result does not validate, so they make at most 4. *)
Theorem C3_one_repair_per_invocation (env : endpoint) :
  (forall (prompt : str) (opt : expect) (w : world),
     exists v w',
       callGeminiWithRetry env prompt opt w = Some (v, w')
       /\ calls w' <= calls w + 2
       /\ (forall text,
             callGeminiAPI (env (calls w) prompt) = Returned text ->
             accepted opt text = false ->
             calls w' = calls w + 2
             /\ prompts w' = prompts w ++ [prompt; prompt ++ strengthening opt])
       /\ (forall text,
             callGeminiAPI (env (calls w) prompt) = Returned text ->
             accepted opt text = true ->
             v = text /\ calls w' = calls w + 1))
  /\ strengthening ExpectJson = strengthen_json
  /\ strengthening ExpectMarkdownList = strengthen_markdownList
  /\ (forall prompt, exists out w',
        ask env prompt start = Some (out, w') /\ calls w' <= 2)
  /\ (forall topic, exists out w',
        flashcards env topic start = Some (out, w') /\ calls w' <= 4)
  /\ (forall topic, exists out w',
        quiz env topic start = Some (out, w') /\ calls w' <= 4).
Proof.
  split; [| split; [reflexivity | split; [reflexivity | split; [| split]]]].
  - intros prompt opt w. rewrite callGeminiWithRetry_eq.
    pose proof (two_tries_calls env prompt opt w) as Hcalls.
    exists (fst (two_tries env prompt opt w)), (snd (two_tries env prompt opt w)).
    split; [now rewrite <- surjective_pairing |]. split; [lia |]. split.
    + intros text Hfirst Hbad. unfold two_tries. rewrite Hfirst, Hbad.
      destruct (callGeminiAPI (env (S (calls w)) (prompt ++ strengthening opt)));
        cbn [snd sent calls prompts];
        (split; [lia | now rewrite <- app_assoc]).
    + intros text Hfirst Hgood. unfold two_tries. rewrite Hfirst, Hgood.
      cbn [fst snd sent calls]. split; [reflexivity | lia].
  - intros prompt. unfold ask. destruct prompt as [| c t].
    + eexists; eexists; split; [reflexivity | simpl; lia].
    + rewrite callGeminiWithRetry_eq.
      match goal with |- context [two_tries env ?p ?o start] =>
        pose proof (two_tries_calls env p o start) as Hcalls;
        destruct (two_tries env p o start) as [response w1] end.
      simpl in Hcalls. eexists; eexists; split; [reflexivity | simpl; lia].
  - intros topic. unfold flashcards. destruct topic as [| c t].
    + eexists; eexists; split; [reflexivity | simpl; lia].
    + match goal with |- context [json_route ?n ?f ?v env ?p start] =>
        destruct (json_route_calls env n f v p start) as (out & w' & Hroute & Hcalls) end.
      exists out, w'. split; [exact Hroute | simpl in Hcalls; lia].
  - intros topic. unfold quiz. destruct topic as [| c t].
    + eexists; eexists; split; [reflexivity | simpl; lia].
    + match goal with |- context [json_route ?n ?f ?v env ?p start] =>
        destruct (json_route_calls env n f v p start) as (out & w' & Hroute & Hcalls) end.
      exists out, w'. split; [exact Hroute | simpl in Hcalls; lia].
Qed.

(** The first reply is prose, the repaired one an empty array. *)
Lemma C3_one_repair_per_invocation_witness :
  exists v w',
    callGeminiWithRetry (scripted [says (lit "no"); says (lit "[]")])
      (lit "p") ExpectJson start = Some (v, w')
    /\ calls w' = 2
    /\ prompts w' = [lit "p"; lit "p" ++ strengthen_json].
Proof.
  destruct (C3_one_repair_per_invocation (scripted [says (lit "no"); says (lit "[]")]))
    as [Hone _].
  destruct (Hone (lit "p") ExpectJson start) as (v & w' & Hcall & _ & Hrepair & _).
  destruct (Hrepair (VStr (lit "no"))) as [Hcalls Hprompts];
    [reflexivity | reflexivity |].
  exists v, w'. split; [exact Hcall |]. split; [exact Hcalls | exact Hprompts].
Defined.

End RepairRoundTrip.

Section FallbackFlags.
Import JS Value JSON Gemini Regex Ajv Server Contract Fixture.

(** A JSON route flags exactly what it could not validate. *)
Lemma json_route_flags (env : endpoint) (name failure : str) (valid : value -> bool)
    (prompt : str) (w w' : world) (out : http) :
  json_route name failure valid env prompt w = Some (out, w') ->
  match out with
  | Json200 r None => checked valid r = true
  | Json200 r (Some flag) => flag = warning_text /\ checked valid r = false
  | Json400 _ => False
  | Json500 _ e => e = TypeError
  end.
Proof.
  unfold json_route. rewrite callGeminiWithRetry_eq.
  destruct (two_tries env prompt ExpectJson w) as [response w1].
  fold (checked valid response).
  rewrite <- negb_andb. fold (checked valid response).
  destruct (checked valid response) eqn:Hfirst; cbn [negb].
  - intros [= <- <-]. exact Hfirst.
  - destruct (logBadResponse name prompt response w1) as [w2 | e] eqn:Hlog.
    + rewrite callGeminiWithRetry_eq.
      destruct (two_tries env (prompt ++ stricter) ExpectJson w2) as [retry w3].
      fold (checked valid retry).
      destruct (checked valid retry) eqn:Hsecond; intros [= <- <-]; auto.
    + intros [= <- <-]. unfold logBadResponse in Hlog.
      destruct (or_empty response); congruence.
Qed.

(** When neither round validates, the route sends the first round's text
    with the warning. *)
Lemma json_route_fallback (env : endpoint) (name failure : str) (valid : value -> bool)
    (prompt : str) (w w1 w2 w3 : world) (first retry : value) :
  callGeminiWithRetry env prompt ExpectJson w = Some (first, w1) ->
  checked valid first = false ->
  logBadResponse name prompt first w1 = Returned w2 ->
  callGeminiWithRetry env (prompt ++ stricter) ExpectJson w2 = Some (retry, w3) ->
  checked valid retry = false ->
  json_route name failure valid env prompt w
  = Some (Json200 first (Some warning_text), w3).
Proof.
  intros Hfirst Hbad Hlog Hretry Hbad2. unfold json_route.
  rewrite Hfirst. unfold checked in Hbad, Hbad2.
  rewrite <- negb_andb, Hbad. cbn [negb]. rewrite Hlog, Hretry, Hbad2.
  reflexivity.
Qed.

(** C2, as stated, fails: a numbered list is expected, both replies
    fail the check, and the chat route sends the second text with no
    warning at all. *)
Lemma C2_counterexample :
  test steps_re steps_question = true
  /\ isNumberedMarkdownList (VStr (lit "a")) = false
  /\ isNumberedMarkdownList (VStr (lit "b")) = false
  /\ option_map (fun x => (fst x, calls (snd x)))
       (ask (scripted two_prose) steps_question start)
     = Some (Json200 (VStr (lit "b")) None, 2).
Proof. vm_compute. auto. Qed.

(** C2, amended.  When the first reply and the repaired reply both fail
    shape validation, [callGeminiWithRetry] returns the second reply's
    raw text after exactly two model calls.  The chat route, the only
    one that expects a numbered list, sends that text without a warning.
    The flashcards and quiz routes never send unvalidated text unflagged:
    a reply without a warning carries text whose extracted array passed
    the schema, and when neither of their two rounds validates they send
    the first round's raw text with the warning. *)
Theorem C2_fallback_flags (env : endpoint) :
  (forall prompt opt w t1 t2,
     callGeminiAPI (env (calls w) prompt) = Returned t1 ->
     accepted opt t1 = false ->
     callGeminiAPI (env (S (calls w)) (prompt ++ strengthening opt)) = Returned t2 ->
     accepted opt t2 = false ->
     exists w', callGeminiWithRetry env prompt opt w = Some (t2, w')
                /\ calls w' = calls w + 2)
  /\ (forall prompt t1 t2,
        prompt <> [] -> test steps_re prompt = true ->
        callGeminiAPI (env 0 (prompt ++ markdown_suffix)) = Returned t1 ->
        isNumberedMarkdownList t1 = false ->
        callGeminiAPI
          (env 1 ((prompt ++ markdown_suffix) ++ strengthen_markdownList))
        = Returned t2 ->
        isNumberedMarkdownList t2 = false ->
        exists w', ask env prompt start = Some (Json200 t2 None, w')
                   /\ calls w' = 2)
  /\ (forall topic out w',
        flashcards env topic start = Some (out, w') ->
        match out with
        | Json200 r None => checked validateFlashcards r = true
        | Json200 r (Some flag) =>
            flag = warning_text /\ checked validateFlashcards r = false
        | _ => True
        end)
  /\ (forall topic out w',
        quiz env topic start = Some (out, w') ->
        match out with
        | Json200 r None => checked validateQuiz r = true
        | Json200 r (Some flag) =>
            flag = warning_text /\ checked validateQuiz r = false
        | _ => True
        end)
  /\ (forall name failure valid prompt w w1 w2 w3 first retry,
        callGeminiWithRetry env prompt ExpectJson w = Some (first, w1) ->
        checked valid first = false ->
        logBadResponse name prompt first w1 = Returned w2 ->
        callGeminiWithRetry env (prompt ++ stricter) ExpectJson w2 = Some (retry, w3) ->
        checked valid retry = false ->
        json_route name failure valid env prompt w
        = Some (Json200 first (Some warning_text), w3)).
Proof.
  split; [| split; [| split; [| split]]].
  - intros prompt opt w t1 t2 H1 Hbad1 H2 Hbad2.
    rewrite callGeminiWithRetry_eq. unfold two_tries.
    rewrite H1, Hbad1, H2. eexists. split; [reflexivity |].
    cbn [sent calls]. lia.
  - intros prompt t1 t2 Hne Hsteps H1 Hbad1 H2 Hbad2.
    unfold ask. destruct prompt as [| c t]; [congruence |].
    rewrite Hsteps, callGeminiWithRetry_eq. unfold two_tries.
    cbn [start calls strengthening accepted].
    rewrite H1, Hbad1, H2. eexists. split; reflexivity.
  - intros topic out w' Hroute. unfold flashcards in Hroute.
    destruct topic as [| c t].
    + injection Hroute as <- <-. exact I.
    + apply json_route_flags in Hroute. destruct out as [r [flag |] | |]; auto.
  - intros topic out w' Hroute. unfold quiz in Hroute.
    destruct topic as [| c t].
    + injection Hroute as <- <-. exact I.
    + apply json_route_flags in Hroute. destruct out as [r [flag |] | |]; auto.
  - intros. eapply json_route_fallback; eassumption.
Qed.

Lemma C2_fallback_flags_witness :
  exists w', ask (scripted two_prose) steps_question start
             = Some (Json200 (VStr (lit "b")) None, w')
             /\ calls w' = 2.
Proof.
  destruct (C2_fallback_flags (scripted two_prose)) as (_ & Hchat & _).
  apply (Hchat steps_question (VStr (lit "a")) (VStr (lit "b")));
    (discriminate || reflexivity).
Defined.

End FallbackFlags.

Section JsonArrays.
Import JS Value JSON Gemini Regex Ajv Server Contract Fixture.
Local Open Scope N_scope.

Lemma star_any_then (p : cu -> bool) (c : cu) (s : str) :
  (forall x, p x = true) ->
  star p s (fun s' => match s' with
                      | [] => None
                      | x :: t => if exactly c x then Some t else None
                      end)
  = after_last c s.
Proof.
  intros Hp. induction s as [| x t IH]; [reflexivity |].
  cbn [star after_last]. rewrite Hp, IH.
  destruct (after_last c t); reflexivity.
Qed.

Lemma after_last_app (c : cu) (a b : str) :
  after_last c b = None -> after_last c (a ++ c :: b) = Some b.
Proof.
  intros Hb. induction a as [| x t IH]; simpl.
  - now rewrite Hb, N.eqb_refl.
  - now rewrite IH.
Qed.

Lemma after_last_none (c : cu) (b : str) :
  Forall (fun x => x <> c) b -> after_last c b = None.
Proof.
  induction 1 as [| x t Hx _ IH]; simpl; [reflexivity |].
  rewrite IH. apply N.eqb_neq in Hx. rewrite N.eqb_sym in Hx. now rewrite Hx.
Qed.

Lemma space_or_not (x : cu) : (is_space x || negb (is_space x))%bool = true.
Proof. now destruct (is_space x). Qed.

(** At an opening bracket the pattern takes everything up to the last
    closing bracket. *)
Lemma match_at_bracket (mid post : str) :
  Forall (fun x => x <> 93) post ->
  match_at json_array_re (91 :: mid ++ 93 :: post) = Some (91 :: mid ++ [93]).
Proof.
  intros Hpost. unfold match_at, json_array_re.
  cbn [m]. unfold exactly at 1. rewrite N.eqb_refl.
  match goal with |- context [star ?p ?s ?k] =>
    replace (star p s k) with (after_last 93 s)
      by (symmetry; apply star_any_then; apply space_or_not)
  end.
  rewrite after_last_app by (now apply after_last_none).
  f_equal. cbn [List.length]. rewrite length_app. cbn [List.length].
  replace (S (List.length mid + S (List.length post)) - List.length post)%nat
    with (S (List.length mid + 1)) by lia.
  cbn [firstn]. f_equal.
  replace (mid ++ 93 :: post) with ((mid ++ [93]) ++ post)
    by now rewrite <- app_assoc.
  rewrite <- (length_app mid [93]) at 1.
  now rewrite firstn_app, Nat.sub_diag, firstn_all, firstn_O, app_nil_r.
Qed.

(** Before the first opening bracket nothing matches. *)
Lemma exec_skips (pre s : str) :
  Forall (fun x => x <> 91) pre ->
  exec json_array_re (pre ++ 91 :: s) = exec json_array_re (91 :: s).
Proof.
  induction 1 as [| x t Hx _ IH]; [reflexivity |].
  cbn [app exec]. unfold match_at at 1. unfold json_array_re at 1.
  cbn [m]. unfold exactly at 1. apply N.eqb_neq in Hx. rewrite N.eqb_sym in Hx.
  now rewrite Hx.
Qed.

(** The match of the pattern in a reply that wraps one bracketed span in
    prose: the span, whatever surrounds it. *)
Lemma exec_json_array_span (pre mid post : str) :
  Forall (fun x => x <> 91) pre -> Forall (fun x => x <> 93) post ->
  exec json_array_re (pre ++ 91 :: mid ++ 93 :: post) = Some (91 :: mid ++ [93]).
Proof.
  intros Hpre Hpost. rewrite (exec_skips _ _ Hpre).
  cbn [exec]. now rewrite (match_at_bracket mid _ Hpost).
Qed.

End JsonArrays.

Section JsonArrayTheorems.
Import JS Value JSON Gemini Regex Ajv Server Contract Fixture.
Local Open Scope N_scope.

(** [extractJsonArray] reads the span between the first opening and the
    last closing bracket, whatever prose surrounds it. *)
Lemma extractJsonArray_span (pre mid post : str) :
  Forall (fun x => x <> 91) pre -> Forall (fun x => x <> 93) post ->
  extractJsonArray (VStr (pre ++ 91 :: mid ++ 93 :: post))
  = match JSON_parse (91 :: mid ++ [93]) with
    | Some parsed => parsed
    | None => VNull
    end.
Proof.
  intros Hpre Hpost. unfold extractJsonArray.
  rewrite (exec_json_array_span _ mid _ Hpre Hpost).
  destruct pre; reflexivity.
Qed.

(** C5.  When the first reply to the flashcards prompt is the text
    [chatty_reply] (Sure!, then an array of one flashcard with question
    Q and answer A, then thanks), the pattern matches
    the bracketed span alone, [JSON.parse] reads it as an array of one
    object, every element has the fields the flashcard schema requires,
    and the route sends the reply without a warning after one model
    call.  Prose around the span does not matter: whatever stands before
    the first opening bracket and after the last closing one, the span
    between them is what is parsed. *)
Theorem C5_chatty_reply_accepted (env : endpoint) (topic : str) :
  topic <> [] ->
  callGeminiAPI (env 0%nat (flashcards_prompt topic)) = Returned (VStr chatty_reply) ->
  exec json_array_re chatty_reply = Some one_card
  /\ JSON_parse one_card = Some one_card_parsed
  /\ extractJsonArray (VStr chatty_reply) = one_card_parsed
  /\ validateFlashcards one_card_parsed = true
  /\ (exists w',
        flashcards env topic start = Some (Json200 (VStr chatty_reply) None, w')
        /\ calls w' = 1%nat)
  /\ (forall pre mid post : str,
        Forall (fun x => x <> 91) pre -> Forall (fun x => x <> 93) post ->
        extractJsonArray (VStr (pre ++ 91 :: mid ++ 93 :: post))
        = match JSON_parse (91 :: mid ++ [93]) with
          | Some parsed => parsed
          | None => VNull
          end).
Proof.
  intros Htopic Hreply.
  assert (extractJsonArray (VStr chatty_reply) = one_card_parsed) as Hextract
    by (vm_compute; reflexivity).
  split; [vm_compute; reflexivity |].
  split; [vm_compute; reflexivity |].
  split; [exact Hextract |].
  split; [vm_compute; reflexivity |].
  split; [| exact extractJsonArray_span].
  unfold flashcards. destruct topic as [| c t]; [congruence |].
  unfold json_route. rewrite callGeminiWithRetry_eq. unfold two_tries.
  cbn [start calls]. rewrite Hreply.
  cbn [accepted]. rewrite Hextract. cbn [truthy one_card_parsed].
  change (or_empty (VStr chatty_reply)) with (VStr chatty_reply).
  rewrite Hextract.
  change (validateFlashcards one_card_parsed) with true.
  cbn [truthy one_card_parsed negb orb].
  eexists. split; reflexivity.
Qed.

Lemma C5_chatty_reply_accepted_witness :
  exists w',
    flashcards (scripted [says chatty_reply]) (lit "git") start
    = Some (Json200 (VStr chatty_reply) None, w')
    /\ calls w' = 1%nat.
Proof.
  destruct (C5_chatty_reply_accepted (scripted [says chatty_reply]) (lit "git"))
    as (_ & _ & _ & _ & Hroute & _).
  - discriminate.
  - vm_compute. reflexivity.
  - exact Hroute.
Defined.

(** C8.  When the first reply to the flashcards prompt holds no
    parseable JSON array and the reply to the strengthened prompt is
    exactly [[]], the empty array passes the flashcard schema (it has no
    element to fail it) and the route sends [[]] without a warning, after
    exactly two model calls. *)
Theorem C8_empty_array_repair (env : endpoint) (topic t1 : str) :
  topic <> [] ->
  callGeminiAPI (env 0%nat (flashcards_prompt topic)) = Returned (VStr t1) ->
  extractJsonArray (VStr t1) = VNull ->
  callGeminiAPI (env 1%nat (flashcards_prompt topic ++ strengthen_json))
  = Returned (VStr (lit "[]")) ->
  extractJsonArray (VStr (lit "[]")) = VArr []
  /\ validateFlashcards (VArr []) = true
  /\ exists w',
       flashcards env topic start = Some (Json200 (VStr (lit "[]")) None, w')
       /\ calls w' = 2%nat
       /\ prompts w'
          = [flashcards_prompt topic; flashcards_prompt topic ++ strengthen_json].
Proof.
  intros Htopic Hfirst Hnone Hsecond.
  assert (extractJsonArray (VStr (lit "[]")) = VArr []) as Hempty
    by (vm_compute; reflexivity).
  split; [exact Hempty |]. split; [reflexivity |].
  unfold flashcards. destruct topic as [| c t]; [congruence |].
  unfold json_route. rewrite callGeminiWithRetry_eq. unfold two_tries.
  cbn [start calls]. rewrite Hfirst.
  cbn [accepted strengthening]. rewrite Hnone. cbn [truthy].
  rewrite Hsecond.
  change (or_empty (VStr (lit "[]"))) with (VStr (lit "[]")).
  rewrite Hempty.
  change (validateFlashcards (VArr [])) with true.
  cbn [truthy negb orb].
  eexists. split; [reflexivity |]. split; reflexivity.
Qed.

Lemma C8_empty_array_repair_witness :
  exists w',
    flashcards (scripted [says (lit "I cannot do that."); says (lit "[]")])
      (lit "git") start
    = Some (Json200 (VStr (lit "[]")) None, w')
    /\ calls w' = 2%nat.
Proof.
  destruct (C8_empty_array_repair
              (scripted [says (lit "I cannot do that."); says (lit "[]")])
              (lit "git") (lit "I cannot do that."))
    as (_ & _ & w' & Hroute & Hcalls & _).
  - discriminate.
  - vm_compute. reflexivity.
  - vm_compute. reflexivity.
  - vm_compute. reflexivity.
  - exists w'. split; [exact Hroute | exact Hcalls].
Defined.

End JsonArrayTheorems.

Section QuizSchema.
Import JS Value JSON Gemini Regex Ajv Server Contract Fixture.
Local Open Scope N_scope.

(** C6, as stated, fails: this payload passes [validateQuiz], the quiz
    route sends it without a warning, and its [correctAnswer] is none of
    its four options. *)
Lemma C6_counterexample :
  JSON_parse mismatched_quiz_text = Some (VArr mismatched_quiz)
  /\ validateQuiz (VArr mismatched_quiz) = true
  /\ forallb answer_among_options mismatched_quiz = false
  /\ option_map fst (quiz (scripted [says mismatched_quiz_text]) (lit "git") start)
     = Some (Json200 (VStr mismatched_quiz_text) None).
Proof. vm_compute. auto. Qed.

(** A required member that the schema types as a string is a string. *)
Lemma required_string (members : list (str * value)) (k : str) :
  has_member members k = true ->
  match lookup k members with
  | Some VUndefined | None => true
  | Some x => validate SString x
  end = true ->
  exists s, lookup k members = Some (VStr s).
Proof.
  unfold has_member. destruct (lookup k members) as [[] |]; simpl;
    try discriminate. eauto.
Qed.

(** A required member typed as an array of exactly four strings is one. *)
Lemma required_four_strings (members : list (str * value)) (k : str) :
  has_member members k = true ->
  match lookup k members with
  | Some VUndefined | None => true
  | Some x => validate (SArray SString (Some 4%nat) (Some 4%nat)) x
  end = true ->
  exists opts, lookup k members = Some (VArr opts)
               /\ List.length opts = 4%nat
               /\ forallb is_string opts = true.
Proof.
  unfold has_member. destruct (lookup k members) as [[] |]; simpl;
    try discriminate.
  intros _ H. apply andb_prop in H as [H Hitems]. apply andb_prop in H as [Hlo Hhi].
  exists l. split; [reflexivity |]. split; [| exact Hitems].
  destruct l as [| ? [| ? [| ? [| ? [| ? ?]]]]]; simpl in *; congruence.
Qed.

Lemma quiz_item_validated (item : value) :
  validate (SObject [(lit "question", SString);
                     (lit "options", SArray SString (Some 4%nat) (Some 4%nat));
                     (lit "correctAnswer", SString);
                     (lit "explanation", SString)]
                    [lit "question"; lit "options"; lit "correctAnswer";
                     lit "explanation"]) item = true ->
  carries_fields item = true /\ four_options item = true
  /\ string_fields item = true.
Proof.
  destruct item as [| | | | | | members]; try discriminate.
  cbn [validate]. intros H. apply andb_prop in H as [Hreq Hprops].
  split; [exact Hreq |].
  cbn [forallb] in Hreq.
  apply andb_prop in Hreq as [Hq Hreq]. apply andb_prop in Hreq as [Ho Hreq].
  apply andb_prop in Hreq as [Hc Hreq]. apply andb_prop in Hreq as [He _].
  apply andb_prop in Hprops as [Pq Hprops]. apply andb_prop in Hprops as [Po Hprops].
  apply andb_prop in Hprops as [Pc Hprops]. apply andb_prop in Hprops as [Pe _].
  destruct (required_string _ _ Hq Pq) as [q Eq].
  destruct (required_four_strings _ _ Ho Po) as (opts & Eo & Hlen & Hstr).
  destruct (required_string _ _ Hc Pc) as [c Ec].
  destruct (required_string _ _ He Pe) as [e Ee].
  unfold four_options, string_fields. rewrite Eq, Eo, Ec, Ee, Hlen, Hstr.
  split; reflexivity.
Qed.

(** C6, amended.  Every payload that [validateQuiz] accepts is an array
    whose elements each carry the question, options, correctAnswer and
    explanation fields, with question, correctAnswer and explanation
    strings and options an array of exactly four strings.  (Whether
    correctAnswer is one of the options is not part of the schema.) *)
Theorem C6_quiz_items_validated (payload : value) :
  validateQuiz payload = true ->
  exists items,
    payload = VArr items
    /\ Forall (fun item =>
                 carries_fields item = true
                 /\ four_options item = true
                 /\ string_fields item = true) items.
Proof.
  unfold validateQuiz, quizSchema. destruct payload; try discriminate.
  cbn [validate at_least at_most andb]. intros Hitems.
  exists l. split; [reflexivity |].
  rewrite forallb_forall in Hitems. apply Forall_forall.
  intros item Hin. apply quiz_item_validated. now apply Hitems.
Qed.

Lemma C6_quiz_items_validated_witness :
  exists items,
    VArr matched_quiz = VArr items
    /\ Forall (fun item =>
                 carries_fields item = true
                 /\ four_options item = true
                 /\ string_fields item = true) items.
Proof. apply C6_quiz_items_validated. reflexivity. Defined.

End QuizSchema.

Section NumberedLists.
Import JS Value JSON Gemini Regex Ajv Server Contract Fixture.
Local Open Scope N_scope.

(** A greedy repetition never has to give a unit back when what follows
    cannot start with a unit of its class. *)
Lemma star_no_backtrack (A : Type) (p : cu -> bool) (k : str -> option A) (s : str) :
  (forall c t, p c = true -> k (c :: t) = None) ->
  star p s k = k (dropWhile p s).
Proof.
  intros Hk. induction s as [| c t IH]; [reflexivity |].
  cbn [star dropWhile]. destruct (p c) eqn:Hc; [| reflexivity].
  rewrite IH. destruct (k (dropWhile p t)); [reflexivity |]. now apply Hk.
Qed.

Lemma star_some (p : cu -> bool) (s : str) :
  star p s (fun rest => Some rest) <> None.
Proof.
  induction s as [| c t IH]; simpl; [discriminate |].
  destruct (p c); [| discriminate].
  destruct (star p t (fun rest => Some rest)); discriminate.
Qed.

Lemma take_drop (p : cu -> bool) (s : str) :
  takeWhile p s ++ dropWhile p s = s.
Proof.
  induction s as [| c t IH]; [reflexivity |].
  simpl. destruct (p c); [simpl; now rewrite IH | reflexivity].
Qed.

Lemma takeWhile_Forall (p : cu -> bool) (s : str) :
  Forall (fun c => p c = true) (takeWhile p s).
Proof.
  induction s as [| c t IH]; simpl; [constructor |].
  destruct (p c) eqn:Hc; constructor; assumption.
Qed.

Lemma dropWhile_app (p : cu -> bool) (ds : str) (c : cu) (rest : str) :
  Forall (fun d => p d = true) ds -> p c = false ->
  dropWhile p (ds ++ c :: rest) = c :: rest.
Proof.
  induction 1 as [| d t Hd _ IH]; intros Hc; simpl.
  - now rewrite Hc.
  - rewrite Hd. now apply IH.
Qed.

Lemma dot_not_digit : is_digit 46 = false.
Proof. reflexivity. Qed.

(** A pattern [^\d+\.R], where [R] matches exactly when a unit of [cls]
    comes next, holds of the lines that start with a number, a dot and
    such a unit. *)
Lemma digits_dot_spec (R : regex) (cls : cu -> bool) :
  (forall s, m R s (fun rest => Some rest) <> None
             <-> exists y t, s = y :: t /\ cls y = true) ->
  forall l,
    test_anchored (Cat (Plus is_digit) (Cat (Chr (exactly 46)) R)) l = true
    <-> starts_with_number cls l.
Proof.
  intros HR l. unfold test_anchored, match_at. cbn [m].
  set (k := fun s' : str =>
              match s' with
              | [] => None
              | c :: t => if exactly 46 c
                          then m R t (fun rest : str => Some rest)
                          else None
              end).
  assert (Hk : forall c t, is_digit c = true -> k (c :: t) = None).
  { intros c t Hc. unfold k, exactly.
    destruct (N.eqb 46 c) eqn:E; [| reflexivity].
    apply N.eqb_eq in E. subst c. discriminate. }
  split.
  - destruct l as [| c t]; [discriminate |].
    destruct (is_digit c) eqn:Hc; [| discriminate].
    rewrite star_no_backtrack by exact Hk.
    destruct (dropWhile is_digit t) as [| x t'] eqn:Hdrop; [discriminate |].
    unfold k. unfold exactly at 1.
    destruct (N.eqb 46 x) eqn:Ex; [| discriminate].
    apply N.eqb_eq in Ex. subst x.
    destruct (m R t' (fun rest => Some rest)) eqn:Hm; [| discriminate].
    intros _.
    assert (m R t' (fun rest => Some rest) <> None) as Hsome by congruence.
    apply HR in Hsome as (y & t'' & -> & Hy).
    exists (c :: takeWhile is_digit t), y, t''.
    split; [discriminate |]. split; [| split; [exact Hy |]].
    + constructor; [exact Hc | apply takeWhile_Forall].
    + simpl. f_equal. now rewrite <- Hdrop, take_drop.
  - intros (ds & c & rest & Hne & Hds & Hc & ->).
    destruct ds as [| d ds']; [congruence |].
    inversion Hds as [| ? ? Hd Hds']; subst.
    cbn [app]. rewrite Hd.
    rewrite star_no_backtrack by exact Hk.
    rewrite dropWhile_app by (assumption || exact dot_not_digit).
    unfold k. unfold exactly at 1. rewrite N.eqb_refl.
    destruct (m R (c :: rest) (fun rest0 => Some rest0)) eqn:Hm; [reflexivity |].
    exfalso. revert Hm. apply HR. eauto.
Qed.

Lemma chr_spec (cls : cu -> bool) (s : str) :
  m (Chr cls) s (fun rest => Some rest) <> None
  <-> exists y t, s = y :: t /\ cls y = true.
Proof.
  simpl. split.
  - destruct s as [| y t]; [congruence |].
    destruct (cls y) eqn:Hy; [eauto | congruence].
  - intros (y & t & -> & ->). discriminate.
Qed.

Lemma plus_spec (cls : cu -> bool) (s : str) :
  m (Plus cls) s (fun rest => Some rest) <> None
  <-> exists y t, s = y :: t /\ cls y = true.
Proof.
  simpl. split.
  - destruct s as [| y t]; [congruence |].
    destruct (cls y) eqn:Hy; [eauto | congruence].
  - intros (y & t & -> & ->). apply star_some.
Qed.

(** The two patterns of the filter together hold exactly of the lines
    that start with an integer, a dot and white space or a dash. *)
Lemma is_numbered_spec (l : str) :
  is_numbered l = true <-> starts_with_number space_or_dash l.
Proof.
  unfold is_numbered. rewrite orb_true_iff.
  unfold numbered_re, numbered_spaces_re.
  rewrite (digits_dot_spec (Chr space_or_dash) space_or_dash (chr_spec space_or_dash)).
  rewrite (digits_dot_spec (Plus is_space) is_space (plus_spec is_space)).
  split; [| now left].
  intros [H | (ds & c & rest & Hne & Hds & Hc & ->)]; [exact H |].
  exists ds, c, rest. repeat split; try assumption.
  unfold space_or_dash. now rewrite Hc.
Qed.

End NumberedLists.

Section NumberedListTheorem.
Import JS Value JSON Gemini Regex Ajv Server Contract Fixture.
Local Open Scope N_scope.

Lemma dropWhile_head (p : cu -> bool) (s : str) (c : cu) (t : str) :
  dropWhile p s = c :: t -> p c = false.
Proof.
  induction s as [| x s' IH]; simpl; [discriminate |].
  destruct (p x) eqn:Hx; [exact IH |]. now intros [= <- <-].
Qed.

Lemma dropWhile_fixed (p : cu -> bool) (c : cu) (t : str) :
  p c = false -> dropWhile p (c :: t) = c :: t.
Proof. intros H. simpl. now rewrite H. Qed.

Lemma dropWhile_suffix (p : cu -> bool) (s : str) :
  exists pre, s = pre ++ dropWhile p s.
Proof.
  induction s as [| x s' [pre IH]]; [now exists [] |].
  simpl. destruct (p x); [| now exists []].
  exists (x :: pre). simpl. now f_equal.
Qed.

(** Trimming a trimmed string changes nothing. *)
Lemma trim_idempotent (s : str) : trim (trim s) = trim s.
Proof.
  unfold trim. set (a := dropWhile is_space s).
  destruct (dropWhile is_space (rev a)) as [| y b] eqn:Hb; [reflexivity |].
  pose proof (dropWhile_head _ _ _ _ Hb) as Hy.
  destruct (dropWhile_suffix is_space (rev a)) as [pre Hpre]. rewrite Hb in Hpre.
  assert (a = rev (y :: b) ++ rev pre) as Ha.
  { rewrite <- rev_app_distr, <- Hpre. now rewrite rev_involutive. }
  destruct (rev (y :: b)) as [| x r] eqn:Hr.
  { apply (f_equal (@List.length N)) in Hr. rewrite length_rev in Hr. discriminate. }
  assert (is_space x = false) as Hx.
  { apply (dropWhile_head is_space s x (r ++ rev pre)).
    fold a. now rewrite Ha. }
  rewrite (dropWhile_fixed _ _ _ Hx), <- Hr, rev_involutive.
  now rewrite (dropWhile_fixed _ _ _ Hy).
Qed.

(** The lines the validator counts are non-empty and trimmed. *)
Lemma trimmed_lines_trimmed (s : str) :
  Forall (fun l => l <> [] /\ trim l = l) (trimmed_lines s).
Proof.
  unfold trimmed_lines. apply Forall_forall. intros l Hin.
  apply filter_In in Hin as [Hin Hne]. apply in_map_iff in Hin as (x & <- & _).
  split; [| apply trim_idempotent].
  destruct (trim x); discriminate.
Qed.

End NumberedListTheorem.

(* ===================================================================== *)
(** ** The wait after a 429 reply *)
(* ===================================================================== *)

Section RetryAfterHeader.
Import JS Value JSON Gemini RetryClient Fixture Contract Sample.

Lemma dropWhile_all (p : cu -> bool) (ws : str) :
  Forall (fun c => p c = true) ws -> dropWhile p ws = [].
Proof. induction 1 as [| c t Hc _ IH]; simpl; [| rewrite Hc]; auto. Qed.

Lemma dropWhile_past (p : cu -> bool) (ws rest : str) :
  Forall (fun c => p c = true) ws ->
  match rest with c :: _ => p c = false | [] => True end ->
  dropWhile p (ws ++ rest) = rest.
Proof.
  intros Hws Hrest. destruct rest as [| c t].
  - rewrite app_nil_r. now apply dropWhile_all.
  - now apply dropWhile_app.
Qed.

Lemma takeWhile_digits (ds rest : str) :
  Forall (fun c => is_digit c = true) ds -> no_digit_first rest ->
  takeWhile is_digit (ds ++ rest) = ds.
Proof.
  intros Hds Hrest. induction Hds as [| d t Hd _ IH]; cbn [app takeWhile].
  - destruct rest as [| c r]; [reflexivity |]. cbn [takeWhile].
    cbn in Hrest. now rewrite Hrest.
  - now rewrite Hd, IH.
Qed.

Lemma digit_no_sign (c : cu) :
  is_digit c = true -> N.eqb c 45 = false /\ N.eqb c 43 = false.
Proof.
  unfold is_digit, cu_in. intros Hc. apply andb_prop in Hc as [H1 H2].
  apply N.leb_le in H1, H2. split; apply N.eqb_neq; lia.
Qed.

(** [parseInt] reads the digits that follow the white space and the
    sign, and nothing after them. *)
Lemma parseInt_number (ws sign ds rest : str) :
  Forall (fun c => is_space c = true) ws -> is_sign sign ->
  ds <> [] -> Forall (fun c => is_digit c = true) ds -> no_digit_first rest ->
  parseInt (ws ++ sign ++ ds ++ rest)
  = Some (signed sign (Z.of_N (digits_value 0 ds))).
Proof.
  intros Hws Hsign Hne Hds Hrest. unfold parseInt.
  destruct ds as [| d ds']; [congruence |].
  inversion Hds as [| ? ? Hd Hds']; subst.
  destruct (digit_no_sign _ Hd) as [Hminus Hplus].
  pose proof (takeWhile_digits (d :: ds') rest Hds Hrest) as Htake.
  destruct Hsign as [-> | [-> | ->]]; cbn [app].
  - rewrite dropWhile_past by (auto using digit_not_space).
    cbn [app] in Htake. now rewrite Hminus, Hplus, Htake.
  - rewrite dropWhile_past by (auto; reflexivity).
    cbn [N.eqb Pos.eqb]. cbn [app] in Htake. now rewrite Htake.
  - rewrite dropWhile_past by (auto; reflexivity).
    cbn [N.eqb Pos.eqb]. cbn [app] in Htake. now rewrite Htake.
Qed.

(** Without a digit after the white space and the sign, [parseInt]
    gives NaN. *)
Lemma parseInt_nan (ws sign rest : str) :
  Forall (fun c => is_space c = true) ws -> is_sign sign ->
  no_digit_first rest -> (sign = [] -> no_number_first rest) ->
  parseInt (ws ++ sign ++ rest) = None.
Proof.
  intros Hws Hsign Hrest Hplain. unfold parseInt.
  assert (takeWhile is_digit rest = []) as Htake.
  { destruct rest as [| c r]; [reflexivity |]. cbn in Hrest. cbn [takeWhile].
    now rewrite Hrest. }
  destruct Hsign as [-> | [-> | ->]]; cbn [app].
  - specialize (Hplain eq_refl). destruct rest as [| c r].
    + rewrite app_nil_r, dropWhile_all by exact Hws. reflexivity.
    + destruct Hplain as (Hsp & _ & Hp & Hm).
      rewrite dropWhile_past by auto.
      apply N.eqb_neq in Hp, Hm. now rewrite Hm, Hp, Htake.
  - rewrite dropWhile_past by (auto; reflexivity).
    cbn [N.eqb Pos.eqb]. now rewrite Htake.
  - rewrite dropWhile_past by (auto; reflexivity).
    cbn [N.eqb Pos.eqb]. now rewrite Htake.
Qed.

(** Every header is read in one of these two ways. *)
Lemma header_read (h : str) :
  (exists ws sign ds rest,
     h = ws ++ sign ++ ds ++ rest
     /\ Forall (fun c => is_space c = true) ws /\ is_sign sign
     /\ ds <> [] /\ Forall (fun c => is_digit c = true) ds
     /\ no_digit_first rest)
  \/ (exists ws sign rest,
        h = ws ++ sign ++ rest
        /\ Forall (fun c => is_space c = true) ws /\ is_sign sign
        /\ no_digit_first rest /\ (sign = [] -> no_number_first rest)).
Proof.
  pose proof (take_drop is_space h) as Hh.
  pose proof (takeWhile_Forall is_space h) as Hws.
  set (ws := takeWhile is_space h) in *.
  assert (forall sign t, is_sign sign ->
            (sign = [] -> no_digit_first t -> no_number_first t) ->
            h = ws ++ sign ++ t ->
            (exists ws sign ds rest,
               h = ws ++ sign ++ ds ++ rest
               /\ Forall (fun c => is_space c = true) ws /\ is_sign sign
               /\ ds <> [] /\ Forall (fun c => is_digit c = true) ds
               /\ no_digit_first rest)
            \/ (exists ws sign rest,
                  h = ws ++ sign ++ rest
                  /\ Forall (fun c => is_space c = true) ws /\ is_sign sign
                  /\ no_digit_first rest /\ (sign = [] -> no_number_first rest)))
    as Hcase.
  { intros sign t Hsign Hplain Heq.
    destruct (takeWhile is_digit t) as [| d ds] eqn:Hds.
    - assert (no_digit_first t) as Hfirst.
      { destruct t as [| c r]; [exact I |]. cbn [takeWhile] in Hds. cbn.
        now destruct (is_digit c). }
      right. exists ws, sign, t.
      split; [exact Heq |]. split; [exact Hws |]. split; [exact Hsign |].
      split; [exact Hfirst |]. intros Hs. now apply Hplain.
    - left. exists ws, sign, (d :: ds), (dropWhile is_digit t).
      rewrite <- Hds, take_drop.
      split; [exact Heq |]. split; [exact Hws |]. split; [exact Hsign |].
      split; [rewrite Hds; discriminate |].
      split; [apply takeWhile_Forall |].
      destruct (dropWhile is_digit t) as [| c r] eqn:Hd; [exact I |].
      cbn. now apply dropWhile_head in Hd. }
  destruct (dropWhile is_space h) as [| c t] eqn:Hdrop.
  - apply (Hcase [] []); [now left | intros _ _; exact I |].
    now rewrite <- Hh.
  - pose proof (dropWhile_head _ _ _ _ Hdrop) as Hc.
    destruct (N.eqb c 45) eqn:Hminus.
    { apply N.eqb_eq in Hminus as ->.
      apply (Hcase [45%N] t); [right; now right | discriminate | now rewrite <- Hh]. }
    destruct (N.eqb c 43) eqn:Hplus.
    { apply N.eqb_eq in Hplus as ->.
      apply (Hcase [43%N] t); [right; now left | discriminate | now rewrite <- Hh]. }
    apply N.eqb_neq in Hminus, Hplus.
    apply (Hcase [] (c :: t)); [now left | | now rewrite <- Hh].
    intros _ Hd. cbn in Hd. cbn. auto.
Qed.

End RetryAfterHeader.

Section RateLimitWait.
Import JS Value JSON Gemini RetryClient Fixture Contract Sample.

(** C4, as stated, fails: each of these 429 replies carries a
    [retry-after] header while retries remain, and the wait is not the
    header's seconds.  With the header 7 and a body that cannot be read
    the client waits 1 second; with the header 1.5 it waits 1 second;
    with an HTTP date it waits NaN milliseconds. *)
Lemma C4_counterexample :
  callGeminiAPI unreadable_limit (lit "p")
    = Some (Returned (VStr (lit "hello")),
            {| calls := 2; sleeps := [Some 1000%Z] |})
  /\ callGeminiAPI fractional_limit (lit "p")
     = Some (Returned (VStr (lit "hello")),
             {| calls := 2; sleeps := [Some 1000%Z] |})
  /\ callGeminiAPI dated_limit (lit "p")
     = Some (Returned (VStr (lit "hello")),
             {| calls := 2; sleeps := [None] |}).
Proof. vm_compute. auto. Qed.

(** C4, amended.  Whenever call [k] (counted from 0) was made while
    retries remained and the endpoint answered it with status 429, the
    client makes a further call.  When the body of the reply can be
    read, the wait before that call is [parseInt(retryAfter, 10) * 1000]
    for a header that is a non-empty string, and [2^k] seconds for a
    header that is absent or empty.  [parseInt] skips white space, reads
    a sign and the digits that follow, and ignores the rest: with digits
    there the wait is their value, negated after a minus sign, times
    1000 (the product within 2^53, where the code's numbers are exact);
    with no digit there it is NaN.  Every header is read in one of these
    two ways.  When the body cannot be read, the wait is [2^k] seconds
    whatever the header. *)
Theorem C4_rate_limit_wait (env : endpoint) (prompt : str)
    (r : result value) (s : state) (k : nat) (resp : response) :
  callGeminiAPI env prompt = Some (r, s) ->
  k < calls s -> k < maxRetries ->
  env k prompt = Resolved resp -> status resp = 429%N ->
  S k < calls s
  /\ (forall text : str,
        body resp = Some text ->
        (retry_after resp = None \/ retry_after resp = Some [] ->
           nth_error (sleeps s) k = Some (Some (2 ^ Z.of_nat k * 1000)%Z))
        /\ (forall ws sign ds rest : str,
              retry_after resp = Some (ws ++ sign ++ ds ++ rest) ->
              Forall (fun c => is_space c = true) ws -> is_sign sign ->
              ds <> [] -> Forall (fun c => is_digit c = true) ds ->
              no_digit_first rest ->
              (Z.of_N (digits_value 0 ds) * 1000 <= 2 ^ 53)%Z ->
              nth_error (sleeps s) k
              = Some (Some (signed sign (Z.of_N (digits_value 0 ds)) * 1000)%Z))
        /\ (forall ws sign rest : str,
              retry_after resp = Some (ws ++ sign ++ rest) ->
              ws ++ sign ++ rest <> [] ->
              Forall (fun c => is_space c = true) ws -> is_sign sign ->
              no_digit_first rest -> (sign = [] -> no_number_first rest) ->
              nth_error (sleeps s) k = Some None))
  /\ (body resp = None ->
        nth_error (sleeps s) k = Some (Some (2 ^ Z.of_nat k * 1000)%Z))
  /\ (forall h : str,
        (exists ws sign ds rest,
           h = ws ++ sign ++ ds ++ rest
           /\ Forall (fun c => is_space c = true) ws /\ is_sign sign
           /\ ds <> [] /\ Forall (fun c => is_digit c = true) ds
           /\ no_digit_first rest)
        \/ (exists ws sign rest,
              h = ws ++ sign ++ rest
              /\ Forall (fun c => is_space c = true) ws /\ is_sign sign
              /\ no_digit_first rest /\ (sign = [] -> no_number_first rest))).
Proof.
  intros Hcall Hk Hlt Hresp Hstatus.
  destruct (callGeminiAPI_run env prompt) as (r' & s' & Hcall' & Hrun).
  rewrite Hcall in Hcall'. injection Hcall' as <- <-.
  pose proof (run_at _ _ _ _ _ _ Hrun k ltac:(lia)) as Hat.
  rewrite Hresp, Nat.sub_0_r in Hat.
  apply Nat.ltb_lt in Hlt as Hltb.
  destruct (body resp) as [text |] eqn:Hbody.
  - rewrite (try_block_429 _ _ _ Hstatus Hbody Hlt) in Hat.
    destruct Hat as [Hnext Hwait]. split; [exact Hnext |].
    split; [| split; [discriminate | exact header_read]].
    intros text' _. rewrite Hwait. unfold rate_limit_wait.
    split; [| split].
    + intros [-> | ->]; reflexivity.
    + intros ws sign ds rest -> Hws Hsign Hne Hds Hrest _.
      rewrite (parseInt_number _ _ _ _ Hws Hsign Hne Hds Hrest).
      destruct (ws ++ sign ++ ds ++ rest) eqn:Hh; [| reflexivity].
      apply app_eq_nil in Hh as [_ Hh]. apply app_eq_nil in Hh as [_ Hh].
      apply app_eq_nil in Hh as [Hh _]. congruence.
    + intros ws sign rest -> Hne Hws Hsign Hrest Hplain.
      rewrite (parseInt_nan _ _ _ Hws Hsign Hrest Hplain).
      destruct (ws ++ sign ++ rest); [congruence | reflexivity].
  - assert (try_block k (Resolved resp)
            = TThrow (NetworkError (lit "body"))) as Htry.
    { unfold try_block, ok. rewrite Hstatus, Hbody. reflexivity. }
    rewrite Htry, Hltb in Hat. destruct Hat as [Hnext Hwait].
    split; [exact Hnext |].
    split; [discriminate | split; [intros _; exact Hwait | exact header_read]].
Qed.

(** A header of seven seconds. *)
Lemma C4_rate_limit_wait_witness :
  exists r s,
    callGeminiAPI limited_once (lit "p") = Some (r, s)
    /\ 1 < calls s
    /\ nth_error (sleeps s) 0 = Some (Some 7000%Z).
Proof.
  exists (Returned (VStr (lit "hello"))),
         {| calls := 2; sleeps := [Some 7000%Z] |}.
  split; [reflexivity |].
  destruct (C4_rate_limit_wait limited_once (lit "p")
              (Returned (VStr (lit "hello")))
              {| calls := 2; sleeps := [Some 7000%Z] |} 0
              {| status := 429; retry_after := Some (lit "7");
                 body := Some (lit "error") |})
    as (Hnext & Hheader & _).
  - reflexivity.
  - simpl; lia.
  - unfold maxRetries; lia.
  - reflexivity.
  - reflexivity.
  - split; [exact Hnext |].
    destruct (Hheader (lit "error") eq_refl) as (_ & Hnumber & _).
    apply (Hnumber [] [] (lit "7") []).
    + reflexivity.
    + constructor.
    + now left.
    + discriminate.
    + repeat constructor.
    + exact I.
    + vm_compute. discriminate.
Defined.

End RateLimitWait.

(* ===================================================================== *)
(** ** The lines of a text *)
(* ===================================================================== *)

Section LinesOfText.
Import JS Value JSON Gemini Regex Ajv Server Contract Reading Fixture.
Local Open Scope N_scope.

(** Where the separator pattern matches: at a line feed, and at a
    carriage return that a line feed follows. *)
Lemma newline_at (c : cu) (t : str) :
  match_at newline_re (c :: t)
  = if N.eqb c 10 then Some [10]
    else if (N.eqb c 13 && starts_with_lf t)%bool then Some [13; 10]
    else None.
Proof.
  unfold match_at, newline_re. cbn [m]. unfold exactly.
  destruct (N.eqb c 10) eqn:Hlf.
  - apply N.eqb_eq in Hlf as ->. cbn [N.eqb Pos.eqb].
    cbn [List.length]. rewrite Nat.sub_succ_l, Nat.sub_diag by lia.
    reflexivity.
  - rewrite (N.eqb_sym 10 c), Hlf.
    destruct (N.eqb c 13) eqn:Hcr.
    + apply N.eqb_eq in Hcr as ->. rewrite N.eqb_refl. cbn [andb].
      destruct t as [| d t']; [reflexivity |]. cbn [starts_with_lf].
      rewrite (N.eqb_sym 10 d). destruct (N.eqb d 10) eqn:Hd; [| reflexivity].
      apply N.eqb_eq in Hd as ->. cbn [List.length].
      replace (S (S (List.length t')) - List.length t')%nat with 2%nat by lia.
      reflexivity.
    + rewrite (N.eqb_sym 13 c), Hcr. reflexivity.
Qed.

Lemma starts_with_lf_app (l rest : str) :
  ~ In 10 l -> l <> [] -> starts_with_lf (l ++ rest) = false.
Proof.
  destruct l as [| c l']; [congruence |]. intros Hin _. cbn [app starts_with_lf].
  apply N.eqb_neq. intros ->. apply Hin. now left.
Qed.

(** Reading one line: the units of a piece without a line feed are
    gathered, and at the line feed that ends it the piece is given out,
    without the carriage return that stood before the line feed. *)
Lemma split_piece (l : str) :
  ~ In 10 l ->
  forall cur : str,
    split_aux newline_re l cur 0 = [rev cur ++ l]
    /\ forall rest : str,
         exists p,
           split_aux newline_re (l ++ 10 :: rest) cur 0
           = p :: split_aux newline_re rest [] 0
           /\ (rev cur ++ l = p \/ rev cur ++ l = p ++ [13]).
Proof.
  induction l as [| c l' IH]; intros Hin cur.
  - split; [cbn; now rewrite app_nil_r |].
    intros rest. exists (rev cur). split; [| left; now rewrite app_nil_r].
    cbn [app split_aux]. now rewrite newline_at.
  - assert (c <> 10) as Hc by (intros ->; apply Hin; now left).
    assert (~ In 10 l') as Hin' by (intros H; apply Hin; now right).
    apply N.eqb_neq in Hc as Hcb.
    destruct (IH Hin' (c :: cur)) as [Hwhole Hpiece].
    cbn [rev] in Hwhole, Hpiece. split.
    + cbn [split_aux]. rewrite newline_at, Hcb.
      assert (starts_with_lf l' = false) as ->.
      { destruct l' as [| d l'']; [reflexivity |].
        rewrite <- (app_nil_r (d :: l'')). apply starts_with_lf_app; [exact Hin' | discriminate]. }
      rewrite andb_false_r. rewrite Hwhole. now rewrite <- app_assoc.
    + intros rest. cbn [app split_aux]. rewrite newline_at, Hcb.
      destruct l' as [| d l''].
      * cbn [app starts_with_lf]. cbn [N.eqb Pos.eqb]. rewrite andb_true_r.
        destruct (N.eqb c 13) eqn:Hcr.
        -- apply N.eqb_eq in Hcr as ->. exists (rev cur).
           split; [reflexivity | now right].
        -- destruct (Hpiece rest) as (p & Hsplit & Hp).
           cbn [app] in Hsplit. exists p. split; [exact Hsplit |].
           now rewrite <- app_assoc in Hp.
      * rewrite starts_with_lf_app by (auto; discriminate).
        rewrite andb_false_r.
        destruct (Hpiece rest) as (p & Hsplit & Hp).
        exists p. split; [exact Hsplit |]. now rewrite <- app_assoc in Hp.
Qed.

Lemma split_unfold (s : str) : split newline_re s = split_aux newline_re s [] 0.
Proof. destruct s; reflexivity. Qed.

(** The pieces [split] gives are the lines of the text, each without the
    carriage return at its end, if there was one before the line
    feed. *)
Lemma split_lines (ls : list str) :
  ls <> [] -> Forall (fun l => ~ In 10 l) ls ->
  Forall2 (fun p l => l = p \/ l = p ++ [13])
          (split_aux newline_re (join_lines ls) [] 0) ls.
Proof.
  induction ls as [| l rest IH]; [congruence |].
  intros _ Hall. inversion Hall as [| ? ? Hl Hrest]; subst.
  destruct rest as [| l2 rest'].
  - cbn [join_lines]. destruct (split_piece l Hl []) as [-> _].
    constructor; [now left | constructor].
  - change (join_lines (l :: l2 :: rest'))
      with (l ++ 10 :: join_lines (l2 :: rest')).
    destruct (split_piece l Hl []) as [_ Hpiece].
    destruct (Hpiece (join_lines (l2 :: rest'))) as (p & -> & Hp).
    constructor; [exact Hp |]. apply IH; [discriminate | exact Hrest].
Qed.

Lemma trim_all_space (l : str) :
  Forall (fun c => is_space c = true) l -> trim l = [].
Proof. intros H. unfold trim. now rewrite (dropWhile_all _ _ H). Qed.

(** What [trim] gives is the text without the white space at its
    ends. *)
Lemma trim_stripped (l : str) : stripped l (trim l).
Proof.
  unfold trim. set (y := dropWhile is_space l).
  exists (takeWhile is_space l), (rev (takeWhile is_space (rev y))).
  split; [| split; [apply takeWhile_Forall | split]].
  - rewrite <- rev_app_distr, take_drop, rev_involutive.
    symmetry. apply take_drop.
  - apply Forall_rev, takeWhile_Forall.
  - split.
    + pose proof (take_drop is_space (rev y)) as Hy.
      apply (f_equal (@rev N)) in Hy. rewrite rev_app_distr, rev_involutive in Hy.
      destruct (rev (dropWhile is_space (rev y))) as [| c t] eqn:Ht; [exact I |].
      cbn [app] in Hy. subst y. symmetry in Hy.
      now apply dropWhile_head in Hy.
    + rewrite rev_involutive.
      destruct (dropWhile is_space (rev y)) as [| c t] eqn:Ht; [exact I |].
      now apply dropWhile_head in Ht.
Qed.

(** And nothing else is. *)
Lemma stripped_trim (l t : str) : stripped l t -> t = trim l.
Proof.
  intros (a & b & -> & Ha & Hb & Hfirst & Hlast).
  destruct t as [| c t'].
  - cbn [app]. symmetry. apply trim_all_space. apply Forall_app. now split.
  - cbn in Hfirst. unfold trim. cbn [app].
    rewrite (dropWhile_app is_space a c (t' ++ b) Ha Hfirst).
    change (c :: t' ++ b) with ((c :: t') ++ b). rewrite rev_app_distr.
    destruct (rev (c :: t')) as [| c' r] eqn:Hr.
    { apply (f_equal (@List.length N)) in Hr. rewrite length_rev in Hr.
      discriminate. }
    rewrite (dropWhile_app is_space (rev b) c' r (Forall_rev Hb) Hlast).
    now rewrite <- Hr, rev_involutive.
Qed.

Lemma trim_without_cr (p : str) : trim (p ++ [13]) = trim p.
Proof.
  symmetry. apply stripped_trim.
  destruct (trim_stripped p) as (a & b & Hp & Ha & Hb & Hends).
  exists a, (b ++ [13]). split; [| split; [exact Ha | split; [| exact Hends]]].
  - rewrite Hp at 1. now rewrite <- !app_assoc.
  - apply Forall_app. split; [exact Hb | now repeat constructor].
Qed.

(** The lines the validator counts are the non-empty trimmed lines of
    the text. *)
Lemma trimmed_lines_of (s : str) (ls : list str) :
  lines_of s ls -> trimmed_lines s = filter not_empty (map trim ls).
Proof.
  intros (Hne & <- & Hall). unfold trimmed_lines. rewrite split_unfold.
  pose proof (split_lines ls Hne Hall) as Hsplit. clear Hne Hall.
  induction Hsplit as [| p l ps rest Hp _ IH]; [reflexivity |].
  cbn [map filter]. rewrite IH.
  assert (trim p = trim l) as -> by (destruct Hp as [-> | ->];
                                     [reflexivity | now rewrite trim_without_cr]).
  unfold nonempty. destruct (trim l); reflexivity.
Qed.

Lemma lines_exist (s : str) : exists ls, lines_of s ls.
Proof.
  induction s as [| c t (ls & Hne & Hjoin & Hall)].
  - exists [[]]. split; [discriminate |]. split; [reflexivity |].
    constructor; [intros [] | constructor].
  - destruct ls as [| l rest]; [congruence |].
    inversion Hall as [| ? ? Hl Hrest]; subst.
    destruct (N.eqb c 10) eqn:Hc.
    + apply N.eqb_eq in Hc as ->. exists ([] :: l :: rest).
      split; [discriminate |]. split; [reflexivity |].
      constructor; [intros [] | exact Hall].
    + apply N.eqb_neq in Hc. exists ((c :: l) :: rest).
      split; [discriminate |]. split.
      * cbn [join_lines]. now destruct rest.
      * constructor; [| exact Hrest]. intros [H | H]; [congruence | contradiction].
Qed.

Lemma counted_lines_trimmed (s : str) (ts : list str) :
  counted_lines s ts -> ts = trimmed_lines s.
Proof.
  intros (ls & trimmed & Hlines & Hstripped & ->).
  rewrite (trimmed_lines_of _ _ Hlines). f_equal. clear Hlines.
  induction Hstripped as [| l t ls' ts' Hlt _ IH]; [reflexivity |].
  cbn [map]. now rewrite <- (stripped_trim _ _ Hlt), IH.
Qed.

Lemma trimmed_lines_counted (s : str) : counted_lines s (trimmed_lines s).
Proof.
  destruct (lines_exist s) as [ls Hlines].
  exists ls, (map trim ls). split; [exact Hlines |].
  split; [| now apply trimmed_lines_of].
  clear Hlines. induction ls as [| l rest IH]; cbn [map]; constructor;
    [apply trim_stripped | exact IH].
Qed.

End LinesOfText.

Section NumberedListAccepted.
Import JS Value JSON Gemini Regex Ajv Server Contract Fixture.
Local Open Scope N_scope.

(** The count the validator makes, over the lines it computes. *)
Lemma accepted_by_count (s : str) :
  isNumberedMarkdownList (VStr s) = true
  <-> (Nat.max 1 (List.length (trimmed_lines s) / 2)
       <= List.length (filter is_numbered (trimmed_lines s)))%nat.
Proof.
  unfold isNumberedMarkdownList. destruct s as [| c t].
  - cbn. split; [discriminate | lia].
  - cbn [truthy negb].
    destruct (trimmed_lines (c :: t)) as [| l ls] eqn:Hlines.
    + cbn. split; [discriminate | lia].
    + cbn [List.length Nat.eqb]. apply Nat.leb_le.
Qed.

(** C7.  For every text, the lines the validator counts are the
    non-empty trimmed lines of the text: the pieces between its line
    feeds, each without the white space at its ends (a carriage return
    before a line feed is white space), the empty ones left out.  With
    [n] the number of these lines, [isNumberedMarkdownList] accepts the
    text if and only if at least [max(1, floor(n/2))] of them start with
    an integer immediately followed by a dot and white space or a dash:
    this is what the filter of the validator tests.  The text of three
    numbered steps is accepted, and the validator returns it after the
    first model call. *)
Theorem C7_numbered_list (s : str) :
  counted_lines s (trimmed_lines s)
  /\ (forall (ts : list str) (numbered : str -> bool),
        counted_lines s ts ->
        (forall l, numbered l = true <-> starts_with_number space_or_dash l) ->
        (isNumberedMarkdownList (VStr s) = true
         <-> (Nat.max 1 (List.length ts / 2)
              <= List.length (filter numbered ts))%nat))
  /\ (isNumberedMarkdownList (VStr s) = true
      <-> (Nat.max 1 (List.length (trimmed_lines s) / 2)
           <= List.length (filter is_numbered (trimmed_lines s)))%nat)
  /\ (forall l, is_numbered l = true <-> starts_with_number space_or_dash l)
  /\ Forall (fun l => l <> [] /\ trim l = l) (trimmed_lines s)
  /\ trimmed_lines three_steps = [lit "1. Do X"; lit "2. Do Y"; lit "3. Do Z"]
  /\ isNumberedMarkdownList (VStr three_steps) = true
  /\ (forall env prompt w,
        callGeminiAPI (env (calls w) prompt) = Returned (VStr three_steps) ->
        callGeminiWithRetry env prompt ExpectMarkdownList w
        = Some (VStr three_steps, sent prompt w)).
Proof.
  split; [apply trimmed_lines_counted |].
  split.
  { intros ts numbered Hts Hnumbered.
    rewrite (counted_lines_trimmed _ _ Hts).
    rewrite (filter_ext numbered is_numbered); [apply accepted_by_count |].
    intros l. pose proof (Hnumbered l) as H1. pose proof (is_numbered_spec l) as H2.
    destruct (numbered l), (is_numbered l); try reflexivity.
    - assert (false = true) by (apply H2, H1; reflexivity). discriminate.
    - assert (false = true) by (apply H1, H2; reflexivity). discriminate. }
  split; [apply accepted_by_count |].
  split; [exact is_numbered_spec |]. split; [apply trimmed_lines_trimmed |].
  split; [vm_compute; reflexivity |]. split; [vm_compute; reflexivity |].
  intros env prompt w Hreply. rewrite callGeminiWithRetry_eq.
  unfold two_tries. rewrite Hreply.
  change (accepted ExpectMarkdownList (VStr three_steps)) with true.
  reflexivity.
Qed.

Lemma C7_numbered_list_witness :
  isNumberedMarkdownList (VStr three_steps) = true.
Proof.
  destruct (C7_numbered_list three_steps) as (Hlines & Hcount & _ & Hnumbered & _).
  apply (Hcount _ is_numbered Hlines Hnumbered). vm_compute. repeat constructor.
Defined.

End NumberedListAccepted.

(* ===================================================================== *)
(** ** The retrying client: the first answer, the waits *)
(* ===================================================================== *)

Section RetryClientRuns.
Import JS Value JSON Gemini RetryClient Reading Fixture Sample.

Lemma try_block_answers (k : nat) (f : fetched) (v : value) :
  try_block k f = TReturn v <-> answers f v.
Proof.
  split.
  - apply try_block_return.
  - intros (resp & -> & Hok & Hread). unfold try_block.
    now rewrite Hok, Hread.
Qed.

Lemma try_block_wait (k : nat) (f : fetched) (waitMs : option Z) :
  try_block k f = TContinue waitMs ->
  exists resp, f = Resolved resp /\ waitMs = rate_limit_wait (retry_after resp) k.
Proof.
  unfold try_block. destruct f as [msg | resp]; [discriminate |].
  destruct (negb (ok resp)).
  - destruct (body resp); [| discriminate].
    destruct (N.eqb (status resp) 429 && Nat.ltb k maxRetries)%bool; [| discriminate].
    intros [= <-]. eauto.
  - destruct (read_reply resp); discriminate.
Qed.

(** A run goes on past every call that does not return. *)
Lemma run_reaches (env : endpoint) (prompt : str) k ws n r :
  run env prompt k ws n r ->
  forall j, k <= j <= maxRetries ->
    (forall i u, k <= i < j -> try_block i (env i prompt) <> TReturn u) ->
    j < n.
Proof.
  induction 1 as [k v Hk Htry | e Htry | k waitMs ws n r Hk Htry Hrun IH
                  | k e ws n r Hk Htry Hrun IH]; intros j Hj Hnone.
  - destruct (Nat.eq_dec j k) as [-> | Hne]; [lia |].
    exfalso. apply (Hnone k v); [lia | exact Htry].
  - lia.
  - destruct (Nat.eq_dec j k) as [-> | Hne].
    + pose proof (run_calls _ _ _ _ _ _ Hrun). lia.
    + apply IH; [lia |]. intros i u Hi. apply Hnone. lia.
  - destruct (Nat.eq_dec j k) as [-> | Hne].
    + pose proof (run_calls _ _ _ _ _ _ Hrun). lia.
    + apply IH; [lia |]. intros i u Hi. apply Hnone. lia.
Qed.

(** Without a [retry-after] header every wait of a run is the backoff of
    its attempt. *)
Lemma run_backoff (env : endpoint) (prompt : str) k ws n r :
  no_retry_after env prompt ->
  run env prompt k ws n r ->
  ws = map backoff (seq k (n - 1 - k)).
Proof.
  intros Hnone.
  induction 1 as [k v Hk Htry | e Htry | k waitMs ws n r Hk Htry Hrun IH
                  | k e ws n r Hk Htry Hrun IH].
  - replace (S k - 1 - k) with 0 by lia. reflexivity.
  - replace (S maxRetries - 1 - maxRetries) with 0 by lia. reflexivity.
  - pose proof (run_calls _ _ _ _ _ _ Hrun) as Hn.
    replace (n - 1 - k) with (S (n - 1 - S k)) by lia.
    cbn [seq map]. rewrite <- IH. f_equal.
    destruct (try_block_wait _ _ _ Htry) as (resp & Hresp & ->).
    unfold rate_limit_wait.
    destruct (Hnone _ _ Hresp) as [-> | ->]; reflexivity.
  - pose proof (run_calls _ _ _ _ _ _ Hrun) as Hn.
    replace (n - 1 - k) with (S (n - 1 - S k)) by lia.
    cbn [seq map]. now rewrite <- IH.
Qed.

(** X1.  The client returns the first answer it gets: when call [k]
    (counted from 0, [k <= 3]) is answered by a 2xx reply from which the
    text [v] is read, and no earlier call was, [callGeminiAPI] returns
    [v] after exactly [k + 1] calls and [k] waits; later replies of the
    endpoint are never asked for. *)
Theorem X1_first_answer_wins (env : endpoint) (prompt : str) (k : nat) (v : value) :
  k <= maxRetries ->
  answers (env k prompt) v ->
  (forall j u, j < k -> ~ answers (env j prompt) u) ->
  exists s,
    callGeminiAPI env prompt = Some (Returned v, s)
    /\ calls s = S k
    /\ List.length (sleeps s) = k.
Proof.
  intros Hk Hans Hfirst.
  destruct (callGeminiAPI_run env prompt) as (r & s & Hcall & Hrun).
  assert (k < calls s) as Hreached.
  { apply (run_reaches _ _ _ _ _ _ Hrun); [lia |].
    intros i u Hi Htry. apply (Hfirst i u); [lia |].
    now apply (try_block_answers i). }
  pose proof (run_at _ _ _ _ _ _ Hrun k ltac:(lia)) as Hat.
  apply (try_block_answers k) in Hans. rewrite Hans in Hat.
  destruct Hat as [-> Hn]. exists s. split; [exact Hcall |].
  split; [exact Hn |].
  pose proof (run_sleeps _ _ _ _ _ _ Hrun). lia.
Qed.

(** Two failures, then the answer: three calls, two waits. *)
Lemma X1_first_answer_wins_witness :
  exists s,
    callGeminiAPI third_time_lucky (lit "hi")
      = Some (Returned (VStr (lit "hello")), s)
    /\ calls s = 3 /\ List.length (sleeps s) = 2.
Proof.
  apply (X1_first_answer_wins third_time_lucky (lit "hi") 2 (VStr (lit "hello"))).
  - unfold maxRetries. lia.
  - eexists. split; [reflexivity |]. split; reflexivity.
  - intros j u Hj (resp & Hresp & Hok & _).
    destruct j as [| [| j]]; [| | lia].
    + vm_compute in Hresp. injection Hresp as <-. discriminate.
    + discriminate.
Defined.

(** X2.  When no reply carries a [retry-after] header (absent or empty),
    the waits are 1, 2 and 4 seconds in this order, one after each call
    but the last, whatever made the calls fail: a client that made [n]
    calls slept the first [n - 1] of them, never more than 7 seconds in
    all. *)
Theorem X2_backoff_schedule (env : endpoint) (prompt : str)
    (r : result value) (s : state) :
  no_retry_after env prompt ->
  callGeminiAPI env prompt = Some (r, s) ->
  sleeps s = firstn (calls s - 1) [Some 1000; Some 2000; Some 4000]%Z.
Proof.
  intros Hnone Hcall.
  destruct (callGeminiAPI_run env prompt) as (r' & s' & Hcall' & Hrun).
  rewrite Hcall in Hcall'. injection Hcall' as <- <-.
  rewrite (run_backoff _ _ _ _ _ _ Hnone Hrun).
  pose proof (run_calls _ _ _ _ _ _ Hrun) as Hn. unfold maxRetries in Hn.
  rewrite Nat.sub_0_r.
  destruct (calls s) as [| [| [| [| [| n]]]]]; try lia; reflexivity.
Qed.

Lemma X2_backoff_schedule_witness :
  exists r s,
    callGeminiAPI always_500 (lit "hi") = Some (r, s)
    /\ sleeps s = [Some 1000; Some 2000; Some 4000]%Z.
Proof.
  exists (Thrown (GeminiApiErrorText 500 (lit "error"))),
         {| calls := 4; sleeps := [Some 1000; Some 2000; Some 4000]%Z |}.
  split; [reflexivity |].
  apply (X2_backoff_schedule always_500 (lit "hi")
           (Thrown (GeminiApiErrorText 500 (lit "error")))
           {| calls := 4; sleeps := [Some 1000; Some 2000; Some 4000]%Z |}).
  - intros n resp Hresp. left.
    destruct n as [| [| [| [| n]]]]; try (injection Hresp as <-; reflexivity).
    destruct n; discriminate.
  - reflexivity.
Defined.

(** X3.  A [retry-after] header that does not start with a number (after
    white space it shows neither a digit nor a sign, as an HTTP date
    does) is read by [parseInt] as NaN: the client then sleeps for NaN
    milliseconds, not for the backoff of the attempt, and makes the next
    call. *)
Theorem X3_unreadable_retry_after (env : endpoint) (prompt : str)
    (r : result value) (s : state) (k : nat) (resp : response)
    (text : str) (c : cu) (t : str) :
  callGeminiAPI env prompt = Some (r, s) ->
  k < calls s -> k < maxRetries ->
  env k prompt = Resolved resp -> status resp = 429%N -> body resp = Some text ->
  retry_after resp = Some (c :: t) ->
  is_space c = false -> is_digit c = false -> c <> 45%N -> c <> 43%N ->
  S k < calls s /\ nth_error (sleeps s) k = Some None.
Proof.
  intros Hcall Hk Hlt Hresp Hstatus Hbody Hheader Hsp Hdig Hminus Hplus.
  destruct (callGeminiAPI_run env prompt) as (r' & s' & Hcall' & Hrun).
  rewrite Hcall in Hcall'. injection Hcall' as <- <-.
  pose proof (run_at _ _ _ _ _ _ Hrun k ltac:(lia)) as Hat.
  rewrite Hresp, (try_block_429 _ _ _ Hstatus Hbody Hlt), Nat.sub_0_r in Hat.
  destruct Hat as [Hnext Hwait]. split; [exact Hnext |].
  rewrite Hwait. unfold rate_limit_wait. rewrite Hheader. cbn [truthy].
  unfold parseInt. cbn [dropWhile]. rewrite Hsp.
  apply N.eqb_neq in Hminus, Hplus. rewrite Hminus, Hplus.
  cbn [takeWhile]. now rewrite Hdig.
Qed.

Lemma X3_unreadable_retry_after_witness :
  exists r s,
    callGeminiAPI dated_limit (lit "p") = Some (r, s)
    /\ 1 < calls s /\ nth_error (sleeps s) 0 = Some None.
Proof.
  exists (Returned (VStr (lit "hello"))), {| calls := 2; sleeps := [None] |}.
  split; [reflexivity |].
  apply (X3_unreadable_retry_after dated_limit (lit "p")
           (Returned (VStr (lit "hello"))) {| calls := 2; sleeps := [None] |} 0
           {| status := 429;
              retry_after := Some (lit "Wed, 21 Oct 2015 07:28:00 GMT");
              body := Some (lit "error") |}
           (lit "error") 87%N (lit "ed, 21 Oct 2015 07:28:00 GMT")).
  - reflexivity.
  - simpl; lia.
  - unfold maxRetries; lia.
  - reflexivity.
  - reflexivity.
  - reflexivity.
  - reflexivity.
  - reflexivity.
  - reflexivity.
  - discriminate.
  - discriminate.
Defined.

End RetryClientRuns.

(* ===================================================================== *)
(** ** What [extractJsonArray] returns *)
(* ===================================================================== *)

Section ExtractedArrays.
Import JS Value JSON Gemini Regex Ajv Server Reading.
Local Open Scope N_scope.

(** What the reader of array elements returns is an array. *)
Lemma parse_elements_array (fuel : nat) :
  forall (s : str) (acc : list value) (v : value) (r : str),
    parse_elements fuel s acc = POk v r -> exists l, v = VArr l.
Proof.
  induction fuel as [| fuel IH]; intros s acc v r; [discriminate |].
  cbn [parse_elements].
  destruct (parse_value fuel s) as [x rest | |]; try discriminate.
  destruct (skip_ws rest) as [| c t]; [discriminate |].
  destruct (N.eqb c 44); [apply IH |].
  destruct (N.eqb c 93); [| discriminate].
  intros [= <- _]. eauto.
Qed.

(** [JSON.parse] of a text that opens with a bracket gives an array. *)
Lemma JSON_parse_bracket (t : str) (v : value) :
  JSON_parse (91 :: t) = Some v -> exists l, v = VArr l.
Proof.
  unfold JSON_parse.
  destruct (parse_value (parse_fuel (91 :: t)) (91 :: t)) as [x rest | |] eqn:Hp;
    try discriminate.
  destruct (skip_ws rest); [| discriminate]. intros [= <-].
  unfold parse_fuel in Hp. rewrite Nat.add_1_r in Hp. cbn [parse_value] in Hp.
  change (skip_ws (91 :: t)) with (91 :: t) in Hp. cbn [N.eqb Pos.eqb] in Hp.
  destruct (skip_ws t) as [| d t']; [discriminate |].
  destruct (N.eqb d 93).
  - injection Hp as <- _. eauto.
  - eapply parse_elements_array. exact Hp.
Qed.

Lemma after_last_spec (c : cu) (s r : str) :
  after_last c s = Some r ->
  exists mid, s = mid ++ c :: r /\ Forall (fun x => x <> c) r.
Proof.
  revert r. induction s as [| x t IH]; intros r; [discriminate |].
  cbn [after_last]. destruct (after_last c t) as [r' |] eqn:Hlast.
  - intros [= <-]. destruct (IH r' eq_refl) as (mid & -> & Hr).
    exists (x :: mid). now split.
  - destruct (N.eqb c x) eqn:Hx; [| discriminate].
    intros [= <-]. apply N.eqb_eq in Hx as <-. exists []. split; [reflexivity |].
    clear IH. induction t as [| y t IH]; [constructor |].
    cbn [after_last] in Hlast. destruct (after_last c t); [discriminate |].
    destruct (N.eqb c y) eqn:Hy; [discriminate |].
    constructor; [| now apply IH].
    apply N.eqb_neq in Hy. congruence.
Qed.

(** The pattern matches from the first opening bracket to the last
    closing one, and nowhere else. *)
Lemma exec_json_array_inv (s matched : str) :
  exec json_array_re s = Some matched ->
  exists pre mid post,
    s = pre ++ 91 :: mid ++ 93 :: post
    /\ Forall (fun x => x <> 91) pre /\ Forall (fun x => x <> 93) post
    /\ matched = 91 :: mid ++ [93].
Proof.
  revert matched. induction s as [| x t IH]; intros matched.
  - cbn. discriminate.
  - cbn [exec]. destruct (N.eqb 91 x) eqn:Hx.
    + apply N.eqb_eq in Hx as <-.
      destruct (after_last 93 t) as [post |] eqn:Hlast.
      * destruct (after_last_spec _ _ _ Hlast) as (mid & -> & Hpost).
        rewrite (match_at_bracket mid post Hpost). intros [= <-].
        exists [], mid, post. repeat split; [constructor | exact Hpost].
      * assert (match_at json_array_re (91 :: t) = None) as ->.
        { unfold match_at, json_array_re. cbn [m]. unfold exactly at 1.
          rewrite N.eqb_refl.
          match goal with |- context [star ?p ?s ?k] =>
            replace (star p s k) with (after_last 93 s)
              by (symmetry; apply star_any_then; apply space_or_not)
          end.
          now rewrite Hlast. }
        intros Hexec. destruct (IH _ Hexec) as (pre & mid & post & -> & _ & _ & _).
        exfalso.
        replace (pre ++ 91 :: mid ++ 93 :: post)
          with ((pre ++ 91 :: mid) ++ 93 :: post) in Hlast
          by (now rewrite <- app_assoc).
        clear - Hlast. induction (pre ++ 91 :: mid) as [| y l IHl].
        -- cbn [app after_last] in Hlast.
           destruct (after_last 93 post); [discriminate |].
           now rewrite N.eqb_refl in Hlast.
        -- cbn [app after_last] in Hlast.
           destruct (after_last 93 (l ++ 93 :: post)); [discriminate |].
           now apply IHl.
    + assert (match_at json_array_re (x :: t) = None) as ->.
      { unfold match_at, json_array_re. cbn [m]. unfold exactly at 1.
        now rewrite Hx. }
      intros Hexec.
      destruct (IH _ Hexec) as (pre & mid & post & -> & Hpre & Hpost & ->).
      exists (x :: pre), mid, post. repeat split; [| exact Hpost].
      constructor; [| exact Hpre]. apply N.eqb_neq in Hx. congruence.
Qed.

(** X4.  [extractJsonArray] returns null or an array, never another
    value.  It returns the array [items] exactly when its argument is a
    string in which a first opening bracket is followed, somewhere, by a
    last closing bracket, and [JSON.parse] reads the span from the one
    to the other as [items]; what stands before and after the span is
    ignored. *)
Theorem X4_extractJsonArray_null_or_array (text : value) :
  (extractJsonArray text = VNull \/ exists items, extractJsonArray text = VArr items)
  /\ (forall items,
        extractJsonArray text = VArr items <->
        exists pre mid post,
          text = VStr (pre ++ 91 :: mid ++ 93 :: post)
          /\ Forall (fun x => x <> 91) pre /\ Forall (fun x => x <> 93) post
          /\ JSON_parse (91 :: mid ++ [93]) = Some (VArr items)).
Proof.
  split.
  - unfold extractJsonArray. destruct text; auto.
    destruct (negb (truthy (VStr s))); auto.
    destruct (exec json_array_re s) as [matched |] eqn:Hexec; auto.
    destruct (exec_json_array_inv _ _ Hexec) as (pre & mid & post & _ & _ & _ & ->).
    destruct (JSON_parse (91 :: mid ++ [93])) as [v |] eqn:Hp; auto.
    destruct (JSON_parse_bracket _ _ Hp) as [l ->]. eauto.
  - intros items. split.
    + unfold extractJsonArray. destruct text; try discriminate.
      destruct (negb (truthy (VStr s))); [discriminate |].
      destruct (exec json_array_re s) as [matched |] eqn:Hexec; [| discriminate].
      destruct (exec_json_array_inv _ _ Hexec)
        as (pre & mid & post & -> & Hpre & Hpost & ->).
      destruct (JSON_parse (91 :: mid ++ [93])) as [v |] eqn:Hp; [| discriminate].
      intros ->. exists pre, mid, post. auto.
    + intros (pre & mid & post & -> & Hpre & Hpost & Hp).
      now rewrite (extractJsonArray_span _ _ _ Hpre Hpost), Hp.
Qed.

End ExtractedArrays.

(* ===================================================================== *)
(** ** The serverless flashcards handler *)
(* ===================================================================== *)

Section ServerlessHandlers.
Import JS Value JSON Gemini RetryClient Reading Serverless.

Lemma extractJsonArray_cases (text : value) :
  Server.extractJsonArray text = VNull
  \/ exists t items, text = VStr t /\ Server.extractJsonArray text = VArr items.
Proof.
  unfold Server.extractJsonArray. destruct text; auto.
  destruct (negb (truthy (VStr s))); auto.
  destruct (Regex.exec Server.json_array_re s) as [matched |] eqn:Hexec; auto.
  destruct (exec_json_array_inv _ _ Hexec) as (pre & mid & post & _ & _ & _ & ->).
  destruct (JSON_parse (91%N :: mid ++ [93%N])) as [v |] eqn:Hp; auto.
  destruct (JSON_parse_bracket _ _ Hp) as [l ->]. eauto.
Qed.

(** X5.  The serverless flashcards handler always answers, after at
    most 4 calls of the endpoint; it calls the endpoint only for a POST
    with the key configured and a topic.  A 200 reply carries the text
    read from a 2xx reply of the last call; it has no warning exactly
    when that text is a string from which [extractJsonArray] gets an
    array (the array is not checked any further), and the warning
    otherwise.  A 500 reply with the error of a call is sent only after
    all 4 calls failed and 3 waits. *)
Theorem X5_serverless_flashcards (key : bool) (env : endpoint) (meth : method)
    (topic : str) :
  exists out s,
    flashcards_handler key env meth topic = Some (out, s)
    /\ calls s <= 4
    /\ (0 < calls s -> meth = POST /\ key = true /\ topic <> [])
    /\ (forall response warning,
          out = Json (Json200 response warning) ->
          (exists k, calls s = S k
                     /\ answers (env k (flashcards_prompt topic)) response)
          /\ (warning = None ->
                exists t items,
                  response = VStr t
                  /\ Server.extractJsonArray response = VArr items)
          /\ (warning <> None ->
                warning = Some Server.warning_text
                /\ Server.extractJsonArray (Server.or_empty response) = VNull))
    /\ (forall label e,
          out = Json (Json500 label e) ->
          label = None /\ calls s = 4 /\ List.length (sleeps s) = 3
          /\ try_block 3 (env 3 (flashcards_prompt topic)) = TThrow e).
Proof.
  unfold flashcards_handler.
  destruct meth.
  - exists Ended200, init. split; [reflexivity |].
    split; [simpl; lia |]. split; [simpl; lia |]. split; discriminate.
  - destruct key; cbn [negb].
    2:{ exists KeyNotConfigured, init. split; [reflexivity |].
        split; [simpl; lia |]. split; [simpl; lia |]. split; discriminate. }
    destruct topic as [| c t].
    { eexists; exists init. split; [reflexivity |].
      split; [simpl; lia |]. split; [simpl; lia |]. split; discriminate. }
    destruct (callGeminiAPI_run env (flashcards_prompt (c :: t)))
      as (r & s & Hcall & Hrun).
    rewrite Hcall.
    pose proof (run_calls _ _ _ _ _ _ Hrun) as Hn. unfold maxRetries in Hn.
    destruct r as [response | e].
    + destruct (run_returned _ _ _ _ _ _ Hrun) as (k & Hk & Htry).
      apply try_block_answers in Htry.
      destruct (extractJsonArray_cases (Server.or_empty response))
        as [Hnull | (t' & items & Hstr & Harr)].
      * rewrite Hnull. cbn [truthy negb].
        eexists; exists s. split; [reflexivity |].
        split; [lia |]. split; [intros _; repeat split; discriminate |].
        split; [| discriminate].
        intros ? ? [= <- <-]. split; [eauto |]. split; [discriminate |].
        intros _. split; [reflexivity | exact Hnull].
      * rewrite Harr. cbn [truthy negb].
        eexists; exists s. split; [reflexivity |].
        split; [lia |]. split; [intros _; repeat split; discriminate |].
        split; [| discriminate].
        intros ? ? [= <- <-]. split; [eauto |]. split; [| congruence].
        intros _. unfold Server.or_empty in Hstr, Harr.
        destruct (truthy response); [eauto |].
        injection Hstr as <-. discriminate.
    + destruct (run_thrown _ _ _ _ _ _ Hrun) as [Hcalls Hlast].
      eexists; exists s. split; [reflexivity |].
      split; [lia |]. split; [intros _; repeat split; discriminate |].
      split; [discriminate |].
      intros ? ? [= <- <-]. split; [reflexivity |].
      split; [exact Hcalls |]. split; [| exact Hlast].
      pose proof (run_sleeps _ _ _ _ _ _ Hrun). unfold maxRetries in *. lia.
  - destruct key; cbn [negb].
    + exists MethodNotAllowed, init. split; [reflexivity |].
      split; [simpl; lia |]. split; [simpl; lia |]. split; discriminate.
    + exists KeyNotConfigured, init. split; [reflexivity |].
      split; [simpl; lia |]. split; [simpl; lia |]. split; discriminate.
Qed.

End ServerlessHandlers.

(* ===================================================================== *)
(** ** The express server when calls fail *)
(* ===================================================================== *)

Section ServerFailures.
Import JS Value JSON Gemini Regex Ajv Server Reading Fixture Sample.

Lemma down_throws (env : endpoint) (n : nat) (p : str) :
  down env -> exists e, callGeminiAPI (env n p) = Thrown e.
Proof.
  intros Hdown. specialize (Hdown n p). unfold callGeminiAPI.
  destruct (env n p) as [msg | resp]; [eauto |].
  rewrite Hdown. cbn [negb]. destruct (body resp); eauto.
Qed.

Lemma two_tries_down (env : endpoint) (prompt : str) (opt : expect) (w : world) :
  down env ->
  two_tries env prompt opt w = (VNull, sent prompt (sent prompt w)).
Proof.
  intros Hdown. unfold two_tries.
  destruct (down_throws env (calls w) prompt Hdown) as [e1 ->].
  now destruct (down_throws env (S (calls w)) prompt Hdown) as [e2 ->].
Qed.

(** The validator writes nothing to the log. *)
Lemma two_tries_log (env : endpoint) (prompt : str) (opt : expect) (w : world) :
  bad_responses (snd (two_tries env prompt opt w)) = bad_responses w.
Proof.
  unfold two_tries.
  destruct (callGeminiAPI (env (calls w) prompt)) as [t1 | e1].
  - destruct (accepted opt t1); [reflexivity |].
    now destruct (callGeminiAPI (env (S (calls w)) (prompt ++ strengthening opt))).
  - now destruct (callGeminiAPI (env (S (calls w)) prompt)).
Qed.

(** What the validator accepts for a JSON array is a string. *)
Lemma accepted_json_string (text : value) :
  accepted ExpectJson text = true -> is_string text = true.
Proof.
  cbn [accepted]. unfold extractJsonArray. now destruct text.
Qed.

(** The validator returns a text that is not a string only as the reply
    to its second call. *)
Lemma two_tries_not_string (env : endpoint) (prompt : str) (w : world)
    (text : value) (w1 : world) :
  two_tries env prompt ExpectJson w = (text, w1) ->
  truthy text = true -> is_string text = false ->
  calls w1 = calls w + 2
  /\ exists p, callGeminiAPI (env (S (calls w)) p) = Returned text.
Proof.
  unfold two_tries.
  destruct (callGeminiAPI (env (calls w) prompt)) as [t1 | e1].
  - destruct (accepted ExpectJson t1) eqn:Hacc.
    + intros [= <- <-] _ Hstr. apply accepted_json_string in Hacc. congruence.
    + destruct (callGeminiAPI (env (S (calls w)) (prompt ++ strengthening ExpectJson)))
        as [t2 | e2] eqn:Hsecond.
      * intros [= <- <-] _ _. cbn [sent calls]. split; [lia | eauto].
      * intros [= <- <-]. discriminate.
  - destruct (callGeminiAPI (env (S (calls w)) prompt)) as [t2 | e2] eqn:Hsecond.
    + intros [= <- <-] _ _. cbn [sent calls]. split; [lia | eauto].
    + intros [= <- <-]. discriminate.
Qed.

(** X6.  When the first call of [callGeminiWithRetry] fails (the network
    rejects it, the status is not 2xx, or the reply holds no text), the
    second call is made with the unchanged prompt, no corrective
    instruction added, and what it answers is returned as it is, not
    validated, whatever shape was expected; when it fails too the result
    is null.  The invocation does not throw. *)
Theorem X6_failed_call_retried (env : endpoint) (prompt : str) (opt : expect)
    (w : world) (e : error) :
  callGeminiAPI (env (calls w) prompt) = Thrown e ->
  exists v w',
    callGeminiWithRetry env prompt opt w = Some (v, w')
    /\ calls w' = calls w + 2
    /\ prompts w' = prompts w ++ [prompt; prompt]
    /\ (forall text,
          callGeminiAPI (env (S (calls w)) prompt) = Returned text -> v = text)
    /\ (forall e2,
          callGeminiAPI (env (S (calls w)) prompt) = Thrown e2 -> v = VNull).
Proof.
  intros Hfirst. rewrite callGeminiWithRetry_eq. unfold two_tries. rewrite Hfirst.
  destruct (callGeminiAPI (env (S (calls w)) prompt)) as [t2 | e2];
    eexists; eexists; (split; [reflexivity |]);
    cbn [sent calls prompts]; rewrite <- app_assoc;
    (split; [lia |]); (split; [reflexivity |]); split; congruence.
Qed.

(** A rejected call, then prose where a JSON array was expected: the
    prose is returned. *)
Lemma X6_failed_call_retried_witness :
  exists w',
    callGeminiWithRetry (scripted [Rejected (lit "reset"); says (lit "a")])
      (lit "p") ExpectJson start = Some (VStr (lit "a"), w')
    /\ prompts w' = [lit "p"; lit "p"].
Proof.
  destruct (X6_failed_call_retried
              (scripted [Rejected (lit "reset"); says (lit "a")])
              (lit "p") ExpectJson start (NetworkError (lit "reset")) eq_refl)
    as (v & w' & Hcall & _ & Hprompts & Hsecond & _).
  exists w'. rewrite Hcall, (Hsecond (VStr (lit "a")) eq_refl).
  split; [reflexivity | exact Hprompts].
Defined.

(** X7.  The chat route of the express server answers a request that has
    a prompt with status 200 and no warning, whatever the endpoint does:
    a failing call never becomes an error reply.  When every call fails,
    the reply carries [response: null], after 2 calls made with one and
    the same prompt. *)
Theorem X7_chat_route_hides_failures (env : endpoint) (prompt : str) :
  prompt <> [] ->
  exists response w',
    ask env prompt start = Some (Json200 response None, w')
    /\ (down env ->
          response = VNull /\ calls w' = 2
          /\ exists p, prompts w' = [p; p]).
Proof.
  intros Hprompt. unfold ask. destruct prompt as [| c t]; [congruence |].
  rewrite callGeminiWithRetry_eq.
  match goal with |- context [two_tries env ?p ?o start] =>
    pose proof (two_tries_down env p o start) as Hdown;
    destruct (two_tries env p o start) as [response w1]
  end.
  exists response, w1. split; [reflexivity |].
  intros Hd. specialize (Hdown Hd). injection Hdown as -> ->.
  split; [reflexivity |]. split; [reflexivity |]. cbn [sent prompts start app].
  eauto.
Qed.

Lemma X7_chat_route_hides_failures_witness :
  exists w',
    ask unreachable (lit "hi") start = Some (Json200 VNull None, w')
    /\ calls w' = 2.
Proof.
  destruct (X7_chat_route_hides_failures unreachable (lit "hi"))
    as (response & w' & Hask & Hdown); [discriminate |].
  destruct Hdown as (-> & Hcalls & _).
  - intros n p. exact I.
  - exists w'. split; [exact Hask | exact Hcalls].
Defined.

Lemma json_route_down (env : endpoint) (name failure : str)
    (valid : value -> bool) (prompt : str) :
  down env ->
  exists w',
    json_route name failure valid env prompt start
      = Some (Json200 VNull (Some warning_text), w')
    /\ calls w' = 4
    /\ bad_responses w'
       = [{| endpoint_name := name;
             logged_prompt := substring0 500 prompt;
             logged_response := [] |}].
Proof.
  intros Hdown. unfold json_route.
  rewrite callGeminiWithRetry_eq, (two_tries_down _ _ _ _ Hdown).
  cbn [or_empty truthy extractJsonArray negb orb logBadResponse substring0 firstn].
  rewrite callGeminiWithRetry_eq, (two_tries_down _ _ _ _ Hdown).
  cbn [or_empty truthy extractJsonArray negb andb].
  eexists. split; [reflexivity |]. split; reflexivity.
Qed.

(** X8.  When every call of the endpoint fails, the flashcards and the
    quiz routes of the express server still answer 200: the reply
    carries [response: null] and the warning, after 4 calls, and one
    entry with an empty response was written to the log of bad
    responses. *)
Theorem X8_json_routes_when_down (env : endpoint) (topic : str) :
  down env -> topic <> [] ->
  (exists w',
     flashcards env topic start = Some (Json200 VNull (Some warning_text), w')
     /\ calls w' = 4
     /\ bad_responses w'
        = [{| endpoint_name := lit "/api/flashcards";
              logged_prompt := substring0 500 (flashcards_prompt topic);
              logged_response := [] |}])
  /\ (exists w',
        quiz env topic start = Some (Json200 VNull (Some warning_text), w')
        /\ calls w' = 4
        /\ bad_responses w'
           = [{| endpoint_name := lit "/api/quiz";
                 logged_prompt := substring0 500 (quiz_prompt topic ++ quiz_suffix);
                 logged_response := [] |}]).
Proof.
  intros Hdown Htopic. unfold flashcards, quiz.
  destruct topic as [| c t]; [congruence |].
  split; now apply json_route_down.
Qed.

Lemma X8_json_routes_when_down_witness :
  exists w',
    flashcards unreachable (lit "sets") start
      = Some (Json200 VNull (Some warning_text), w')
    /\ calls w' = 4.
Proof.
  destruct (X8_json_routes_when_down unreachable (lit "sets"))
    as [(w' & Hroute & Hcalls & _) _].
  - intros n p. exact I.
  - discriminate.
  - exists w'. split; [exact Hroute | exact Hcalls].
Defined.

Lemma json_route_500 (env : endpoint) (name failure : str)
    (valid : value -> bool) (prompt : str) (label : option str) (e : error)
    (w' : world) :
  json_route name failure valid env prompt start = Some (Json500 label e, w') ->
  label = Some failure /\ e = TypeError
  /\ calls w' = 2 /\ bad_responses w' = []
  /\ exists p text,
       callGeminiAPI (env 1 p) = Returned text
       /\ truthy text = true /\ is_string text = false.
Proof.
  unfold json_route. rewrite callGeminiWithRetry_eq.
  pose proof (two_tries_log env prompt ExpectJson start) as Hlog.
  destruct (two_tries env prompt ExpectJson start) as [response w1] eqn:Htries.
  cbn [snd] in Hlog.
  destruct (negb (truthy (extractJsonArray (or_empty response)))
            || negb (valid (extractJsonArray (or_empty response))))%bool;
    [| discriminate].
  unfold logBadResponse, or_empty.
  destruct (truthy response) eqn:Htruthy.
  - destruct response; try discriminate;
      try (intros [= <- <- <-];
           destruct (two_tries_not_string _ _ _ _ _ Htries Htruthy eq_refl)
             as (Hcalls & p & Hp);
           split; [reflexivity |]; split; [reflexivity |];
           split; [exact Hcalls |]; split; [exact Hlog |];
           eexists; eexists; split; [exact Hp |]; split; [exact Htruthy | reflexivity]).
    rewrite callGeminiWithRetry_eq.
    match goal with |- context [two_tries env ?p ?o ?w] =>
      destruct (two_tries env p o w) as [retry w3] end.
    match goal with |- context [if ?c then _ else _] => destruct c end; discriminate.
  - rewrite callGeminiWithRetry_eq.
    match goal with |- context [two_tries env ?p ?o ?w] =>
      destruct (two_tries env p o w) as [retry w3] end.
    match goal with |- context [if ?c then _ else _] => destruct c end; discriminate.
Qed.

(** X9.  The flashcards and the quiz routes answer 500 in one case only:
    the text the model returned is truthy and not a string, so that the
    logger's call of [substring] throws a TypeError.  It is the reply to
    the second call; no further call is made and nothing is logged.  A
    failing call, or a text that is not JSON, never gives a 500. *)
Theorem X9_json_routes_500 (env : endpoint) (topic : str)
    (label : option str) (e : error) (w' : world) :
  flashcards env topic start = Some (Json500 label e, w')
  \/ quiz env topic start = Some (Json500 label e, w') ->
  e = TypeError
  /\ calls w' = 2 /\ bad_responses w' = []
  /\ exists p text,
       callGeminiAPI (env 1 p) = Returned text
       /\ truthy text = true /\ is_string text = false.
Proof.
  unfold flashcards, quiz. destruct topic as [| c t].
  - intros [H | H]; discriminate.
  - intros [H | H]; apply json_route_500 in H; tauto.
Qed.

Lemma X9_json_routes_500_witness :
  exists p text,
    callGeminiAPI (five_twice 1 p) = Returned text
    /\ truthy text = true /\ is_string text = false.
Proof.
  destruct (X9_json_routes_500 five_twice (lit "sets")
              (Some (lit "Failed to generate flashcards")) TypeError
              {| calls := 2;
                 prompts := [flashcards_prompt (lit "sets");
                             flashcards_prompt (lit "sets") ++ strengthen_json];
                 bad_responses := [] |})
    as (_ & _ & _ & H).
  - left. vm_compute. reflexivity.
  - exact H.
Defined.

(** The prompts one invocation of the validator sends. *)
Lemma two_tries_prompts (env : endpoint) (prompt : str) (opt : expect) (w : world) :
  exists second,
    prompts (snd (two_tries env prompt opt w)) = prompts w ++ prompt :: second
    /\ (second = [] \/ second = [prompt]
        \/ second = [prompt ++ strengthening opt]).
Proof.
  unfold two_tries.
  destruct (callGeminiAPI (env (calls w) prompt)) as [t1 | e1].
  - destruct (accepted opt t1); [exists []; cbn [snd sent prompts]; auto |].
    exists [prompt ++ strengthening opt].
    destruct (callGeminiAPI (env (S (calls w)) (prompt ++ strengthening opt)));
      cbn [snd sent prompts]; rewrite <- app_assoc; auto.
  - exists [prompt].
    destruct (callGeminiAPI (env (S (calls w)) prompt));
      cbn [snd sent prompts]; rewrite <- app_assoc; auto.
Qed.

Lemma stricter_not_sent (env : endpoint) (prompt : str) (w1 : world) :
  w1 = snd (two_tries env prompt ExpectJson start) ->
  ~ In (prompt ++ stricter) (prompts w1).
Proof.
  intros ->.
  destruct (two_tries_prompts env prompt ExpectJson start) as (second & -> & Hsecond).
  cbn [start prompts app]. intros [Heq | Hin].
  - rewrite <- (app_nil_r prompt) in Heq at 1. apply app_inv_head in Heq.
    discriminate.
  - destruct Hsecond as [-> | [-> | ->]]; [destruct Hin | |];
      destruct Hin as [Heq | []].
    + rewrite <- (app_nil_r prompt) in Heq at 1. apply app_inv_head in Heq.
      discriminate.
    + apply app_inv_head in Heq. vm_compute in Heq. discriminate.
Qed.

Lemma json_route_log (env : endpoint) (name failure : str)
    (valid : value -> bool) (prompt : str) (out : http) (w' : world) :
  json_route name failure valid env prompt start = Some (out, w') ->
  logs_at_most_once name prompt w'.
Proof.
  unfold json_route. rewrite callGeminiWithRetry_eq.
  pose proof (two_tries_log env prompt ExpectJson start) as Hlog.
  pose proof (stricter_not_sent env prompt _ eq_refl) as Hnot.
  destruct (two_tries env prompt ExpectJson start) as [response w1].
  cbn [snd start bad_responses] in Hlog, Hnot.
  destruct (negb (truthy (extractJsonArray (or_empty response)))
            || negb (valid (extractJsonArray (or_empty response))))%bool.
  2:{ intros [= <- <-]. left. split; [exact Hlog | exact Hnot]. }
  unfold logBadResponse. destruct (or_empty response) as [| | | | r | |];
    try (intros [= <- <-]; left; split; [exact Hlog | exact Hnot]).
  rewrite callGeminiWithRetry_eq.
  match goal with |- context [two_tries env ?p ?o ?w] =>
    pose proof (two_tries_log env p o w) as Hlog2;
    destruct (two_tries_prompts env p o w) as (second & Hprompts & _);
    destruct (two_tries env p o w) as [retry w3] end.
  cbn [snd prompts bad_responses] in Hlog2, Hprompts. rewrite Hlog in Hlog2.
  intros Hout.
  assert (w' = w3) as ->.
  { destruct (truthy (extractJsonArray (or_empty retry))
              && valid (extractJsonArray (or_empty retry)))%bool;
      now injection Hout as _ <-. }
  right. eexists. split; [exact Hlog2 |].
  cbn [endpoint_name logged_prompt logged_response]. unfold substring0.
  split; [reflexivity |]. split; [reflexivity |].
  split; [apply firstn_le_length |]. split; [apply firstn_le_length |].
  rewrite Hprompts. apply in_or_app. right. now left.
Qed.

(** X10.  A request to the flashcards or the quiz route appends at most
    one entry to the log of bad responses.  The entry is written exactly
    when the prompt with the stricter instruction is sent; it names the
    route and holds the first 500 units of the prompt and at most 2000
    units of the response. *)
Theorem X10_bad_response_log (env : endpoint) (topic : str) (out : http)
    (w' : world) :
  (flashcards env topic start = Some (out, w') ->
     logs_at_most_once (lit "/api/flashcards") (flashcards_prompt topic) w')
  /\ (quiz env topic start = Some (out, w') ->
        logs_at_most_once (lit "/api/quiz") (quiz_prompt topic ++ quiz_suffix) w').
Proof.
  unfold flashcards, quiz. destruct topic as [| c t].
  - split; intros [= <- <-]; left; split;
      [reflexivity | intros [] | reflexivity | intros []].
  - split; apply json_route_log.
Qed.

(** Four replies of prose: the stricter prompt is sent and one entry is
    written. *)
Lemma X10_bad_response_log_witness :
  exists out w',
    flashcards (scripted four_prose) (lit "sets") start = Some (out, w')
    /\ logs_at_most_once (lit "/api/flashcards") (flashcards_prompt (lit "sets")) w'.
Proof.
  destruct (flashcards (scripted four_prose) (lit "sets") start)
    as [[out w'] |] eqn:Hroute.
  - exists out, w'. split; [reflexivity |].
    exact (proj1 (X10_bad_response_log (scripted four_prose) (lit "sets") out w')
             Hroute).
  - exfalso. vm_compute in Hroute. discriminate.
Defined.

End ServerFailures.

(* ===================================================================== *)
(** ** The flashcard schema, the pattern of the chat route *)
(* ===================================================================== *)

Section FlashcardSchema.
Import JS Value JSON Gemini Regex Ajv Server Reading Fixture.
Local Open Scope N_scope.

Lemma flashcard_item_validated (item : value) :
  validate (SObject [(lit "question", SString); (lit "answer", SString)]
                    [lit "question"; lit "answer"]) item = true
  <-> is_flashcard item.
Proof.
  split.
  - destruct item as [| | | | | | members]; try discriminate.
    cbn [validate]. intros H. apply andb_prop in H as [Hreq Hprops].
    cbn [forallb] in Hreq.
    apply andb_prop in Hreq as [Hq Hreq]. apply andb_prop in Hreq as [Ha _].
    apply andb_prop in Hprops as [Pq Hprops]. apply andb_prop in Hprops as [Pa _].
    destruct (required_string _ _ Hq Pq) as [q Eq].
    destruct (required_string _ _ Ha Pa) as [a Ea].
    exists members, q, a. auto.
  - intros (members & q & a & -> & Hq & Ha).
    cbn [validate forallb]. unfold has_member. rewrite Hq, Ha. reflexivity.
Qed.

(** X11.  [validateFlashcards], and [validateCompany] with it, accepts a
    payload exactly when it is an array, of any length, the empty one
    included, whose every element is an object with a string [question]
    and a string [answer]; members beyond these two are not looked at. *)
Theorem X11_flashcards_validated (payload : value) :
  (validateFlashcards payload = true
   <-> exists items, payload = VArr items /\ Forall is_flashcard items)
  /\ validateCompany payload = validateFlashcards payload.
Proof.
  split; [| reflexivity].
  unfold validateFlashcards, flashcardSchema. split.
  - destruct payload; try discriminate.
    cbn [validate at_least at_most andb]. intros Hitems.
    exists l. split; [reflexivity |].
    rewrite forallb_forall in Hitems. apply Forall_forall.
    intros item Hin. apply flashcard_item_validated. now apply Hitems.
  - intros (items & -> & Hitems).
    cbn [validate at_least at_most andb]. apply forallb_forall.
    rewrite Forall_forall in Hitems.
    intros item Hin. apply flashcard_item_validated. now apply Hitems.
Qed.

End FlashcardSchema.

Section StepsPattern.
Import JS Value JSON Gemini Regex Ajv Server Reading Fixture.
Local Open Scope N_scope.

Lemma letter_class (c x : cu) :
  (if cu_in 97 122 c then ci c else exactly c) x = true <-> same_letter c x.
Proof.
  unfold same_letter. destruct (cu_in 97 122 c).
  - unfold ci. rewrite orb_true_iff, !N.eqb_eq. intuition.
  - unfold exactly. rewrite N.eqb_eq. intuition congruence.
Qed.

(** A word under the [i] flag matches its spellings in either case. *)
Lemma m_word_ci (A : Type) (w : str) :
  forall (s : str) (k : str -> option A) (x : A),
    m (word_ci w) s k = Some x
    <-> exists w' rest,
          s = w' ++ rest /\ Forall2 same_letter w w' /\ k rest = Some x.
Proof.
  induction w as [| c t IH]; intros s k x.
  - cbn [word_ci m]. split.
    + intros H. exists [], s. repeat split; [constructor | exact H].
    + intros (w' & rest & -> & Hw & H). inversion Hw; subst. exact H.
  - cbn [word_ci m]. split.
    + destruct s as [| y s']; [discriminate |].
      destruct ((if cu_in 97 122 c then ci c else exactly c) y) eqn:Hy;
        [| discriminate].
      intros H. apply IH in H as (w' & rest & -> & Hw & H).
      exists (y :: w'), rest. repeat split; [| exact H].
      constructor; [now apply letter_class | exact Hw].
    + intros (w' & rest & -> & Hw & H).
      inversion Hw as [| ? y ? w'' Hy Hw']; subst. cbn [app].
      apply letter_class in Hy. rewrite Hy. apply IH. eauto.
Qed.

Lemma exec_none (r : regex) (s : str) :
  exec r s = None <-> forall pre rest, s = pre ++ rest -> match_at r rest = None.
Proof.
  induction s as [| c t IH].
  - cbn [exec]. split.
    + intros H pre rest Heq. symmetry in Heq. apply app_eq_nil in Heq as [_ ->].
      now destruct (match_at r []).
    + intros H. now rewrite (H [] [] eq_refl).
  - cbn [exec]. split.
    + destruct (match_at r (c :: t)) eqn:Hm; [discriminate |].
      intros H pre rest Heq. destruct pre as [| y pre].
      * cbn [app] in Heq. now subst.
      * injection Heq as -> ->. rewrite IH in H. now apply (H pre).
    + intros H. rewrite (H [] (c :: t) eq_refl). apply IH.
      intros pre rest ->. apply (H (c :: pre)). reflexivity.
Qed.

Lemma test_true (r : regex) (s : str) :
  test r s = true
  <-> exists pre rest x, s = pre ++ rest /\ m r rest (fun y => Some y) = Some x.
Proof.
  unfold test. split.
  - destruct (exec r s) as [found |] eqn:Hexec; [| discriminate]. intros _.
    revert Hexec. clear. induction s as [| c t IH]; cbn [exec].
    + unfold match_at.
      destruct (m r [] (fun y => Some y)) as [x |] eqn:Hm; [| discriminate].
      intros _. exists [], [], x. auto.
    + unfold match_at at 1.
      destruct (m r (c :: t) (fun y => Some y)) as [x |] eqn:Hm.
      * intros _. exists [], (c :: t), x. auto.
      * intros H. destruct (IH H) as (pre & rest & x & -> & Hx).
        exists (c :: pre), rest, x. auto.
  - intros (pre & rest & x & -> & Hx).
    destruct (exec r (pre ++ rest)) eqn:Hexec; [reflexivity |].
    rewrite exec_none in Hexec. specialize (Hexec pre rest eq_refl).
    unfold match_at in Hexec. now rewrite Hx in Hexec.
Qed.

Lemma contains_longer (word more s : str) :
  contains_word (word ++ more) s -> contains_word word s.
Proof.
  intros (pre & w & post & -> & Hw).
  apply Forall2_app_inv_l in Hw as (w1 & w2 & H1 & _ & ->).
  exists pre, w1, (w2 ++ post). split; [now rewrite <- app_assoc | exact H1].
Qed.

Lemma word_found (word pre rest x : str) :
  m (word_ci word) rest (fun y => Some y) = Some x ->
  contains_word word (pre ++ rest).
Proof.
  intros H. apply m_word_ci in H as (w' & post & -> & Hw & _).
  now exists pre, w', post.
Qed.

(** X12.  The pattern that makes the chat route ask for a numbered list
    accepts a prompt exactly when the prompt holds the letters of [step]
    or of [procedure] somewhere, in either case, also inside a longer
    word; the alternatives [steps], [step-by-step] and [stepwise] add
    nothing. *)
Theorem X12_steps_pattern (prompt : str) :
  test steps_re prompt = true
  <-> contains_word (lit "step") prompt \/ contains_word (lit "procedure") prompt.
Proof.
  rewrite test_true. split.
  - intros (pre & rest & x & -> & H). unfold steps_re in H. cbn [m] in H.
    destruct (m (word_ci (lit "step")) rest (fun y => Some y)) eqn:H1.
    { left. eapply word_found. exact H1. }
    destruct (m (word_ci (lit "steps")) rest (fun y => Some y)) eqn:H2.
    { left. apply (contains_longer _ (lit "s")). eapply word_found. exact H2. }
    destruct (m (word_ci (lit "step-by-step")) rest (fun y => Some y)) eqn:H3.
    { left. apply (contains_longer _ (lit "-by-step")). eapply word_found. exact H3. }
    destruct (m (word_ci (lit "stepwise")) rest (fun y => Some y)) eqn:H4.
    { left. apply (contains_longer _ (lit "wise")). eapply word_found. exact H4. }
    right. eapply word_found. exact H.
  - intros [(pre & w & post & -> & Hw) | (pre & w & post & -> & Hw)].
    + exists pre, (w ++ post), post. split; [reflexivity |].
      unfold steps_re. cbn [m].
      assert (m (word_ci (lit "step")) (w ++ post) (fun y => Some y) = Some post)
        as -> by (apply m_word_ci; eauto).
      reflexivity.
    + assert (m (word_ci (lit "procedure")) (w ++ post) (fun y => Some y) = Some post)
        as Hp by (apply m_word_ci; eauto).
      exists pre, (w ++ post). unfold steps_re. cbn [m].
      destruct (m (word_ci (lit "step")) (w ++ post) (fun y => Some y)); [eauto |].
      destruct (m (word_ci (lit "steps")) (w ++ post) (fun y => Some y)); [eauto |].
      destruct (m (word_ci (lit "step-by-step")) (w ++ post) (fun y => Some y)); [eauto |].
      destruct (m (word_ci (lit "stepwise")) (w ++ post) (fun y => Some y)); [eauto |].
      rewrite Hp. eauto.
Qed.

End StepsPattern.

(* ===================================================================== *)
(** ** The browser client: cleaning the text *)
(* ===================================================================== *)

Section CleanedText.
Import JS Value JSON Gemini Regex Client Contract Reading.
Local Open Scope N_scope.

Lemma star_greedy (p : cu -> bool) (s : str) :
  star p s (fun rest => Some rest) = Some (dropWhile p s).
Proof.
  induction s as [| c t IH]; [reflexivity |].
  cbn [star dropWhile]. destruct (p c); [now rewrite IH | reflexivity].
Qed.

(** What a greedy repetition followed by [k] matches: some units of the
    class, then what [k] accepts. *)
Lemma star_inv (A : Type) (p : cu -> bool) (k : str -> option A) (s : str) (x : A) :
  star p s k = Some x ->
  exists ds rest,
    s = ds ++ rest /\ Forall (fun c => p c = true) ds /\ k rest = Some x.
Proof.
  induction s as [| c t IH]; cbn [star].
  - intros H. exists [], []. auto.
  - destruct (p c) eqn:Hc.
    + destruct (star p t k) as [y |] eqn:Hstar.
      * intros [= <-]. destruct (IH eq_refl) as (ds & rest & -> & Hds & Hk).
        exists (c :: ds), rest. auto.
      * intros H. exists [], (c :: t). auto.
    + intros H. exists [], (c :: t). auto.
Qed.

(** Skipping the units of a match is reading on after it. *)
Lemma replace_skip (find : str -> option (str * str)) (n : nat) :
  forall s, (n <= List.length s)%nat ->
    replace_aux find s n = replace_aux find (skipn n s) 0.
Proof.
  induction n as [| n IH]; intros s Hn; [reflexivity |].
  destruct s as [| c t]; [simpl in Hn; lia |].
  cbn [replace_aux skipn]. apply IH. simpl in Hn. lia.
Qed.

(** Where the pattern matches nowhere, nothing is replaced. *)
Lemma replace_none (find : str -> option (str * str)) (s : str) :
  (forall pre rest, s = pre ++ rest -> find rest = None) ->
  replace find s = s.
Proof.
  unfold replace. induction s as [| c t IH]; intros Hnone.
  - cbn [replace_aux]. now rewrite (Hnone [] [] eq_refl).
  - cbn [replace_aux]. rewrite (Hnone [] (c :: t) eq_refl). f_equal.
    apply IH. intros pre rest ->. apply (Hnone (c :: pre)). reflexivity.
Qed.

Lemma skipn_takeWhile (p : cu -> bool) (s : str) :
  skipn (List.length s - List.length (dropWhile p s)) s = dropWhile p s.
Proof.
  induction s as [| c t IH]; [reflexivity |].
  cbn [dropWhile]. destruct (p c).
  - pose proof (dropWhile_length p t) as Hle.
    replace (List.length (c :: t) - List.length (dropWhile p t))%nat
      with (S (List.length t - List.length (dropWhile p t)))
      by (cbn [List.length]; lia).
    exact IH.
  - now rewrite Nat.sub_diag.
Qed.

(** Three line feeds in a row. *)
Lemma triple_cons (c : cu) (t a b : str) :
  c :: t = a ++ 10 :: 10 :: 10 :: b ->
  (a = [] /\ c = 10 /\ t = 10 :: 10 :: b)
  \/ exists a', a = c :: a' /\ t = a' ++ 10 :: 10 :: 10 :: b.
Proof.
  destruct a as [| x a']; cbn [app]; intros [= -> ->]; eauto.
Qed.

Lemma one_blank_line_other (c : cu) (t : str) :
  c <> 10 -> one_blank_line (c :: t) = None.
Proof.
  intros Hc. unfold one_blank_line, blank_lines_re. cbn [m]. unfold exactly at 1.
  apply N.eqb_neq in Hc. rewrite N.eqb_sym in Hc. now rewrite Hc.
Qed.

Lemma one_blank_line_single (t : str) :
  starts_with_lf t = false -> one_blank_line (10 :: t) = None.
Proof.
  unfold one_blank_line, blank_lines_re. cbn [m]. unfold exactly at 1.
  cbn [N.eqb Pos.eqb]. destruct t as [| c t]; [reflexivity |].
  unfold exactly at 1. cbn [starts_with_lf]. rewrite N.eqb_sym. now intros ->.
Qed.

Lemma one_blank_line_run (t : str) :
  one_blank_line (10 :: 10 :: t)
  = Some (LF ++ LF, dropWhile (exactly 10) t).
Proof.
  unfold one_blank_line, blank_lines_re. cbn [m]. unfold exactly at 1 2.
  cbn [N.eqb Pos.eqb]. now rewrite star_greedy.
Qed.

Lemma after_line_feeds (t : str) :
  starts_with_lf (dropWhile (exactly 10) t) = false.
Proof.
  destruct (dropWhile (exactly 10) t) as [| y r] eqn:Hy; [reflexivity |].
  apply dropWhile_head in Hy. unfold exactly in Hy. cbn [starts_with_lf].
  now rewrite N.eqb_sym.
Qed.

(** After the fourth replacement no three line feeds follow one another,
    and the text starts with a line feed only if it did before. *)
Lemma blank_lines_collapsed (n : nat) :
  forall s, (List.length s <= n)%nat ->
    (forall a b, replace one_blank_line s <> a ++ 10 :: 10 :: 10 :: b)
    /\ (starts_with_lf s = false ->
        starts_with_lf (replace one_blank_line s) = false).
Proof.
  unfold replace. induction n as [| n IH]; intros s Hlen.
  - destruct s; [| simpl in Hlen; lia]. cbn. split; [| auto].
    intros a b H. now destruct a.
  - destruct s as [| c t].
    { cbn. split; [| auto]. intros a b H. now destruct a. }
    cbn [List.length] in Hlen. cbn [replace_aux].
    destruct (N.eqb c 10) eqn:Hc.
    + apply N.eqb_eq in Hc as ->. split; [| discriminate].
      destruct t as [| d t'].
      { cbn. intros a b H. destruct a as [| ? [| ? ?]]; discriminate. }
      destruct (N.eqb d 10) eqn:Hd.
      * apply N.eqb_eq in Hd as ->. rewrite one_blank_line_run.
        pose proof (dropWhile_length (exactly 10) t') as Hdrop.
        replace (List.length (10%N :: 10%N :: t')
                 - List.length (dropWhile (exactly 10) t'))%nat
          with (S (S (List.length t' - List.length (dropWhile (exactly 10) t'))))%nat
          by (cbn [List.length]; lia).
        rewrite replace_skip by (cbn [List.length]; lia).
        cbn [skipn]. rewrite skipn_takeWhile.
        destruct (IH (dropWhile (exactly 10) t')) as [Hno Hstart];
          [cbn [List.length] in Hlen; lia |].
        specialize (Hstart (after_line_feeds t')).
        intros a b H. cbn [LF app] in H.
        apply triple_cons in H as [(_ & _ & H) | (a1 & -> & H)].
        -- injection H as H. rewrite H in Hstart. discriminate.
        -- apply triple_cons in H as [(_ & _ & H) | (a2 & -> & H)].
           ++ rewrite H in Hstart. discriminate.
           ++ exact (Hno _ _ H).
      * rewrite one_blank_line_single by exact Hd.
        destruct (IH (d :: t')) as [Hno Hstart]; [lia |].
        specialize (Hstart Hd).
        intros a b H. apply triple_cons in H as [(_ & _ & H) | (a1 & -> & H)].
        -- rewrite H in Hstart. discriminate.
        -- exact (Hno _ _ H).
    + assert (c <> 10) as Hne by (now apply N.eqb_neq).
      rewrite (one_blank_line_other _ _ Hne).
      destruct (IH t) as [Hno _]; [lia |]. split.
      * intros a b H. apply triple_cons in H as [(_ & H & _) | (a1 & -> & H)].
        -- congruence.
        -- exact (Hno _ _ H).
      * intros _. exact Hc.
Qed.

(** What [trim] keeps stands in the text as it is. *)
Lemma trim_infix (s : str) : exists pre post, s = pre ++ trim s ++ post.
Proof.
  unfold trim.
  destruct (dropWhile_suffix is_space s) as [pre Hpre].
  destruct (dropWhile_suffix is_space (rev (dropWhile is_space s))) as [post Hpost].
  exists pre, (rev post). rewrite <- rev_app_distr, <- Hpost, rev_involutive.
  exact Hpre.
Qed.

(** X13.  What [cleanNumberedSteps] makes of a string has no white space
    at either end: it is empty, or its first and its last unit are no
    white space.  And it never holds three line feeds in a row: between
    two lines there is at most one blank line. *)
Theorem X13_cleaned_text_spacing (s : str) :
  exists out,
    cleanNumberedSteps (VStr s) = VStr out
    /\ no_space_at_ends out
    /\ trim out = out
    /\ forall a b, out <> a ++ 10 :: 10 :: 10 :: b.
Proof.
  unfold cleanNumberedSteps. destruct s as [| c t].
  - exists []. split; [reflexivity |]. split; [split; exact I |].
    split; [reflexivity |]. intros a b H. now destruct a.
  - cbn [truthy negb].
    set (s3 := replace newline_before_token
                 (replace newline_before_step
                    (replace space_after_marker (c :: t)))).
    exists (trim (replace one_blank_line s3)). split; [reflexivity |].
    split.
    { destruct (trim_stripped (replace one_blank_line s3))
        as (_ & _ & _ & _ & _ & Hends). exact Hends. }
    split; [apply trim_idempotent |].
    intros a b H.
    destruct (trim_infix (replace one_blank_line s3)) as (pre & post & Hin).
    rewrite H in Hin.
    destruct (blank_lines_collapsed (List.length s3) s3 (le_n _)) as [Hno _].
    apply (Hno (pre ++ a) (b ++ post)). rewrite Hin.
    now rewrite <- !app_assoc.
Qed.

(** Spaces around a text with four line feeds in a row. *)
Lemma X13_cleaned_text_spacing_witness :
  cleanNumberedSteps (VStr (lit "  a" ++ LF ++ LF ++ LF ++ LF ++ lit "b "))
  = VStr (lit "a" ++ LF ++ LF ++ lit "b")
  /\ no_space_at_ends (lit "a" ++ LF ++ LF ++ lit "b").
Proof.
  destruct (X13_cleaned_text_spacing
              (lit "  a" ++ LF ++ LF ++ LF ++ LF ++ lit "b "))
    as (out & Hout & Hends & _).
  assert (out = lit "a" ++ LF ++ LF ++ lit "b") as ->.
  { vm_compute in Hout. injection Hout as <-. reflexivity. }
  split; [exact Hout | exact Hends].
Defined.

End CleanedText.

Section PlainText.
Import JS Value JSON Gemini Regex Client Reading.
Local Open Scope N_scope.

Lemma no_marker_at (a : str) :
  forall (s : str) (d c : cu) (b : str),
    no_marker s = true -> s = a ++ d :: c :: b -> is_digit d = true ->
    (N.eqb c 46 || N.eqb c 41)%bool = false.
Proof.
  induction a as [| x a IH]; intros s d c b Hs -> Hd.
  - cbn [app no_marker] in Hs. rewrite Hd in Hs.
    apply andb_prop in Hs as [Hs _]. now destruct (N.eqb c 46 || N.eqb c 41)%bool.
  - cbn [app no_marker] in Hs. apply andb_prop in Hs as [_ Hs].
    exact (IH _ d c b Hs eq_refl Hd).
Qed.

Lemma no_marker_suffix (pre rest : str) :
  no_marker (pre ++ rest) = true -> no_marker rest = true.
Proof.
  induction pre as [| x pre IH]; [auto |].
  cbn [app no_marker]. intros H. apply andb_prop in H as [_ H]. auto.
Qed.

Lemma no_blank_line_suffix (pre rest : str) :
  no_blank_line (pre ++ rest) = true -> no_blank_line rest = true.
Proof.
  induction pre as [| x pre IH]; [auto |].
  cbn [app no_blank_line]. intros H. apply andb_prop in H as [_ H]. auto.
Qed.

(** A run of digits and a unit of [q]: where such a pattern matches, a
    digit stands directly before a unit of [q]. *)
Lemma digits_then_inv (A : Type) (q : cu -> bool) (k : str -> option A)
    (s : str) (x : A) :
  m (Cat (Plus is_digit) (Chr q)) s k = Some x ->
  exists a d c b, s = a ++ d :: c :: b /\ is_digit d = true /\ q c = true.
Proof.
  cbn [m]. destruct s as [| d0 t]; [discriminate |].
  destruct (is_digit d0) eqn:Hd0; [| discriminate].
  intros H. apply star_inv in H as (ds & rest & -> & Hds & Hk).
  destruct rest as [| c b]; [discriminate |].
  destruct (q c) eqn:Hc; [| discriminate].
  destruct (@exists_last _ (d0 :: ds)) as (l & d & Hl); [discriminate |].
  assert (Forall (fun c => is_digit c = true) (d0 :: ds)) as Hall
    by (now constructor).
  rewrite Hl in Hall. apply Forall_app in Hall as [_ Hd].
  inversion Hd as [| ? ? Hdigit _]; subst.
  exists l, d, c, b. split; [| auto].
  change (d0 :: ds ++ c :: b) with ((d0 :: ds) ++ c :: b).
  rewrite Hl, <- app_assoc. reflexivity.
Qed.

Lemma no_match_of_marker (A : Type) (q : cu -> bool) (k : str -> option A)
    (s : str) :
  no_marker s = true ->
  (forall c, q c = true -> (N.eqb c 46 || N.eqb c 41)%bool = true) ->
  m (Cat (Plus is_digit) (Chr q)) s k = None.
Proof.
  intros Hs Hq.
  destruct (m (Cat (Plus is_digit) (Chr q)) s k) as [x |] eqn:Hm; [| reflexivity].
  apply digits_then_inv in Hm as (a & d & c & b & Heq & Hd & Hc).
  pose proof (no_marker_at _ _ _ _ _ Hs Heq Hd) as Hno.
  rewrite (Hq _ Hc) in Hno. discriminate.
Qed.

Lemma dot_is_marker (c : cu) :
  exactly 46 c = true -> (N.eqb c 46 || N.eqb c 41)%bool = true.
Proof. unfold exactly. rewrite N.eqb_sym. now intros ->. Qed.

Lemma space_after_marker_none (s : str) :
  no_marker s = true -> space_after_marker s = None.
Proof.
  intros Hs. unfold space_after_marker, marker_re.
  now rewrite no_match_of_marker by auto.
Qed.

Lemma newline_before_step_none (s : str) :
  no_marker s = true -> newline_before_step s = None.
Proof.
  intros Hs. unfold newline_before_step. cbn [m].
  destruct s as [| c s1]; [reflexivity |].
  destruct (negb (N.eqb c 10)); [| reflexivity].
  match goal with |- star ?p ?s ?k = None =>
    destruct (star p s k) as [x |] eqn:Hstar; [| reflexivity] end.
  apply star_inv in Hstar as (ws & s2 & -> & _ & Hm).
  unfold numbered_token_re in Hm.
  rewrite no_match_of_marker in Hm; [discriminate | | apply dot_is_marker].
  apply (no_marker_suffix (c :: ws)). exact Hs.
Qed.

Lemma newline_before_token_none (s : str) :
  no_marker s = true -> newline_before_token s = None.
Proof.
  intros Hs. unfold newline_before_token, numbered_token_re.
  now rewrite no_match_of_marker by (auto using dot_is_marker).
Qed.

Lemma one_blank_line_none (s : str) :
  no_blank_line s = true -> one_blank_line s = None.
Proof.
  destruct s as [| c t]; [reflexivity |].
  cbn [no_blank_line]. intros H. apply andb_prop in H as [H _].
  destruct (N.eqb c 10) eqn:Hc.
  - apply N.eqb_eq in Hc as ->. apply one_blank_line_single.
    now destruct (starts_with_lf t).
  - apply one_blank_line_other. now apply N.eqb_neq.
Qed.

(** X14.  A text in which no digit is directly followed by a dot or a
    closing parenthesis, and no line feed by another, is only trimmed by
    [cleanNumberedSteps]: the four replacements leave it as it is. *)
Theorem X14_plain_text_only_trimmed (s : str) :
  no_marker s = true -> no_blank_line s = true ->
  cleanNumberedSteps (VStr s) = VStr (trim s).
Proof.
  intros Hmarker Hblank. unfold cleanNumberedSteps.
  destruct s as [| c t]; [reflexivity |]. cbn [truthy negb].
  rewrite (replace_none space_after_marker)
    by (intros pre rest Heq; apply space_after_marker_none;
        apply (no_marker_suffix pre); now rewrite <- Heq).
  rewrite (replace_none newline_before_step)
    by (intros pre rest Heq; apply newline_before_step_none;
        apply (no_marker_suffix pre); now rewrite <- Heq).
  rewrite (replace_none newline_before_token)
    by (intros pre rest Heq; apply newline_before_token_none;
        apply (no_marker_suffix pre); now rewrite <- Heq).
  rewrite (replace_none one_blank_line)
    by (intros pre rest Heq; apply one_blank_line_none;
        apply (no_blank_line_suffix pre); now rewrite <- Heq).
  reflexivity.
Qed.

(** A sentence with a digit in it and spaces around it. *)
Lemma X14_plain_text_only_trimmed_witness :
  cleanNumberedSteps (VStr (lit " See chapter 2 of the book. "))
  = VStr (lit "See chapter 2 of the book.").
Proof.
  apply (X14_plain_text_only_trimmed (lit " See chapter 2 of the book. "));
    reflexivity.
Defined.

End PlainText.

(* ===================================================================== *)
(** ** The browser client behind its proxies *)
(* ===================================================================== *)

Section ClientBehindProxy.
Import JS Value JSON Gemini Regex Client Reading Sample.
Local Open Scope N_scope.

(** With the endpoint down the retrying client throws, after 4 calls. *)
Lemma retrying_client_down (env : endpoint) (prompt : str) :
  down env ->
  exists e s,
    RetryClient.callGeminiAPI env prompt = Some (Thrown e, s)
    /\ RetryClient.calls s = 4%nat.
Proof.
  intros Hdown.
  destruct (callGeminiAPI_run env prompt) as (r & s & Hcall & Hrun).
  destruct r as [v | e].
  - destruct (run_returned _ _ _ _ _ _ Hrun) as (j & _ & Htry).
    apply try_block_return in Htry as (resp & Hresp & Hok & _).
    specialize (Hdown j prompt). rewrite Hresp in Hdown. congruence.
  - destruct (run_thrown _ _ _ _ _ _ Hrun) as [Hcalls _]. eauto.
Qed.

Lemma chat_route_down (env : endpoint) (prompt : str) :
  down env -> prompt <> [] ->
  exists w, Server.ask env prompt Server.start = Some (Json200 VNull None, w).
Proof.
  intros Hdown Hprompt. unfold Server.ask.
  destruct prompt as [| c t]; [congruence |].
  rewrite callGeminiWithRetry_eq, (two_tries_down _ _ _ _ Hdown). eauto.
Qed.

Lemma askAI_prompt_not_empty (question : str) : askAI_prompt question <> [].
Proof. unfold askAI_prompt. discriminate. Qed.

Lemma generateFlashcards_prompt_not_empty (topic : str) :
  generateFlashcards_prompt topic <> [].
Proof. unfold generateFlashcards_prompt. discriminate. Qed.

(** X15.  What the user of the browser client sees when every call of
    the endpoint fails depends on the proxy.  Behind the express server,
    whose chat route answers 200 with [response: null], [askAI] resolves
    with the sentence [Sorry, I could not generate a response.] and
    [generateFlashcards] with one fallback card whose answer is that
    sentence followed by three dots.  Behind the serverless handler,
    which answers 500 after its 4 calls, [askAI] rejects and
    [generateFlashcards] gives the one error card. *)
Theorem X15_outage_seen_by_client (env : endpoint) (now : nat -> str)
    (question topic : str) :
  down env ->
  (exists h w,
     Server.ask env (askAI_prompt question) Server.start = Some (h, w)
     /\ forall p, delivers h p -> askAI p = Some (VStr sorry))
  /\ (exists h w,
        Server.ask env (generateFlashcards_prompt topic) Server.start = Some (h, w)
        /\ forall p, delivers h p ->
             generateFlashcards now topic p = [fallback_card now topic sorry])
  /\ (exists h s,
        Serverless.ask_handler env Serverless.POST (askAI_prompt question)
          = Some (Serverless.Json h, s)
        /\ forall p, delivers h p -> askAI p = None)
  /\ (exists h s,
        Serverless.ask_handler env Serverless.POST
          (generateFlashcards_prompt topic) = Some (Serverless.Json h, s)
        /\ forall p, delivers h p ->
             generateFlashcards now topic p = [error_card now topic]).
Proof.
  intros Hdown.
  assert (cleanNumberedSteps (VStr sorry) = VStr sorry) as Hclean
    by (vm_compute; reflexivity).
  assert (exec Server.json_array_re sorry = None) as Hexec
    by (vm_compute; reflexivity).
  split; [| split; [| split]].
  - destruct (chat_route_down env _ Hdown (askAI_prompt_not_empty question))
      as [w Hask].
    eexists; exists w. split; [exact Hask |].
    intros p Hp. inversion Hp; subst. unfold askAI.
    change (callGemini _) with (Some (VStr sorry)). cbv beta iota.
    now rewrite Hclean.
  - destruct (chat_route_down env _ Hdown
                (generateFlashcards_prompt_not_empty topic)) as [w Hask].
    eexists; exists w. split; [exact Hask |].
    intros p Hp. inversion Hp; subst. unfold generateFlashcards.
    change (callGemini _) with (Some (VStr sorry)). cbv beta iota.
    now rewrite Hclean, Hexec.
  - destruct (retrying_client_down env (askAI_prompt question) Hdown)
      as (e & s & Hcall & _).
    exists (Json500 None e), s. split.
    + unfold Serverless.ask_handler, RetryClient.ask.
      destruct (askAI_prompt question) eqn:Hp;
        [now apply askAI_prompt_not_empty in Hp |].
      now rewrite Hcall.
    + intros p Hp. inversion Hp; subst. reflexivity.
  - destruct (retrying_client_down env (generateFlashcards_prompt topic) Hdown)
      as (e & s & Hcall & _).
    exists (Json500 None e), s. split.
    + unfold Serverless.ask_handler, RetryClient.ask.
      destruct (generateFlashcards_prompt topic) eqn:Hp;
        [now apply generateFlashcards_prompt_not_empty in Hp |].
      now rewrite Hcall.
    + intros p Hp. inversion Hp; subst. reflexivity.
Qed.

Lemma X15_outage_seen_by_client_witness :
  exists h w,
    Server.ask unreachable (askAI_prompt (lit "Why?")) Server.start = Some (h, w)
    /\ forall p, delivers h p -> askAI p = Some (VStr sorry).
Proof.
  apply (X15_outage_seen_by_client unreachable (fun _ => lit "0")
           (lit "Why?") (lit "sets")).
  intros n p. exact I.
Defined.

End ClientBehindProxy.

Section NumberedTokens.
Import JS Value JSON Gemini Regex Client Reading.
Local Open Scope N_scope.

Lemma after_digits_dot_cons (x : cu) (t : str) :
  after_digits_dot (x :: t)
  = if is_digit x then after_digits_dot t else N.eqb x 46.
Proof. unfold after_digits_dot. cbn [dropWhile]. now destruct (is_digit x). Qed.

(** The third pattern matches at a digit whose run ends in a dot. *)
Lemma newline_before_token_at (c : cu) (t : str) :
  newline_before_token (c :: t)
  = if (is_digit c && after_digits_dot t)%bool
    then Some (LF ++ c :: takeWhile is_digit t ++ [46],
               tl (dropWhile is_digit t))
    else None.
Proof.
  unfold newline_before_token, numbered_token_re, after_digits_dot. cbn [m].
  destruct (is_digit c); [| reflexivity]. cbn [andb].
  rewrite star_no_backtrack.
  2:{ intros d r Hd. unfold exactly.
      destruct (N.eqb 46 d) eqn:E; [| reflexivity].
      apply N.eqb_eq in E as <-. discriminate. }
  pose proof (take_drop is_digit t) as Ht.
  destruct (dropWhile is_digit t) as [| d rest]; [reflexivity |].
  unfold exactly. rewrite N.eqb_sym.
  destruct (N.eqb d 46) eqn:Hd; [| reflexivity].
  apply N.eqb_eq in Hd as ->. cbn [tl].
  assert (matched (c :: t) rest = c :: takeWhile is_digit t ++ [46]) as ->;
    [| reflexivity].
  unfold matched. rewrite <- Ht at 1 2.
  replace (List.length (c :: takeWhile is_digit t ++ 46%N :: rest)
           - List.length rest)%nat
    with (S (List.length (takeWhile is_digit t ++ [46%N]) + 0))%nat
    by (cbn [List.length]; rewrite !length_app; cbn [List.length]; lia).
  cbn [firstn]. f_equal.
  replace (takeWhile is_digit t ++ 46 :: rest)
    with ((takeWhile is_digit t ++ [46]) ++ rest)
    by (now rewrite <- app_assoc).
  now rewrite firstn_app_2, firstn_O, app_nil_r.
Qed.

Lemma token_replaced_none (c : cu) (t : str) :
  (is_digit c && after_digits_dot t)%bool = false ->
  replace newline_before_token (c :: t) = c :: replace newline_before_token t.
Proof.
  intros H. unfold replace. cbn [replace_aux].
  now rewrite newline_before_token_at, H.
Qed.

Lemma token_replaced (c : cu) (t : str) :
  (is_digit c && after_digits_dot t)%bool = true ->
  replace newline_before_token (c :: t)
  = 10 :: c :: takeWhile is_digit t
    ++ 46 :: replace newline_before_token (tl (dropWhile is_digit t)).
Proof.
  intros H. unfold replace. cbn [replace_aux].
  rewrite newline_before_token_at, H.
  apply andb_prop in H as [_ H]. unfold after_digits_dot in H.
  pose proof (take_drop is_digit t) as Ht.
  destruct (dropWhile is_digit t) as [| d rest]; [discriminate |].
  apply N.eqb_eq in H as ->. cbn [tl].
  remember (takeWhile is_digit t) as tw eqn:Htw. clear Htw. subst t.
  replace (List.length (c :: tw ++ 46%N :: rest) - List.length rest)%nat
    with (S (List.length (tw ++ [46%N])))
    by (cbn [List.length]; rewrite !length_app; cbn [List.length]; lia).
  replace (tw ++ 46 :: rest) with ((tw ++ [46]) ++ rest)
    by (now rewrite <- app_assoc).
  rewrite replace_skip by (rewrite !length_app; cbn [List.length]; lia).
  rewrite skipn_app, skipn_all, Nat.sub_diag. cbn [skipn LF app].
  now rewrite <- app_assoc.
Qed.

(** The third replacement leaves a run of digits without a dot as it
    is. *)
Lemma after_digits_dot_replaced (t : str) :
  after_digits_dot t = false ->
  after_digits_dot (replace newline_before_token t) = false.
Proof.
  induction t as [| x t IH]; [reflexivity |].
  rewrite after_digits_dot_cons. intros H.
  rewrite token_replaced_none, after_digits_dot_cons.
  - destruct (is_digit x); auto.
  - destruct (is_digit x); [exact H | reflexivity].
Qed.

Lemma tokens_after_digits (ds : str) :
  forall (prev : cu) (rest : str),
    is_digit prev = true -> Forall (fun d => is_digit d = true) ds ->
    tokens_start_lines prev (ds ++ 46 :: rest) = tokens_start_lines 46 rest.
Proof.
  induction ds as [| d ds IH]; intros prev rest Hprev Hds.
  - cbn [app tokens_start_lines]. now rewrite Hprev.
  - inversion Hds as [| ? ? Hd Hds']; subst.
    cbn [app tokens_start_lines]. rewrite Hprev. cbn [negb andb].
    now apply IH.
Qed.

(** After the third replacement every numbered token starts a line. *)
Lemma tokens_after_third (n : nat) :
  forall (s : str) (prev : cu),
    (List.length s <= n)%nat ->
    tokens_start_lines prev (replace newline_before_token s) = true.
Proof.
  induction n as [| n IH]; intros s prev Hlen.
  - destruct s; [reflexivity | simpl in Hlen; lia].
  - destruct s as [| c t]; [reflexivity |].
    cbn [List.length] in Hlen.
    destruct (is_digit c && after_digits_dot t)%bool eqn:Htoken.
    + rewrite (token_replaced _ _ Htoken).
      apply andb_prop in Htoken as [Hc _].
      cbn [tokens_start_lines]. change (is_digit 10) with false.
      rewrite andb_false_r. cbn [negb andb]. rewrite N.eqb_refl.
      rewrite Hc. cbn [andb].
      rewrite tokens_after_digits by (auto using takeWhile_Forall).
      match goal with |- context [if ?b then true else true] =>
        replace (if b then true else true) with true by (now destruct b) end.
      cbn [andb].
      apply IH.
      pose proof (dropWhile_length is_digit t).
      destruct (dropWhile is_digit t); cbn [tl List.length] in *; lia.
    + rewrite (token_replaced_none _ _ Htoken). cbn [tokens_start_lines].
      rewrite IH by lia. rewrite andb_true_r.
      destruct (is_digit c) eqn:Hc.
      * cbn [andb] in Htoken.
        rewrite (after_digits_dot_replaced _ Htoken). now rewrite andb_false_r.
      * now rewrite andb_false_r.
Qed.

Lemma after_digits_dot_collapsed (t : str) :
  after_digits_dot (replace one_blank_line t) = after_digits_dot t.
Proof.
  induction t as [| x t IH]; [reflexivity |].
  destruct (N.eqb x 10) eqn:Hx.
  - apply N.eqb_eq in Hx as ->. unfold replace. cbn [replace_aux].
    destruct (one_blank_line (10 :: t)) as [[r rest] |] eqn:Hfind.
    + destruct t as [| d t']; [discriminate |].
      destruct (N.eqb d 10) eqn:Hd.
      * apply N.eqb_eq in Hd as ->. rewrite one_blank_line_run in Hfind.
        injection Hfind as <- <-.
        destruct (List.length (10%N :: 10%N :: t')
                  - List.length (dropWhile (exactly 10) t'))%nat; reflexivity.
      * rewrite one_blank_line_single in Hfind by exact Hd. discriminate.
    + reflexivity.
  - assert (x <> 10) as Hne by (now apply N.eqb_neq).
    unfold replace. cbn [replace_aux]. rewrite (one_blank_line_other _ _ Hne).
    rewrite !after_digits_dot_cons. fold (replace one_blank_line t).
    now rewrite IH.
Qed.

Lemma tokens_relaxed (prev : cu) (s : str) :
  tokens_start_lines prev s = true -> tokens_start_lines 10 s = true.
Proof.
  destruct s as [| c t]; [reflexivity |]. cbn [tokens_start_lines].
  intros H. apply andb_prop in H as [_ ->]. rewrite N.eqb_refl.
  now destruct (negb (is_digit 10) && is_digit c && after_digits_dot t)%bool.
Qed.

Lemma tokens_after_line_feeds (t : str) :
  tokens_start_lines 10 t = true ->
  tokens_start_lines 10 (dropWhile (exactly 10) t) = true.
Proof.
  induction t as [| x t IH]; [reflexivity |].
  cbn [dropWhile]. unfold exactly at 1.
  destruct (N.eqb 10 x) eqn:Hx; [| auto].
  apply N.eqb_eq in Hx as <-. cbn [tokens_start_lines].
  intros H. apply andb_prop in H as [_ H]. auto.
Qed.

(** The fourth replacement keeps every numbered token at the start of
    its line. *)
Lemma tokens_after_fourth (n : nat) :
  forall (s : str) (prev : cu),
    (List.length s <= n)%nat ->
    tokens_start_lines prev s = true ->
    tokens_start_lines prev (replace one_blank_line s) = true.
Proof.
  induction n as [| n IH]; intros s prev Hlen Hs.
  - destruct s; [reflexivity | simpl in Hlen; lia].
  - destruct s as [| c t]; [reflexivity |].
    cbn [List.length] in Hlen.
    destruct (one_blank_line (c :: t)) as [[r rest] |] eqn:Hfind.
    + destruct (N.eqb c 10) eqn:Hc.
      2:{ rewrite one_blank_line_other in Hfind by (now apply N.eqb_neq).
          discriminate. }
      apply N.eqb_eq in Hc as ->.
      destruct t as [| d t']; [discriminate |].
      destruct (N.eqb d 10) eqn:Hd.
      2:{ rewrite one_blank_line_single in Hfind by exact Hd. discriminate. }
      apply N.eqb_eq in Hd as ->. clear Hfind.
      unfold replace. cbn [replace_aux]. rewrite one_blank_line_run.
      pose proof (dropWhile_length (exactly 10) t') as Hdrop.
      replace (List.length (10%N :: 10%N :: t')
               - List.length (dropWhile (exactly 10) t'))%nat
        with (S (S (List.length t' - List.length (dropWhile (exactly 10) t'))))%nat
        by (cbn [List.length]; lia).
      rewrite replace_skip by (cbn [List.length]; lia).
      cbn [skipn]. rewrite skipn_takeWhile. cbn [LF app tokens_start_lines].
      change (is_digit 10) with false. rewrite !andb_false_r. cbn [andb].
      apply (IH _ 10); [cbn [List.length] in Hlen; lia |].
      apply tokens_after_line_feeds.
      cbn [tokens_start_lines] in Hs.
      apply andb_prop in Hs as [_ Hs]. apply andb_prop in Hs as [_ Hs].
      exact Hs.
    + unfold replace. cbn [replace_aux]. rewrite Hfind.
      fold (replace one_blank_line t). cbn [tokens_start_lines] in Hs |- *.
      apply andb_prop in Hs as [Hcheck Hs].
      rewrite after_digits_dot_collapsed, Hcheck. cbn [andb].
      apply IH; [lia | exact Hs].
Qed.

Lemma after_digits_dot_app (u v : str) :
  after_digits_dot u = true -> after_digits_dot (u ++ v) = true.
Proof.
  induction u as [| x u IH]; [discriminate |].
  cbn [app]. rewrite !after_digits_dot_cons. destruct (is_digit x); auto.
Qed.

Lemma tokens_prefix (u v : str) :
  forall prev,
    tokens_start_lines prev (u ++ v) = true -> tokens_start_lines prev u = true.
Proof.
  induction u as [| c u IH]; intros prev; [reflexivity |].
  cbn [app tokens_start_lines]. intros H. apply andb_prop in H as [Hcheck H].
  rewrite (IH _ H), andb_true_r.
  destruct (after_digits_dot u) eqn:Hu.
  - now rewrite (after_digits_dot_app _ v Hu) in Hcheck.
  - now rewrite andb_false_r.
Qed.

Lemma tokens_without_leading_space (u : str) :
  forall prev,
    tokens_start_lines prev u = true ->
    tokens_start_lines 10 (dropWhile is_space u) = true.
Proof.
  induction u as [| w u IH]; intros prev H; [reflexivity |].
  cbn [dropWhile]. destruct (is_space w).
  - cbn [tokens_start_lines] in H. apply andb_prop in H as [_ H]. eauto.
  - eapply tokens_relaxed. exact H.
Qed.

Lemma tokens_trimmed (s : str) :
  tokens_start_lines 10 s = true -> tokens_start_lines 10 (trim s) = true.
Proof.
  intros H. apply tokens_without_leading_space in H.
  unfold trim. set (y := dropWhile is_space s) in *.
  destruct (dropWhile_suffix is_space (rev y)) as [pre Hpre].
  apply (tokens_prefix _ (rev pre)).
  rewrite <- rev_app_distr, <- Hpre, rev_involutive. exact H.
Qed.

(** What the check says, in terms of the text. *)
Lemma tokens_start_lines_spec (a : str) :
  forall (s : str) (prev x : cu) (ds b : str),
    tokens_start_lines prev s = true ->
    s = a ++ x :: ds ++ 46 :: b ->
    is_digit x = false -> ds <> [] -> Forall (fun d => is_digit d = true) ds ->
    x = 10.
Proof.
  induction a as [| y a IH]; intros s prev x ds b Hs -> Hx Hne Hds.
  - cbn [app tokens_start_lines] in Hs. apply andb_prop in Hs as [_ Hs].
    destruct ds as [| d ds]; [congruence |].
    inversion Hds as [| ? ? Hd Hds']; subst.
    cbn [app tokens_start_lines] in Hs. apply andb_prop in Hs as [Hs _].
    rewrite Hx, Hd in Hs. cbn [negb andb] in Hs.
    assert (after_digits_dot (ds ++ 46 :: b) = true) as Hdot.
    { unfold after_digits_dot.
      rewrite (dropWhile_app is_digit ds 46 b Hds' dot_not_digit).
      reflexivity. }
    rewrite Hdot in Hs. now apply N.eqb_eq.
  - cbn [app tokens_start_lines] in Hs. apply andb_prop in Hs as [_ Hs].
    exact (IH _ y x ds b Hs eq_refl Hx Hne Hds).
Qed.

(** X16.  In what [cleanNumberedSteps] makes of a string, every numbered
    token, one or more digits and a dot, starts a line: the unit before
    its first digit, when there is one and it is no digit, is a line
    feed. *)
Theorem X16_numbered_tokens_start_lines (s : str) :
  exists out,
    cleanNumberedSteps (VStr s) = VStr out
    /\ forall (a : str) (x : cu) (ds b : str),
         out = a ++ x :: ds ++ 46 :: b ->
         is_digit x = false -> ds <> [] ->
         Forall (fun d => is_digit d = true) ds ->
         x = 10.
Proof.
  unfold cleanNumberedSteps. destruct s as [| c t].
  - exists []. split; [reflexivity |]. intros a x ds b H. now destruct a.
  - cbn [truthy negb].
    set (s2 := replace newline_before_step (replace space_after_marker (c :: t))).
    eexists. split; [reflexivity |].
    intros a x ds b Hout. eapply tokens_start_lines_spec; [| exact Hout].
    apply tokens_trimmed.
    apply (tokens_after_fourth _ _ _ (le_n _)).
    apply (tokens_after_third _ _ _ (le_n _)).
Qed.

End NumberedTokens.

Section CardIds.
Import JS Value JSON Gemini Regex Client Reading.
Local Open Scope N_scope.

(** The member written last stands. *)
Lemma lookup_last (k : str) (v : value) (members : list (str * value)) :
  str_eqb k k = true -> lookup k (members ++ [(k, v)]) = Some v.
Proof.
  intros Hk. induction members as [| [k' v'] rest IH].
  - cbn [app lookup]. now rewrite Hk.
  - cbn [app lookup]. now rewrite IH.
Qed.

Lemma digits_of_inj (d : Decimal.uint) :
  forall d', digits_of d = digits_of d' -> d = d'.
Proof.
  induction d; intros d'; destruct d'; cbn [digits_of]; intros H;
    try discriminate; try reflexivity;
    injection H as H; f_equal; now apply IHd.
Qed.

Lemma digits_of_no_dash (d : Decimal.uint) :
  Forall (fun c => c <> 45) (digits_of d).
Proof. induction d; cbn [digits_of]; constructor; auto; discriminate. Qed.

Lemma before_dash (a : str) :
  forall (b r1 r2 : str),
    Forall (fun c => c <> 45) a -> Forall (fun c => c <> 45) b ->
    a ++ 45 :: r1 = b ++ 45 :: r2 -> a = b.
Proof.
  induction a as [| x a IH]; intros b r1 r2 Ha Hb Heq.
  - destruct b as [| y b]; [reflexivity |].
    injection Heq as <- _. inversion Hb; subst. congruence.
  - inversion Ha as [| ? ? Hx Ha']; subst. destruct b as [| y b].
    + injection Heq as -> _. congruence.
    + inversion Hb; subst. injection Heq as <- Heq. f_equal. eauto.
Qed.

(** The ids given to the cards differ, whatever the clock says. *)
Lemma card_id_inj (now : nat -> str) (i j : nat) :
  lit "flashcard-" ++ decimal i ++ lit "-" ++ now i
  = lit "flashcard-" ++ decimal j ++ lit "-" ++ now j ->
  i = j.
Proof.
  intros H. apply app_inv_head in H.
  apply before_dash in H; try apply digits_of_no_dash.
  apply digits_of_inj in H. now apply Unsigned.to_uint_inj.
Qed.

Lemma with_ids_spec (now : nat -> str) (cards : list value) :
  forall i,
    Forall2 has_id (with_ids now i cards)
      (map (fun k => lit "flashcard-" ++ decimal k ++ lit "-" ++ now k)
           (seq i (List.length cards))).
Proof.
  induction cards as [| card t IH]; intros i; cbn [with_ids List.length seq map].
  - constructor.
  - constructor; [| apply IH].
    eexists. split; [reflexivity |]. now apply lookup_last.
Qed.

Lemma NoDup_map_injective (A B : Type) (f : A -> B) (l : list A) :
  (forall x y, f x = f y -> x = y) -> NoDup l -> NoDup (map f l).
Proof.
  intros Hf. induction 1 as [| x l Hx _ IH]; cbn [map]; constructor; [| exact IH].
  intros Hin. apply in_map_iff in Hin as (y & Hy & Hin).
  apply Hf in Hy as ->. contradiction.
Qed.

(** X17.  Every card [generateFlashcards] returns is an object with a
    string [id], and the ids of the cards of one result are pairwise
    distinct, also when [Date.now()] gives the same number for all of
    them and whatever the parsed elements held, an [id] of their own
    included. *)
Theorem X17_cards_carry_distinct_ids (now : nat -> str) (topic : str)
    (p : proxied) :
  exists ids,
    Forall2 has_id (generateFlashcards now topic p) ids /\ NoDup ids.
Proof.
  assert (forall card id, has_id card id ->
            exists ids, Forall2 has_id [card] ids /\ NoDup ids) as Hone.
  { intros card id H. exists [id]. split; [now repeat constructor |].
    constructor; [intros [] | constructor]. }
  assert (exists ids, Forall2 has_id [error_card now topic] ids /\ NoDup ids)
    as Herror.
  { eapply Hone. eexists. split; reflexivity. }
  unfold generateFlashcards.
  destruct (callGemini p) as [response |]; [| exact Herror].
  destruct (cleanNumberedSteps response); try exact Herror.
  destruct response; try exact Herror.
  destruct (exec Server.json_array_re s) as [jsonMatch |].
  - destruct (JSON_parse jsonMatch) as [[] |]; try exact Herror.
    eexists. split; [apply with_ids_spec |].
    apply NoDup_map_injective; [| apply seq_NoDup].
    intros i j. apply card_id_inj.
  - eapply Hone. eexists. split; reflexivity.
Qed.

End CardIds.
